(** * go-sliding-window: receiver, simulated network and packet codec

    A shallow embedding of the sliding-window receiver ([RecvState], its
    [recvloop]), of the simulated network ([SimNet]) and of the generated
    MessagePack codec of [Packet], with the properties the specification
    states about them. *)

From Stdlib Require Import ZArith Lia List Bool Strings.String Strings.Ascii Strings.Byte.
From Stdlib Require Import Floats Uint63.
From stdpp Require Import base option list gmap strings.

Local Open Scope Z_scope.

(** ** Go's [int64] *)

Module Int64.

Definition modulus : Z := 2 ^ 64.
Definition max_int : Z := 2 ^ 63 - 1.
Definition min_int : Z := - 2 ^ 63.

(** Two's complement wrap-around of a mathematical integer. *)
Definition wrap (z : Z) : Z := (z + 2 ^ 63) mod 2 ^ 64 - 2 ^ 63.

Definition in_range (z : Z) : Prop := min_int <= z <= max_int.

Definition add (a b : Z) : Z := wrap (a + b).
Definition sub (a b : Z) : Z := wrap (a - b).

End Int64.

Notation "a +64 b" := (Int64.add a b) (at level 50, left associativity).
Notation "a -64 b" := (Int64.sub a b) (at level 50, left associativity).

(** ** Packets *)

(** [time.Time], as the instant the codec keeps: Unix seconds and the
    nanoseconds within the second. *)
Record Time := mkTime { unixSec : Z; nanos : Z }.

(** [Seqno] is the sequence number used in the sliding window, an [int64]. *)
Abbreviation Seqno := Z (only parsing).

(** The 18 wire fields of [Packet], in the order swp_gen.go writes them. *)
Record Packet := mkPacket {
  From : string;
  Dest : string;
  ArrivedAtDestTm : Time;
  DataSendTm : Time;
  SeqNum : Seqno;
  SeqRetry : Z;
  AckNum : Seqno;
  AckRetry : Z;
  AckReplyTm : Time;
  AckOnly : bool;
  KeepAlive : bool;
  AvailReaderBytesCap : Z;
  AvailReaderMsgCap : Z;
  FromRttEstNsec : Z;
  FromRttSdNsec : Z;
  FromRttN : Z;
  CumulBytesTransmitted : Z;
  Data : list byte
}.

Definition zeroTime : Time := mkTime 0 0.

(** The zero value of [Packet]. *)
Definition zeroPacket : Packet :=
  mkPacket "" "" zeroTime zeroTime 0 0 0 0 zeroTime false false 0 0 0 0 0 0 [].

(** A [*Packet]: [None] is the nil pointer. *)
Abbreviation PacketPtr := (option Packet) (only parsing).

(** [RxqSlot] is the receiver's sliding window element. *)
Record RxqSlot := mkRxqSlot {
  Received : bool;
  Pack : PacketPtr
}.

(** [&RxqSlot{}] *)
Definition emptySlot : RxqSlot := mkRxqSlot false None.

(** [InWindow] returns true iff seqno is in [min, max]. *)
Definition InWindow (seqno min max : Seqno) : bool :=
  if seqno <? min then false
  else if seqno >? max then false
  else true.

(** ** The sender, as far as the receiver touches it *)

(** Modelled from the spec: the type [Flow] and [FlowCtrl.UpdateFlow] are not
    among the sources.  The spec (section 4.3) has the advertised window
    "pushed into a shared FlowControl object visible to the local sender";
    the reserved headrooms are the fields the example sender sets. *)
Record Flow := mkFlow {
  ReservedByteCap : Z;
  ReservedMsgCap : Z;
  FlowAvailReaderBytesCap : Z;
  FlowAvailReaderMsgCap : Z
}.

Definition UpdateFlow (f : Flow) (who : string)
    (availReaderMsgCap availReaderBytesCap : Z) : Flow :=
  {| ReservedByteCap := ReservedByteCap f;
     ReservedMsgCap := ReservedMsgCap f;
     FlowAvailReaderBytesCap := availReaderBytesCap;
     FlowAvailReaderMsgCap := availReaderMsgCap |}.

(** [AckStatus], with the fields the receiver fills in. *)
Record AckStatus := mkAckStatus {
  OnlyUpdateFlowCtrl : bool;
  asAckNum : Seqno;
  AckCameWithPacket : Seqno;
  asAvailReaderBytesCap : Z;
  asAvailReaderMsgCap : Z
}.

(** The part of [SenderState] the receiver shares with the sender: the flow
    control object and the two channels, each as the log of what was sent
    on it (oldest first). *)
Record SenderState := mkSenderState {
  FlowCt : Flow;
  GotAck : list AckStatus;
  SendAck : list Packet
}.

(** ** The receiver *)

(** [InOrderSeq] is a batch handed to the consumer. *)
Record InOrderSeq := mkInOrderSeq { Seq : list PacketPtr }.

(** The ASAP helper: the packets offered on its [enqueue] channel. *)
Record AsapHelper := mkAsapHelper { enqueue : list Packet; asapStopped : bool }.

Record RecvState := mkRecvState {
  Inbox : string;
  NextFrameExpected : Seqno;
  Rxq : list RxqSlot;
  RecvWindowSize : Seqno;
  RecvWindowSizeBytes : Z;
  RecvHistory : list PacketPtr;
  RecvSz : Z;
  DiscardCount : Z;
  snd : SenderState;
  LastMsgConsumed : Seqno;
  LargestSeqnoRcvd : Seqno;
  MaxCumulBytesTrans : Z;
  LastByteConsumed : Z;
  LastAvailReaderBytesCap : Z;
  LastAvailReaderMsgCap : Z;
  RcvdButNotConsumed : gmap Z Packet;
  ReadyForDelivery : list PacketPtr;
  (* the values sent so far on ReadMessagesCh and NumHeldMessages *)
  ReadMessagesCh : list InOrderSeq;
  NumHeldMessages : list Z;
  AsapOn : bool;
  asapHelper : option AsapHelper
}.

(** Field updates ([r.F = v]). *)

Definition set_NextFrameExpected (v : Seqno) (r : RecvState) : RecvState :=
  mkRecvState (Inbox r) v (Rxq r) (RecvWindowSize r) (RecvWindowSizeBytes r) (RecvHistory r) (RecvSz r) (DiscardCount r) (snd r) (LastMsgConsumed r) (LargestSeqnoRcvd r) (MaxCumulBytesTrans r) (LastByteConsumed r) (LastAvailReaderBytesCap r) (LastAvailReaderMsgCap r) (RcvdButNotConsumed r) (ReadyForDelivery r) (ReadMessagesCh r) (NumHeldMessages r) (AsapOn r) (asapHelper r).

Definition set_Rxq (v : list RxqSlot) (r : RecvState) : RecvState :=
  mkRecvState (Inbox r) (NextFrameExpected r) v (RecvWindowSize r) (RecvWindowSizeBytes r) (RecvHistory r) (RecvSz r) (DiscardCount r) (snd r) (LastMsgConsumed r) (LargestSeqnoRcvd r) (MaxCumulBytesTrans r) (LastByteConsumed r) (LastAvailReaderBytesCap r) (LastAvailReaderMsgCap r) (RcvdButNotConsumed r) (ReadyForDelivery r) (ReadMessagesCh r) (NumHeldMessages r) (AsapOn r) (asapHelper r).

Definition set_RecvHistory (v : list PacketPtr) (r : RecvState) : RecvState :=
  mkRecvState (Inbox r) (NextFrameExpected r) (Rxq r) (RecvWindowSize r) (RecvWindowSizeBytes r) v (RecvSz r) (DiscardCount r) (snd r) (LastMsgConsumed r) (LargestSeqnoRcvd r) (MaxCumulBytesTrans r) (LastByteConsumed r) (LastAvailReaderBytesCap r) (LastAvailReaderMsgCap r) (RcvdButNotConsumed r) (ReadyForDelivery r) (ReadMessagesCh r) (NumHeldMessages r) (AsapOn r) (asapHelper r).

Definition set_DiscardCount (v : Z) (r : RecvState) : RecvState :=
  mkRecvState (Inbox r) (NextFrameExpected r) (Rxq r) (RecvWindowSize r) (RecvWindowSizeBytes r) (RecvHistory r) (RecvSz r) v (snd r) (LastMsgConsumed r) (LargestSeqnoRcvd r) (MaxCumulBytesTrans r) (LastByteConsumed r) (LastAvailReaderBytesCap r) (LastAvailReaderMsgCap r) (RcvdButNotConsumed r) (ReadyForDelivery r) (ReadMessagesCh r) (NumHeldMessages r) (AsapOn r) (asapHelper r).

Definition set_snd (v : SenderState) (r : RecvState) : RecvState :=
  mkRecvState (Inbox r) (NextFrameExpected r) (Rxq r) (RecvWindowSize r) (RecvWindowSizeBytes r) (RecvHistory r) (RecvSz r) (DiscardCount r) v (LastMsgConsumed r) (LargestSeqnoRcvd r) (MaxCumulBytesTrans r) (LastByteConsumed r) (LastAvailReaderBytesCap r) (LastAvailReaderMsgCap r) (RcvdButNotConsumed r) (ReadyForDelivery r) (ReadMessagesCh r) (NumHeldMessages r) (AsapOn r) (asapHelper r).

Definition set_LastMsgConsumed (v : Seqno) (r : RecvState) : RecvState :=
  mkRecvState (Inbox r) (NextFrameExpected r) (Rxq r) (RecvWindowSize r) (RecvWindowSizeBytes r) (RecvHistory r) (RecvSz r) (DiscardCount r) (snd r) v (LargestSeqnoRcvd r) (MaxCumulBytesTrans r) (LastByteConsumed r) (LastAvailReaderBytesCap r) (LastAvailReaderMsgCap r) (RcvdButNotConsumed r) (ReadyForDelivery r) (ReadMessagesCh r) (NumHeldMessages r) (AsapOn r) (asapHelper r).

Definition set_LargestSeqnoRcvd (v : Seqno) (r : RecvState) : RecvState :=
  mkRecvState (Inbox r) (NextFrameExpected r) (Rxq r) (RecvWindowSize r) (RecvWindowSizeBytes r) (RecvHistory r) (RecvSz r) (DiscardCount r) (snd r) (LastMsgConsumed r) v (MaxCumulBytesTrans r) (LastByteConsumed r) (LastAvailReaderBytesCap r) (LastAvailReaderMsgCap r) (RcvdButNotConsumed r) (ReadyForDelivery r) (ReadMessagesCh r) (NumHeldMessages r) (AsapOn r) (asapHelper r).

Definition set_MaxCumulBytesTrans (v : Z) (r : RecvState) : RecvState :=
  mkRecvState (Inbox r) (NextFrameExpected r) (Rxq r) (RecvWindowSize r) (RecvWindowSizeBytes r) (RecvHistory r) (RecvSz r) (DiscardCount r) (snd r) (LastMsgConsumed r) (LargestSeqnoRcvd r) v (LastByteConsumed r) (LastAvailReaderBytesCap r) (LastAvailReaderMsgCap r) (RcvdButNotConsumed r) (ReadyForDelivery r) (ReadMessagesCh r) (NumHeldMessages r) (AsapOn r) (asapHelper r).

Definition set_LastByteConsumed (v : Z) (r : RecvState) : RecvState :=
  mkRecvState (Inbox r) (NextFrameExpected r) (Rxq r) (RecvWindowSize r) (RecvWindowSizeBytes r) (RecvHistory r) (RecvSz r) (DiscardCount r) (snd r) (LastMsgConsumed r) (LargestSeqnoRcvd r) (MaxCumulBytesTrans r) v (LastAvailReaderBytesCap r) (LastAvailReaderMsgCap r) (RcvdButNotConsumed r) (ReadyForDelivery r) (ReadMessagesCh r) (NumHeldMessages r) (AsapOn r) (asapHelper r).

Definition set_LastAvailReaderBytesCap (v : Z) (r : RecvState) : RecvState :=
  mkRecvState (Inbox r) (NextFrameExpected r) (Rxq r) (RecvWindowSize r) (RecvWindowSizeBytes r) (RecvHistory r) (RecvSz r) (DiscardCount r) (snd r) (LastMsgConsumed r) (LargestSeqnoRcvd r) (MaxCumulBytesTrans r) (LastByteConsumed r) v (LastAvailReaderMsgCap r) (RcvdButNotConsumed r) (ReadyForDelivery r) (ReadMessagesCh r) (NumHeldMessages r) (AsapOn r) (asapHelper r).

Definition set_LastAvailReaderMsgCap (v : Z) (r : RecvState) : RecvState :=
  mkRecvState (Inbox r) (NextFrameExpected r) (Rxq r) (RecvWindowSize r) (RecvWindowSizeBytes r) (RecvHistory r) (RecvSz r) (DiscardCount r) (snd r) (LastMsgConsumed r) (LargestSeqnoRcvd r) (MaxCumulBytesTrans r) (LastByteConsumed r) (LastAvailReaderBytesCap r) v (RcvdButNotConsumed r) (ReadyForDelivery r) (ReadMessagesCh r) (NumHeldMessages r) (AsapOn r) (asapHelper r).

Definition set_RcvdButNotConsumed (v : gmap Z Packet) (r : RecvState) : RecvState :=
  mkRecvState (Inbox r) (NextFrameExpected r) (Rxq r) (RecvWindowSize r) (RecvWindowSizeBytes r) (RecvHistory r) (RecvSz r) (DiscardCount r) (snd r) (LastMsgConsumed r) (LargestSeqnoRcvd r) (MaxCumulBytesTrans r) (LastByteConsumed r) (LastAvailReaderBytesCap r) (LastAvailReaderMsgCap r) v (ReadyForDelivery r) (ReadMessagesCh r) (NumHeldMessages r) (AsapOn r) (asapHelper r).

Definition set_ReadyForDelivery (v : list PacketPtr) (r : RecvState) : RecvState :=
  mkRecvState (Inbox r) (NextFrameExpected r) (Rxq r) (RecvWindowSize r) (RecvWindowSizeBytes r) (RecvHistory r) (RecvSz r) (DiscardCount r) (snd r) (LastMsgConsumed r) (LargestSeqnoRcvd r) (MaxCumulBytesTrans r) (LastByteConsumed r) (LastAvailReaderBytesCap r) (LastAvailReaderMsgCap r) (RcvdButNotConsumed r) v (ReadMessagesCh r) (NumHeldMessages r) (AsapOn r) (asapHelper r).

Definition set_ReadMessagesCh (v : list InOrderSeq) (r : RecvState) : RecvState :=
  mkRecvState (Inbox r) (NextFrameExpected r) (Rxq r) (RecvWindowSize r) (RecvWindowSizeBytes r) (RecvHistory r) (RecvSz r) (DiscardCount r) (snd r) (LastMsgConsumed r) (LargestSeqnoRcvd r) (MaxCumulBytesTrans r) (LastByteConsumed r) (LastAvailReaderBytesCap r) (LastAvailReaderMsgCap r) (RcvdButNotConsumed r) (ReadyForDelivery r) v (NumHeldMessages r) (AsapOn r) (asapHelper r).

Definition set_NumHeldMessages (v : list Z) (r : RecvState) : RecvState :=
  mkRecvState (Inbox r) (NextFrameExpected r) (Rxq r) (RecvWindowSize r) (RecvWindowSizeBytes r) (RecvHistory r) (RecvSz r) (DiscardCount r) (snd r) (LastMsgConsumed r) (LargestSeqnoRcvd r) (MaxCumulBytesTrans r) (LastByteConsumed r) (LastAvailReaderBytesCap r) (LastAvailReaderMsgCap r) (RcvdButNotConsumed r) (ReadyForDelivery r) (ReadMessagesCh r) v (AsapOn r) (asapHelper r).

Definition set_AsapOn (v : bool) (r : RecvState) : RecvState :=
  mkRecvState (Inbox r) (NextFrameExpected r) (Rxq r) (RecvWindowSize r) (RecvWindowSizeBytes r) (RecvHistory r) (RecvSz r) (DiscardCount r) (snd r) (LastMsgConsumed r) (LargestSeqnoRcvd r) (MaxCumulBytesTrans r) (LastByteConsumed r) (LastAvailReaderBytesCap r) (LastAvailReaderMsgCap r) (RcvdButNotConsumed r) (ReadyForDelivery r) (ReadMessagesCh r) (NumHeldMessages r) v (asapHelper r).

Definition set_asapHelper (v : option AsapHelper) (r : RecvState) : RecvState :=
  mkRecvState (Inbox r) (NextFrameExpected r) (Rxq r) (RecvWindowSize r) (RecvWindowSizeBytes r) (RecvHistory r) (RecvSz r) (DiscardCount r) (snd r) (LastMsgConsumed r) (LargestSeqnoRcvd r) (MaxCumulBytesTrans r) (LastByteConsumed r) (LastAvailReaderBytesCap r) (LastAvailReaderMsgCap r) (RcvdButNotConsumed r) (ReadyForDelivery r) (ReadMessagesCh r) (NumHeldMessages r) (AsapOn r) v.

(** ** Panics and the outcomes of one pass through [recvloop] *)

Inductive PanicCause :=
| CumulBelowMax       (* "invariant that pack.CumulBytesTransmitted >= r.MaxCumulBytesTrans failed." *)
| CumulOutOfOrder     (* "invariant that pack.CumulBytesTransmitted goes in packet SeqNum order failed." *)
| DivideByZero        (* integer divide by zero *)
| IndexOutOfRange     (* index out of range *)
| NilDereference      (* nil pointer dereference *)
| MakeSliceLen.       (* makeslice: len out of range *)

Inductive Result (A : Type) :=
| Ok (a : A)
| Panic (c : PanicCause).
Arguments Ok {A} a.
Arguments Panic {A} c.

Inductive Outcome :=
| Running (r : RecvState)     (* back at the top of recvloop *)
| Exited (r : RecvState)      (* ReqStop was seen: the goroutine returned *)
| Panicked (c : PanicCause)
| NotEnabled                  (* the select case cannot fire in this state *)
| OutOfFuel.                  (* the bound put on a source loop was too small *)

(** [NewRecvState] makes a new RecvState manager. *)
Definition NewRecvState (recvSz recvSzBytes : Z) (inbox : string)
    (s : SenderState) : Result RecvState :=
  if recvSz <? 0 then Panic MakeSliceLen
  else Ok {|
    Inbox := inbox;
    NextFrameExpected := 0;
    Rxq := replicate (Z.to_nat recvSz) emptySlot;
    RecvWindowSize := recvSz;
    RecvWindowSizeBytes := recvSzBytes;
    RecvHistory := [];
    RecvSz := recvSz;
    DiscardCount := 0;
    snd := s;
    LastMsgConsumed := -1;
    LargestSeqnoRcvd := -1;
    MaxCumulBytesTrans := 0;
    LastByteConsumed := -1;
    LastAvailReaderBytesCap := 0;
    LastAvailReaderMsgCap := 0;
    RcvdButNotConsumed := ∅;
    ReadyForDelivery := [];
    ReadMessagesCh := [];
    NumHeldMessages := [];
    AsapOn := false;
    asapHelper := None
  |}.

(** [UpdateFlowControl]: recompute the advertised window and push it into the
    sender's flow control object. *)
Definition UpdateFlowControl (r : RecvState) : RecvState :=
  let r := set_LastAvailReaderMsgCap
             (RecvWindowSize r -64 (LargestSeqnoRcvd r -64 LastMsgConsumed r)) r in
  let r := set_LastAvailReaderBytesCap
             (RecvWindowSizeBytes r -64
                (MaxCumulBytesTrans r -64 (LastByteConsumed r +64 1))) r in
  set_snd (mkSenderState
             (UpdateFlow (FlowCt (snd r)) (Inbox r ++ ":recver")
                (LastAvailReaderMsgCap r) (LastAvailReaderBytesCap r))
             (GotAck (snd r)) (SendAck (snd r))) r.

(** The ack-only packet that [ack] builds. *)
Definition ackPacket (r : RecvState) (seqno : Seqno) (dest : string) : Packet :=
  mkPacket (Inbox r) dest zeroTime zeroTime (-99) 0 seqno 0 zeroTime true false
    (LastAvailReaderBytesCap r) (LastAvailReaderMsgCap r) 0 0 0 0 [].

(** [ack] is a helper function, used in the recvloop. *)
Definition ack (seqno : Seqno) (dest : string) (r : RecvState) : RecvState :=
  let r := UpdateFlowControl r in
  set_snd (mkSenderState (FlowCt (snd r)) (GotAck (snd r))
             (SendAck (snd r) ++ [ackPacket r seqno dest])) r.

(** [r.Rxq[seqno % r.RecvWindowSize]]: Go's [%] truncates towards zero, so a
    negative [seqno] gives a negative index.  The slot is named by its index. *)
Definition ringSlot (r : RecvState) (seqno : Seqno) : Result nat :=
  if RecvWindowSize r =? 0 then Panic DivideByZero
  else
    let i := Z.rem seqno (RecvWindowSize r) in
    if (i <? 0) || (Z.of_nat (length (Rxq r)) <=? i) then Panic IndexOutOfRange
    else Ok (Z.to_nat i).

(** The loop [for slot.Received { ... }] of the in-order branch.  Every turn
    clears a received slot, so the loop takes at most [length (Rxq r)] turns;
    [fuel] bounds them. *)
Fixpoint deliverInOrder (fuel : nat) (slot : nat) (r : RecvState) : Outcome :=
  match Rxq r !! slot with
  | None => Panicked IndexOutOfRange
  | Some s =>
    if Received s then
      match fuel with
      | O => OutOfFuel
      | S fuel' =>
        let r := set_ReadyForDelivery (ReadyForDelivery r ++ [Pack s]) r in
        let r := set_RecvHistory (RecvHistory r ++ [Pack s]) r in
        let r := set_Rxq (<[slot := mkRxqSlot false None]> (Rxq r)) r in
        let r := set_NextFrameExpected (NextFrameExpected r +64 1) r in
        match ringSlot r (NextFrameExpected r) with
        | Panic c => Panicked c
        | Ok slot' => deliverInOrder fuel' slot' r
        end
      end
    else Running r
  end.

(** The high-water marks and the two assertions on [CumulBytesTransmitted]. *)
Definition updateMarks (pack : Packet) (r : RecvState) : Result RecvState :=
  let step1 :=
    if SeqNum pack >? LargestSeqnoRcvd r then
      let r := set_LargestSeqnoRcvd (SeqNum pack) r in
      if CumulBytesTransmitted pack <? MaxCumulBytesTrans r then Panic CumulBelowMax
      else Ok (set_MaxCumulBytesTrans (CumulBytesTransmitted pack) r)
    else Ok r in
  match step1 with
  | Panic c => Panic c
  | Ok r =>
    if CumulBytesTransmitted pack >? MaxCumulBytesTrans r then Panic CumulOutOfOrder
    else Ok r
  end.

(** Which case of a [select] fired. *)
Inductive AsapSel := AsapEnqueued | AsapTimedOut | AsapReqStop.
Inductive GotAckSel := GotAckSent | GotAckReqStop.

(** [cleanupOnExit], deferred by the goroutine. *)
Definition cleanupOnExit (r : RecvState) : RecvState :=
  match asapHelper r with
  | Some h => set_asapHelper (Some (mkAsapHelper (enqueue h) true)) r
  | None => r
  end.

(** "tell any ASAP clients about it": [None] when the ReqStop case fired. *)
Definition offerAsap (pack : Packet) (sel : AsapSel) (r : RecvState)
    : option RecvState :=
  match AsapOn r, asapHelper r with
  | true, Some h =>
    match sel with
    | AsapEnqueued =>
      Some (set_asapHelper (Some (mkAsapHelper (enqueue h ++ [pack]) (asapStopped h))) r)
    | AsapTimedOut => Some r
    | AsapReqStop => None
    end
  | _, _ => Some r
  end.

(** The data branch: "actual data received, receiver side stuff". *)
Definition recvData (pack : Packet) (r : RecvState) : Outcome :=
  let r :=
    if SeqNum pack >=? NextFrameExpected r
    then set_RcvdButNotConsumed (<[SeqNum pack := pack]> (RcvdButNotConsumed r)) r
    else r in
  match ringSlot r (SeqNum pack) with
  | Panic c => Panicked c
  | Ok slot =>
    if negb (InWindow (SeqNum pack) (NextFrameExpected r)
               (NextFrameExpected r +64 RecvWindowSize r -64 1)) then
      let r := set_DiscardCount (DiscardCount r +64 1) r in
      Running (ack (NextFrameExpected r -64 1) (From pack) r)
    else
      let r := set_Rxq (<[slot := mkRxqSlot true (Some pack)]> (Rxq r)) r in
      if SeqNum pack =? NextFrameExpected r then
        match deliverInOrder (S (length (Rxq r))) slot r with
        | Running r => Running (ack (NextFrameExpected r -64 1) (From pack) r)
        | o => o
        end
      else Running r
  end.

(** "and tell snd about the new flow-control info": the [AckStatus] sent on
    [r.snd.GotAck]. *)
Definition tellSender (pack : Packet) (r : RecvState) : RecvState :=
  let status := mkAckStatus (negb (AckOnly pack)) (AckNum pack) (SeqNum pack)
                  (AvailReaderBytesCap pack) (AvailReaderMsgCap pack) in
  set_snd (mkSenderState (FlowCt (snd r)) (GotAck (snd r) ++ [status])
             (SendAck (snd r))) r.

(** [case pack := <-r.MsgRecv]: one incoming packet. *)
Definition recvPacket (pack : Packet) (asel : AsapSel) (gsel : GotAckSel)
    (r : RecvState) : Outcome :=
  match offerAsap pack asel r with
  | None => Exited (cleanupOnExit r)
  | Some r =>
    match updateMarks pack r with
    | Panic c => Panicked c
    | Ok r =>
      let r := UpdateFlowControl r in
      match gsel with
      | GotAckReqStop => Exited (cleanupOnExit r)
      | GotAckSent =>
        let r := tellSender pack r in
        if negb (AckOnly pack) then
          if KeepAlive pack then
            Running (ack (NextFrameExpected r -64 1) (From pack) r)
          else recvData pack r
        else Running r
      end
    end
  end.

(** The body of [for _, pack := range delivery.Seq]. *)
Fixpoint consumeDelivered (seq : list PacketPtr) (r : RecvState) : Result RecvState :=
  match seq with
  | [] => Ok r
  | None :: _ => Panic NilDereference
  | Some pack :: seq' =>
    let r := set_RcvdButNotConsumed (delete (SeqNum pack) (RcvdButNotConsumed r)) r in
    let r := set_LastMsgConsumed (SeqNum pack) r in
    consumeDelivered seq' r
  end.

(** [case deliverToConsumer <- delivery]: the batch is handed to the consumer.
    [deliverToConsumer] is nil, and the case cannot fire, while
    [ReadyForDelivery] is empty. *)
Definition deliver (r : RecvState) : Outcome :=
  match ReadyForDelivery r with
  | [] => NotEnabled
  | None :: _ => Panicked NilDereference
  | Some first :: _ =>
    let delivery := mkInOrderSeq (ReadyForDelivery r) in
    let r := set_ReadMessagesCh (ReadMessagesCh r ++ [delivery]) r in
    match consumeDelivered (Seq delivery) r with
    | Panic c => Panicked c
    | Ok r =>
      let r := set_LastByteConsumed
                 (CumulBytesTransmitted first -64 Z.of_nat (length (Data first))) r in
      Running (set_ReadyForDelivery [] r)
    end
  end.

(** The cases of the [select] in [recvloop]. *)
Inductive Event :=
| SetAsapHelper (helper : option AsapHelper)
| HeldQuery
| Deliver
| ReqStop
| MsgRecv (pack : Packet) (asel : AsapSel) (gsel : GotAckSel).

Definition recvloop (ev : Event) (r : RecvState) : Outcome :=
  match ev with
  | SetAsapHelper helper =>
    let r := match asapHelper r with
             | Some h => set_asapHelper (Some (mkAsapHelper (enqueue h) true)) r
             | None => r
             end in
    let r := set_asapHelper helper r in
    Running (match helper with Some _ => set_AsapOn true r | None => r end)
  | HeldQuery =>
    Running (set_NumHeldMessages
               (NumHeldMessages r ++ [Z.of_nat (size (RcvdButNotConsumed r))]) r)
  | Deliver => deliver r
  | ReqStop => Exited (cleanupOnExit r)
  | MsgRecv pack asel gsel => recvPacket pack asel gsel r
  end.

(** A run of the goroutine over the events it selects, one after the other;
    nothing is processed after it exited or panicked. *)
Fixpoint run (evs : list Event) (r : RecvState) : Outcome :=
  match evs with
  | [] => Running r
  | ev :: evs' =>
    match recvloop ev r with
    | Running r' => run evs' r'
    | o => o
    end
  end.

(** ** The simulated network (simnet.go) *)

(** A channel made by [make(chan *Packet)], named by the order of its
    allocation. *)
Abbreviation Chan := nat (only parsing).

(** [time.Duration], an [int64] of nanoseconds. *)
Abbreviation Duration := Z (only parsing).

Definition Millisecond : Duration := 1000000.

(** [SimNet] simulates a network with a given latency and loss
    characteristics. *)
Record SimNet := mkSimNet {
  Net : gmap string Chan;
  LossProb : float;
  Latency : Duration;
  TotalSent : gmap string Z;
  TotalRcvd : gmap string Z;
  DiscardOnce : Seqno;
  SimulateReorderNext : Z;
  heldBack : PacketPtr;
  DuplicateNext : bool;
  (* the number of channels made so far *)
  chansMade : nat
}.

(** [go sim.sendWithLatency(ch, pack, lat)]: a delivery started by [Send]. *)
Record Delivery := mkDelivery {
  toChan : Chan;
  delivered : PacketPtr;
  after : Duration
}.

(** [NewSimNet] makes a network simulator. *)
Definition NewSimNet (lossProb : float) (latency : Duration) : SimNet :=
  {| Net := ∅; LossProb := lossProb; Latency := latency;
     TotalSent := ∅; TotalRcvd := ∅; DiscardOnce := -1;
     SimulateReorderNext := 0; heldBack := None; DuplicateNext := false;
     chansMade := 0 |}.

(** [Listen]: a new channel is registered for [inbox]; the error is nil. *)
Definition Listen (inbox : string) (sim : SimNet) : SimNet * Chan * option string :=
  let ch := chansMade sim in
  (mkSimNet (<[inbox := ch]> (Net sim)) (LossProb sim) (Latency sim)
     (TotalSent sim) (TotalRcvd sim) (DiscardOnce sim) (SimulateReorderNext sim)
     (heldBack sim) (DuplicateNext sim) (S ch),
   ch, None).

Definition resolution : Z := 2 ^ 20.

(** [float64(i)] for an [int] of small magnitude. *)
Definition float64_of_int (i : Z) : float :=
  if i <? 0 then PrimFloat.opp (PrimFloat.of_uint63 (Uint63.of_Z (- i)))
  else PrimFloat.of_uint63 (Uint63.of_Z i).

(** [cryptoProb], given the eight random bytes as the [uint64] they encode
    in little endian. *)
Definition cryptoProb (random : Z) : float :=
  let r := Int64.wrap random in
  let r := if r <? 0 then Int64.wrap (- r) else r in
  let r := Z.rem r (resolution + 1) in
  PrimFloat.div (float64_of_int r) (float64_of_int resolution).

(** [sim.TotalSent[from]++] *)
Definition countSent (from : string) (sim : SimNet) : SimNet :=
  mkSimNet (Net sim) (LossProb sim) (Latency sim)
    (<[from := default 0 (TotalSent sim !! from) +64 1]> (TotalSent sim))
    (TotalRcvd sim) (DiscardOnce sim) (SimulateReorderNext sim)
    (heldBack sim) (DuplicateNext sim) (chansMade sim).

Definition set_reorder (n : Z) (held : PacketPtr) (sim : SimNet) : SimNet :=
  mkSimNet (Net sim) (LossProb sim) (Latency sim) (TotalSent sim) (TotalRcvd sim)
    (DiscardOnce sim) n held (DuplicateNext sim) (chansMade sim).

Definition set_DiscardOnce (seqno : Seqno) (sim : SimNet) : SimNet :=
  mkSimNet (Net sim) (LossProb sim) (Latency sim) (TotalSent sim) (TotalRcvd sim)
    seqno (SimulateReorderNext sim) (heldBack sim) (DuplicateNext sim) (chansMade sim).

Definition set_DuplicateNext (b : bool) (sim : SimNet) : SimNet :=
  mkSimNet (Net sim) (LossProb sim) (Latency sim) (TotalSent sim) (TotalRcvd sim)
    (DiscardOnce sim) (SimulateReorderNext sim) (heldBack sim) b (chansMade sim).

Definition set_LossProb (p : float) (sim : SimNet) : SimNet :=
  mkSimNet (Net sim) p (Latency sim) (TotalSent sim) (TotalRcvd sim)
    (DiscardOnce sim) (SimulateReorderNext sim) (heldBack sim) (DuplicateNext sim)
    (chansMade sim).

(** The part of [Send] after the reorder switch. *)
Definition sendOn (ch : Chan) (pack : Packet) (random : Z) (sim : SimNet)
    : SimNet * option string * list Delivery :=
  if SeqNum pack =? DiscardOnce sim then
    (set_DiscardOnce (-1) sim, None, [])
  else
    let pr := cryptoProb random in
    let isLost := PrimFloat.leb pr (LossProb sim) in
    if PrimFloat.ltb 0 (LossProb sim) && isLost then (sim, None, [])
    else
      let first := [mkDelivery ch (Some pack) (Latency sim)] in
      let '(sim, held) :=
        match heldBack sim with
        | Some h =>
          (set_reorder (SimulateReorderNext sim) None sim,
           [mkDelivery ch (Some h) (Latency sim +64 20 * Millisecond)])
        | None => (sim, [])
        end in
      let '(sim, dup) :=
        if DuplicateNext sim
        then (set_DuplicateNext false sim, [mkDelivery ch (Some pack) (Latency sim)])
        else (sim, []) in
      (sim, None, first ++ held ++ dup).

(** [Send] from the lookup of the destination on: the new state, the error
    ([None] is nil) and the deliveries it started. *)
Definition sendTo (pack : Packet) (random : Z) (sim : SimNet)
    : SimNet * option string * list Delivery :=
  match Net sim !! Dest pack with
  | None =>
    (sim, Some ("sim sees packet for unknown node '" ++ Dest pack ++ "'")%string, [])
  | Some ch =>
    if SimulateReorderNext sim =? 0 then sendOn ch pack random sim
    else if SimulateReorderNext sim =? 1 then
      (set_reorder (SimulateReorderNext sim + 1) (Some pack) sim, None, [])
    else sendOn ch pack random (set_reorder 0 (heldBack sim) sim)
  end.

(** [Send] of simnet.go: the packet is counted in [TotalSent] first. *)
Definition Send (pack : Packet) (why : string) (random : Z) (sim : SimNet)
    : SimNet * option string * list Delivery :=
  sendTo pack random (countSent (From pack) sim).

(** [Send] of the earlier copy of the simulator, in swp.go: there are no
    counters and no [why]. *)
Definition SendEarlier (pack : Packet) (random : Z) (sim : SimNet)
    : SimNet * option string * list Delivery :=
  sendTo pack random sim.

(** What a test does with a network: the two methods, and the exported
    fields that switch the simulated faults on. *)
Inductive SimOp :=
| OpListen (inbox : string)
| OpSend (pack : Packet) (why : string) (random : Z)
| OpSendEarlier (pack : Packet) (random : Z)
| OpSetDiscardOnce (seqno : Seqno)
| OpSetSimulateReorderNext (n : Z)
| OpSetDuplicateNext (b : bool)
| OpSetLossProb (p : float).

Definition simStep (op : SimOp) (sim : SimNet) : SimNet :=
  match op with
  | OpListen inbox => (Listen inbox sim).1.1
  | OpSend pack why random => (Send pack why random sim).1.1
  | OpSendEarlier pack random => (SendEarlier pack random sim).1.1
  | OpSetDiscardOnce seqno => set_DiscardOnce seqno sim
  | OpSetSimulateReorderNext n => set_reorder n (heldBack sim) sim
  | OpSetDuplicateNext b => set_DuplicateNext b sim
  | OpSetLossProb p => set_LossProb p sim
  end.

Definition simRun (ops : list SimOp) (sim : SimNet) : SimNet :=
  fold_left (fun sim op => simStep op sim) ops sim.

(** Was [Listen] called for [inbox]? *)
Definition listened (inbox : string) (ops : list SimOp) : bool :=
  existsb (fun op => match op with
                     | OpListen i => bool_decide (i = inbox)
                     | _ => false
                     end) ops.

(** ** [Session.Push] (swp.go) *)

(** [var ErrShutdown = fmt.Errorf("shutting down")] *)
Inductive GoError := ErrShutdown.

(** The two channels of the sender that [Push] selects on: what was handed
    over on [BlockingSend], whether the sender's goroutine is receiving on
    it, and whether [ReqStop] is closed (the shutdown signal). *)
Record PushChannels := mkPushChannels {
  BlockingSend : list Packet;
  senderReceiving : bool;
  ReqStopClosed : bool
}.

(** The cases of the [select] in [Push]. *)
Inductive PushCase := CaseBlockingSend | CaseReqStop.

Definition caseReady (c : PushCase) (ch : PushChannels) : bool :=
  match c with
  | CaseBlockingSend => senderReceiving ch
  | CaseReqStop => ReqStopClosed ch
  end.

(** What a call of [Push] comes to. *)
Inductive PushOutcome :=
| PushReturns (ch : PushChannels) (results : list GoError)
| PushBlocked               (* no case is ready: the call does not return *)
| PushCaseNotReady.         (* this case cannot be the one selected *)

(** [func (sess *Session) Push(pack *Packet)]: the function is declared
    without results, so a call that returns hands the caller no value; [c]
    is the case the [select] takes among those that are ready. *)
Definition Push (pack : Packet) (c : PushCase) (ch : PushChannels) : PushOutcome :=
  if negb (senderReceiving ch) && negb (ReqStopClosed ch) then PushBlocked
  else if negb (caseReady c ch) then PushCaseNotReady
  else
    match c with
    | CaseBlockingSend =>
      PushReturns (mkPushChannels (BlockingSend ch ++ [pack]) (senderReceiving ch)
                     (ReqStopClosed ch)) []
    | CaseReqStop =>
      (* give up, Sender is shutting down. *)
      PushReturns ch []
    end.

(** ** The MessagePack codec of [Packet] (swp_gen.go) *)

(** Assignments to the fields of a packet ([z.F = v]). *)
Definition upd_From (v : string) (z : Packet) : Packet :=
  mkPacket v (Dest z) (ArrivedAtDestTm z) (DataSendTm z) (SeqNum z) (SeqRetry z) (AckNum z) (AckRetry z) (AckReplyTm z) (AckOnly z) (KeepAlive z) (AvailReaderBytesCap z) (AvailReaderMsgCap z) (FromRttEstNsec z) (FromRttSdNsec z) (FromRttN z) (CumulBytesTransmitted z) (Data z).
Definition upd_Dest (v : string) (z : Packet) : Packet :=
  mkPacket (From z) v (ArrivedAtDestTm z) (DataSendTm z) (SeqNum z) (SeqRetry z) (AckNum z) (AckRetry z) (AckReplyTm z) (AckOnly z) (KeepAlive z) (AvailReaderBytesCap z) (AvailReaderMsgCap z) (FromRttEstNsec z) (FromRttSdNsec z) (FromRttN z) (CumulBytesTransmitted z) (Data z).
Definition upd_ArrivedAtDestTm (v : Time) (z : Packet) : Packet :=
  mkPacket (From z) (Dest z) v (DataSendTm z) (SeqNum z) (SeqRetry z) (AckNum z) (AckRetry z) (AckReplyTm z) (AckOnly z) (KeepAlive z) (AvailReaderBytesCap z) (AvailReaderMsgCap z) (FromRttEstNsec z) (FromRttSdNsec z) (FromRttN z) (CumulBytesTransmitted z) (Data z).
Definition upd_DataSendTm (v : Time) (z : Packet) : Packet :=
  mkPacket (From z) (Dest z) (ArrivedAtDestTm z) v (SeqNum z) (SeqRetry z) (AckNum z) (AckRetry z) (AckReplyTm z) (AckOnly z) (KeepAlive z) (AvailReaderBytesCap z) (AvailReaderMsgCap z) (FromRttEstNsec z) (FromRttSdNsec z) (FromRttN z) (CumulBytesTransmitted z) (Data z).
Definition upd_SeqNum (v : Z) (z : Packet) : Packet :=
  mkPacket (From z) (Dest z) (ArrivedAtDestTm z) (DataSendTm z) v (SeqRetry z) (AckNum z) (AckRetry z) (AckReplyTm z) (AckOnly z) (KeepAlive z) (AvailReaderBytesCap z) (AvailReaderMsgCap z) (FromRttEstNsec z) (FromRttSdNsec z) (FromRttN z) (CumulBytesTransmitted z) (Data z).
Definition upd_SeqRetry (v : Z) (z : Packet) : Packet :=
  mkPacket (From z) (Dest z) (ArrivedAtDestTm z) (DataSendTm z) (SeqNum z) v (AckNum z) (AckRetry z) (AckReplyTm z) (AckOnly z) (KeepAlive z) (AvailReaderBytesCap z) (AvailReaderMsgCap z) (FromRttEstNsec z) (FromRttSdNsec z) (FromRttN z) (CumulBytesTransmitted z) (Data z).
Definition upd_AckNum (v : Z) (z : Packet) : Packet :=
  mkPacket (From z) (Dest z) (ArrivedAtDestTm z) (DataSendTm z) (SeqNum z) (SeqRetry z) v (AckRetry z) (AckReplyTm z) (AckOnly z) (KeepAlive z) (AvailReaderBytesCap z) (AvailReaderMsgCap z) (FromRttEstNsec z) (FromRttSdNsec z) (FromRttN z) (CumulBytesTransmitted z) (Data z).
Definition upd_AckRetry (v : Z) (z : Packet) : Packet :=
  mkPacket (From z) (Dest z) (ArrivedAtDestTm z) (DataSendTm z) (SeqNum z) (SeqRetry z) (AckNum z) v (AckReplyTm z) (AckOnly z) (KeepAlive z) (AvailReaderBytesCap z) (AvailReaderMsgCap z) (FromRttEstNsec z) (FromRttSdNsec z) (FromRttN z) (CumulBytesTransmitted z) (Data z).
Definition upd_AckReplyTm (v : Time) (z : Packet) : Packet :=
  mkPacket (From z) (Dest z) (ArrivedAtDestTm z) (DataSendTm z) (SeqNum z) (SeqRetry z) (AckNum z) (AckRetry z) v (AckOnly z) (KeepAlive z) (AvailReaderBytesCap z) (AvailReaderMsgCap z) (FromRttEstNsec z) (FromRttSdNsec z) (FromRttN z) (CumulBytesTransmitted z) (Data z).
Definition upd_AckOnly (v : bool) (z : Packet) : Packet :=
  mkPacket (From z) (Dest z) (ArrivedAtDestTm z) (DataSendTm z) (SeqNum z) (SeqRetry z) (AckNum z) (AckRetry z) (AckReplyTm z) v (KeepAlive z) (AvailReaderBytesCap z) (AvailReaderMsgCap z) (FromRttEstNsec z) (FromRttSdNsec z) (FromRttN z) (CumulBytesTransmitted z) (Data z).
Definition upd_KeepAlive (v : bool) (z : Packet) : Packet :=
  mkPacket (From z) (Dest z) (ArrivedAtDestTm z) (DataSendTm z) (SeqNum z) (SeqRetry z) (AckNum z) (AckRetry z) (AckReplyTm z) (AckOnly z) v (AvailReaderBytesCap z) (AvailReaderMsgCap z) (FromRttEstNsec z) (FromRttSdNsec z) (FromRttN z) (CumulBytesTransmitted z) (Data z).
Definition upd_AvailReaderBytesCap (v : Z) (z : Packet) : Packet :=
  mkPacket (From z) (Dest z) (ArrivedAtDestTm z) (DataSendTm z) (SeqNum z) (SeqRetry z) (AckNum z) (AckRetry z) (AckReplyTm z) (AckOnly z) (KeepAlive z) v (AvailReaderMsgCap z) (FromRttEstNsec z) (FromRttSdNsec z) (FromRttN z) (CumulBytesTransmitted z) (Data z).
Definition upd_AvailReaderMsgCap (v : Z) (z : Packet) : Packet :=
  mkPacket (From z) (Dest z) (ArrivedAtDestTm z) (DataSendTm z) (SeqNum z) (SeqRetry z) (AckNum z) (AckRetry z) (AckReplyTm z) (AckOnly z) (KeepAlive z) (AvailReaderBytesCap z) v (FromRttEstNsec z) (FromRttSdNsec z) (FromRttN z) (CumulBytesTransmitted z) (Data z).
Definition upd_FromRttEstNsec (v : Z) (z : Packet) : Packet :=
  mkPacket (From z) (Dest z) (ArrivedAtDestTm z) (DataSendTm z) (SeqNum z) (SeqRetry z) (AckNum z) (AckRetry z) (AckReplyTm z) (AckOnly z) (KeepAlive z) (AvailReaderBytesCap z) (AvailReaderMsgCap z) v (FromRttSdNsec z) (FromRttN z) (CumulBytesTransmitted z) (Data z).
Definition upd_FromRttSdNsec (v : Z) (z : Packet) : Packet :=
  mkPacket (From z) (Dest z) (ArrivedAtDestTm z) (DataSendTm z) (SeqNum z) (SeqRetry z) (AckNum z) (AckRetry z) (AckReplyTm z) (AckOnly z) (KeepAlive z) (AvailReaderBytesCap z) (AvailReaderMsgCap z) (FromRttEstNsec z) v (FromRttN z) (CumulBytesTransmitted z) (Data z).
Definition upd_FromRttN (v : Z) (z : Packet) : Packet :=
  mkPacket (From z) (Dest z) (ArrivedAtDestTm z) (DataSendTm z) (SeqNum z) (SeqRetry z) (AckNum z) (AckRetry z) (AckReplyTm z) (AckOnly z) (KeepAlive z) (AvailReaderBytesCap z) (AvailReaderMsgCap z) (FromRttEstNsec z) (FromRttSdNsec z) v (CumulBytesTransmitted z) (Data z).
Definition upd_CumulBytesTransmitted (v : Z) (z : Packet) : Packet :=
  mkPacket (From z) (Dest z) (ArrivedAtDestTm z) (DataSendTm z) (SeqNum z) (SeqRetry z) (AckNum z) (AckRetry z) (AckReplyTm z) (AckOnly z) (KeepAlive z) (AvailReaderBytesCap z) (AvailReaderMsgCap z) (FromRttEstNsec z) (FromRttSdNsec z) (FromRttN z) v (Data z).
Definition upd_Data (v : list byte) (z : Packet) : Packet :=
  mkPacket (From z) (Dest z) (ArrivedAtDestTm z) (DataSendTm z) (SeqNum z) (SeqRetry z) (AckNum z) (AckRetry z) (AckReplyTm z) (AckOnly z) (KeepAlive z) (AvailReaderBytesCap z) (AvailReaderMsgCap z) (FromRttEstNsec z) (FromRttSdNsec z) (FromRttN z) (CumulBytesTransmitted z) v.

(** The errors of the msgp library. *)
Inductive MsgpError :=
| ErrShortBytes                 (* too few bytes left to read the object *)
| TypeError (lead : byte)       (* the prefix is of another type *)
| ExtensionTypeError (got : byte)
| InvalidPrefixError (lead : byte)
| ErrMaxDepth.                  (* Skip: nesting deeper than the bound put on it *)

(** The results [(v, o, err)] of a [Read...Bytes] function: the value and
    the bytes left over, or the error. *)
Inductive MsgpResult (A : Type) :=
| Got (v : A) (o : list byte)
| Failed (err : MsgpError).
Arguments Got {A} v o.
Arguments Failed {A} err.

(** The functions of github.com/tinylib/msgp/msgp that swp_gen.go calls.
    The library is not part of the repository: the codec is stated over this
    interface, and [MsgpLawful] below is what it needs of it. *)
Class MsgpLib := {
  Require : list byte -> Z -> list byte;
  AppendString : list byte -> string -> list byte;
  AppendTime : list byte -> Time -> list byte;
  AppendInt64 : list byte -> Z -> list byte;
  AppendBool : list byte -> bool -> list byte;
  AppendBytes : list byte -> list byte -> list byte;
  ReadMapHeaderBytes : list byte -> MsgpResult Z;
  ReadMapKeyZC : list byte -> MsgpResult (list byte);
  ReadStringBytes : list byte -> MsgpResult string;
  ReadTimeBytes : list byte -> MsgpResult Time;
  ReadInt64Bytes : list byte -> MsgpResult Z;
  ReadBoolBytes : list byte -> MsgpResult bool;
  ReadBytesBytes : list byte -> list byte -> MsgpResult (list byte);
  Skip : list byte -> MsgpResult unit
}.

Definition StringPrefixSize : Z := 5.
Definition BytesPrefixSize : Z := 5.
Definition TimeSize : Z := 15.
Definition Int64Size : Z := 9.
Definition BoolSize : Z := 1.

(** A byte as a number, and back (modulo 256). *)
Definition byteZ (b : byte) : Z := Z.of_N (Byte.to_N b).

Definition Zbyte (z : Z) : byte :=
  match Byte.of_N (Z.to_N (z mod 256)) with
  | Some b => b
  | None => x00
  end.

(** The bytes of a Go string. *)
Definition bytesOf (s : string) : list byte := list_byte_of_string s.

Section Codec.

Context `{MsgpLib}.

(** [Msgsize]: an upper bound of the size of the encoding. *)
Definition Msgsize (z : Packet) : Z :=
  3 + 5 + StringPrefixSize + Z.of_nat (String.length (From z))
  + 5 + StringPrefixSize + Z.of_nat (String.length (Dest z))
  + 16 + TimeSize + 11 + TimeSize + 7 + Int64Size + 9 + Int64Size
  + 7 + Int64Size + 9 + Int64Size + 11 + TimeSize + 8 + BoolSize
  + 10 + BoolSize + 20 + Int64Size + 18 + Int64Size + 15 + Int64Size
  + 14 + Int64Size + 9 + Int64Size + 22 + Int64Size
  + 5 + BytesPrefixSize + Z.of_nat (length (Data z)).

(** [MarshalMsg] implements msgp.Marshaler. *)
Definition MarshalMsg (z : Packet) (b : list byte) : list byte :=
  let o := Require b (Msgsize z) in
  (* map header, size 18 *)
  (* string "From" *)
  let o := o ++ [xde; x00; x12; xa4; x46; x72; x6f; x6d] in
  let o := AppendString o (From z) in
  (* string "Dest" *)
  let o := o ++ [xa4; x44; x65; x73; x74] in
  let o := AppendString o (Dest z) in
  (* string "ArrivedAtDestTm" *)
  let o := o ++ [xaf; x41; x72; x72; x69; x76; x65; x64; x41; x74; x44; x65; x73;
                 x74; x54; x6d] in
  let o := AppendTime o (ArrivedAtDestTm z) in
  (* string "DataSendTm" *)
  let o := o ++ [xaa; x44; x61; x74; x61; x53; x65; x6e; x64; x54; x6d] in
  let o := AppendTime o (DataSendTm z) in
  (* string "SeqNum" *)
  let o := o ++ [xa6; x53; x65; x71; x4e; x75; x6d] in
  let o := AppendInt64 o (SeqNum z) in
  (* string "SeqRetry" *)
  let o := o ++ [xa8; x53; x65; x71; x52; x65; x74; x72; x79] in
  let o := AppendInt64 o (SeqRetry z) in
  (* string "AckNum" *)
  let o := o ++ [xa6; x41; x63; x6b; x4e; x75; x6d] in
  let o := AppendInt64 o (AckNum z) in
  (* string "AckRetry" *)
  let o := o ++ [xa8; x41; x63; x6b; x52; x65; x74; x72; x79] in
  let o := AppendInt64 o (AckRetry z) in
  (* string "AckReplyTm" *)
  let o := o ++ [xaa; x41; x63; x6b; x52; x65; x70; x6c; x79; x54; x6d] in
  let o := AppendTime o (AckReplyTm z) in
  (* string "AckOnly" *)
  let o := o ++ [xa7; x41; x63; x6b; x4f; x6e; x6c; x79] in
  let o := AppendBool o (AckOnly z) in
  (* string "KeepAlive" *)
  let o := o ++ [xa9; x4b; x65; x65; x70; x41; x6c; x69; x76; x65] in
  let o := AppendBool o (KeepAlive z) in
  (* string "AvailReaderBytesCap" *)
  let o := o ++ [xb3; x41; x76; x61; x69; x6c; x52; x65; x61; x64; x65; x72; x42;
                 x79; x74; x65; x73; x43; x61; x70] in
  let o := AppendInt64 o (AvailReaderBytesCap z) in
  (* string "AvailReaderMsgCap" *)
  let o := o ++ [xb1; x41; x76; x61; x69; x6c; x52; x65; x61; x64; x65; x72; x4d;
                 x73; x67; x43; x61; x70] in
  let o := AppendInt64 o (AvailReaderMsgCap z) in
  (* string "FromRttEstNsec" *)
  let o := o ++ [xae; x46; x72; x6f; x6d; x52; x74; x74; x45; x73; x74; x4e; x73;
                 x65; x63] in
  let o := AppendInt64 o (FromRttEstNsec z) in
  (* string "FromRttSdNsec" *)
  let o := o ++ [xad; x46; x72; x6f; x6d; x52; x74; x74; x53; x64; x4e; x73; x65;
                 x63] in
  let o := AppendInt64 o (FromRttSdNsec z) in
  (* string "FromRttN" *)
  let o := o ++ [xa8; x46; x72; x6f; x6d; x52; x74; x74; x4e] in
  let o := AppendInt64 o (FromRttN z) in
  (* string "CumulBytesTransmitted" *)
  let o := o ++ [xb5; x43; x75; x6d; x75; x6c; x42; x79; x74; x65; x73; x54; x72;
                 x61; x6e; x73; x6d; x69; x74; x74; x65; x64] in
  let o := AppendInt64 o (CumulBytesTransmitted z) in
  (* string "Data" *)
  let o := o ++ [xa4; x44; x61; x74; x61] in
  let o := AppendBytes o (Data z) in
  o.

(** Reading one value into a field of [z]. *)
Definition readInto {A : Type} (read : MsgpResult A) (assign : A -> Packet -> Packet)
    (z : Packet) : MsgpResult Packet :=
  match read with
  | Got v bts => Got (assign v z) bts
  | Failed err => Failed err
  end.

(** The [switch msgp.UnsafeString(field)] of [UnmarshalMsg]: the value of
    the field named [field] is read from [bts] into [z]; the value of a
    field of another name is skipped. *)
Definition unmarshalField (field : list byte) (z : Packet) (bts : list byte)
    : MsgpResult Packet :=
  let name := string_of_list_byte field in
  if (name =? "From")%string then readInto (ReadStringBytes bts) upd_From z
  else if (name =? "Dest")%string then readInto (ReadStringBytes bts) upd_Dest z
  else if (name =? "ArrivedAtDestTm")%string then readInto (ReadTimeBytes bts) upd_ArrivedAtDestTm z
  else if (name =? "DataSendTm")%string then readInto (ReadTimeBytes bts) upd_DataSendTm z
  else if (name =? "SeqNum")%string then readInto (ReadInt64Bytes bts) upd_SeqNum z
  else if (name =? "SeqRetry")%string then readInto (ReadInt64Bytes bts) upd_SeqRetry z
  else if (name =? "AckNum")%string then readInto (ReadInt64Bytes bts) upd_AckNum z
  else if (name =? "AckRetry")%string then readInto (ReadInt64Bytes bts) upd_AckRetry z
  else if (name =? "AckReplyTm")%string then readInto (ReadTimeBytes bts) upd_AckReplyTm z
  else if (name =? "AckOnly")%string then readInto (ReadBoolBytes bts) upd_AckOnly z
  else if (name =? "KeepAlive")%string then readInto (ReadBoolBytes bts) upd_KeepAlive z
  else if (name =? "AvailReaderBytesCap")%string then readInto (ReadInt64Bytes bts) upd_AvailReaderBytesCap z
  else if (name =? "AvailReaderMsgCap")%string then readInto (ReadInt64Bytes bts) upd_AvailReaderMsgCap z
  else if (name =? "FromRttEstNsec")%string then readInto (ReadInt64Bytes bts) upd_FromRttEstNsec z
  else if (name =? "FromRttSdNsec")%string then readInto (ReadInt64Bytes bts) upd_FromRttSdNsec z
  else if (name =? "FromRttN")%string then readInto (ReadInt64Bytes bts) upd_FromRttN z
  else if (name =? "CumulBytesTransmitted")%string then readInto (ReadInt64Bytes bts) upd_CumulBytesTransmitted z
  else if (name =? "Data")%string then readInto (ReadBytesBytes bts (Data z)) upd_Data z
  else
    match Skip bts with
    | Got _ bts => Got z bts
    | Failed err => Failed err
    end.

(** The loop [for isz > 0 { isz--; ... }] of [UnmarshalMsg]. *)
Fixpoint unmarshalFields (isz : nat) (z : Packet) (bts : list byte)
    : MsgpResult Packet :=
  match isz with
  | O => Got z bts
  | S isz' =>
    match ReadMapKeyZC bts with
    | Failed err => Failed err
    | Got field bts =>
      match unmarshalField field z bts with
      | Failed err => Failed err
      | Got z bts => unmarshalFields isz' z bts
      end
    end
  end.

(** [UnmarshalMsg] implements msgp.Unmarshaler: the packet read into [z] and
    the bytes left over, or the error. *)
Definition UnmarshalMsg (z : Packet) (bts : list byte) : MsgpResult Packet :=
  match ReadMapHeaderBytes bts with
  | Failed err => Failed err
  | Got isz bts => unmarshalFields (Z.to_nat isz) z bts
  end.

End Codec.

(** What the codec of [Packet] needs of the msgp library: the [Append...]
    functions append to their first argument, and each [Read...Bytes]
    function reads back what its [Append...] wrote, leaving the rest; the
    map header and the field names of swp_gen.go are written as literal
    bytes (map16, fixstr), which [ReadMapHeaderBytes] and [ReadMapKeyZC]
    read. *)
Definition wfTime (t : Time) : Prop :=
  Int64.in_range (unixSec t) /\ 0 <= nanos t < 1000000000.

Class MsgpLawful `{MsgpLib} : Prop := {
  Require_bytes : forall b sz, Require b sz = b;
  AppendString_app : forall b s, AppendString b s = b ++ AppendString [] s;
  AppendTime_app : forall b t, AppendTime b t = b ++ AppendTime [] t;
  AppendInt64_app : forall b i, AppendInt64 b i = b ++ AppendInt64 [] i;
  AppendBool_app : forall b v, AppendBool b v = b ++ AppendBool [] v;
  AppendBytes_app : forall b d, AppendBytes b d = b ++ AppendBytes [] d;
  ReadMapHeaderBytes_map16 : forall hi lo o,
    ReadMapHeaderBytes (xde :: hi :: lo :: o) = Got (256 * byteZ hi + byteZ lo) o;
  ReadMapKeyZC_fixstr : forall (name : list byte) o,
    (length name <= 31)%nat ->
    ReadMapKeyZC (Zbyte (160 + Z.of_nat (length name)) :: name ++ o) = Got name o;
  ReadStringBytes_AppendString : forall s o,
    Z.of_nat (String.length s) < 2 ^ 32 ->
    ReadStringBytes (AppendString [] s ++ o) = Got s o;
  ReadTimeBytes_AppendTime : forall t o,
    wfTime t -> ReadTimeBytes (AppendTime [] t ++ o) = Got t o;
  ReadInt64Bytes_AppendInt64 : forall i o,
    Int64.in_range i -> ReadInt64Bytes (AppendInt64 [] i ++ o) = Got i o;
  ReadBoolBytes_AppendBool : forall v o,
    ReadBoolBytes (AppendBool [] v ++ o) = Got v o;
  ReadBytesBytes_AppendBytes : forall d scratch o,
    Z.of_nat (length d) < 2 ^ 32 ->
    ReadBytesBytes (AppendBytes [] d ++ o) scratch = Got d o
}.

(** A packet as Go can hold it: the integers are [int64]s, the times have
    their nanoseconds within the second, the lengths fit the 32-bit size
    prefixes of the format. *)
Record wfPacket (p : Packet) : Prop := mkWfPacket {
  wf_From : Z.of_nat (String.length (From p)) < 2 ^ 32;
  wf_Dest : Z.of_nat (String.length (Dest p)) < 2 ^ 32;
  wf_ArrivedAtDestTm : wfTime (ArrivedAtDestTm p);
  wf_DataSendTm : wfTime (DataSendTm p);
  wf_SeqNum : Int64.in_range (SeqNum p);
  wf_SeqRetry : Int64.in_range (SeqRetry p);
  wf_AckNum : Int64.in_range (AckNum p);
  wf_AckRetry : Int64.in_range (AckRetry p);
  wf_AckReplyTm : wfTime (AckReplyTm p);
  wf_AvailReaderBytesCap : Int64.in_range (AvailReaderBytesCap p);
  wf_AvailReaderMsgCap : Int64.in_range (AvailReaderMsgCap p);
  wf_FromRttEstNsec : Int64.in_range (FromRttEstNsec p);
  wf_FromRttSdNsec : Int64.in_range (FromRttSdNsec p);
  wf_FromRttN : Int64.in_range (FromRttN p);
  wf_CumulBytesTransmitted : Int64.in_range (CumulBytesTransmitted p);
  wf_Data : Z.of_nat (length (Data p)) < 2 ^ 32
}.

(** The names of the 18 fields, in the order of the encoding. *)
Definition fieldNames : list string :=
  [ "From"; "Dest"; "ArrivedAtDestTm"; "DataSendTm"; "SeqNum"; "SeqRetry";
    "AckNum"; "AckRetry"; "AckReplyTm"; "AckOnly"; "KeepAlive";
    "AvailReaderBytesCap"; "AvailReaderMsgCap"; "FromRttEstNsec";
    "FromRttSdNsec"; "FromRttN"; "CumulBytesTransmitted"; "Data" ]%string.

(** A field name as [MarshalMsg] writes it: a fixstr. *)
Definition encodeName (name : string) : list byte :=
  Zbyte (160 + Z.of_nat (String.length name)) :: bytesOf name.

(** ** A model of the msgp library, after the MessagePack format *)

Module Msgpack.

(** The [n] low bytes of [z], most significant first. *)
Fixpoint bigEndian (n : nat) (z : Z) : list byte :=
  match n with
  | O => []
  | S k => Zbyte (Z.shiftr z (8 * Z.of_nat k)) :: bigEndian k z
  end.

Definition fromBigEndian (bs : list byte) : Z :=
  fold_left (fun acc b => acc * 256 + byteZ b) bs 0.

(** An unsigned number of [n] bytes read as two's complement. *)
Definition signed (n : nat) (u : Z) : Z :=
  if u <? 2 ^ (8 * Z.of_nat n - 1) then u else u - 2 ^ (8 * Z.of_nat n).

Definition lengthZ (b : list byte) : Z := Z.of_nat (length b).

(** [b[i:j]] and [b[i:]] *)
Definition slice (i j : nat) (b : list byte) : list byte := firstn (j - i) (skipn i b).

Definition appendString (b : list byte) (s : string) : list byte :=
  let sz := Z.of_nat (String.length s) in
  if sz <=? 31 then b ++ Zbyte (Z.lor 160 sz) :: bytesOf s
  else if sz <=? 255 then b ++ xd9 :: Zbyte sz :: bytesOf s
  else if sz <=? 65535 then b ++ xda :: bigEndian 2 sz ++ bytesOf s
  else b ++ xdb :: bigEndian 4 sz ++ bytesOf s.

Definition appendBytes (b : list byte) (bts : list byte) : list byte :=
  let sz := lengthZ bts in
  if sz <=? 255 then b ++ xc4 :: Zbyte sz :: bts
  else if sz <=? 65535 then b ++ xc5 :: bigEndian 2 sz ++ bts
  else b ++ xc6 :: bigEndian 4 sz ++ bts.

Definition appendInt64 (b : list byte) (i : Z) : list byte :=
  if 0 <=? i then
    if i <=? 127 then b ++ [Zbyte i]
    else if i <=? 32767 then b ++ xd1 :: bigEndian 2 i
    else if i <=? 2147483647 then b ++ xd2 :: bigEndian 4 i
    else b ++ xd3 :: bigEndian 8 i
  else
    if -32 <=? i then b ++ [Zbyte i]
    else if -128 <=? i then b ++ [xd0; Zbyte i]
    else if -32768 <=? i then b ++ xd1 :: bigEndian 2 i
    else if -2147483648 <=? i then b ++ xd2 :: bigEndian 4 i
    else b ++ xd3 :: bigEndian 8 i.

Definition appendBool (b : list byte) (v : bool) : list byte :=
  b ++ [if v then xc3 else xc2].

(** The time as extension 5: Unix seconds and nanoseconds. *)
Definition appendTime (b : list byte) (t : Time) : list byte :=
  b ++ [xc7; x0c; x05] ++ bigEndian 8 (unixSec t) ++ bigEndian 4 (nanos t).

(** [time.Unix(sec, nsec)] *)
Definition timeUnix (sec nsec : Z) : Time :=
  mkTime (Int64.wrap (sec + nsec / 1000000000)) (nsec mod 1000000000).

(** The header of a string or of a byte array was read: [read] bytes
    follow. *)
Definition readBody (read : Z) (b : list byte) : MsgpResult (list byte) :=
  if lengthZ b <? read then Failed ErrShortBytes
  else Got (firstn (Z.to_nat read) b) (skipn (Z.to_nat read) b).

Definition readStringZC (b : list byte) : MsgpResult (list byte) :=
  match b with
  | [] => Failed ErrShortBytes
  | lead :: _ =>
    if Z.land (byteZ lead) 224 =? 160 then
      readBody (Z.land (byteZ lead) 31) (skipn 1 b)
    else if byteZ lead =? 217 then
      if lengthZ b <? 2 then Failed ErrShortBytes
      else readBody (fromBigEndian (slice 1 2 b)) (skipn 2 b)
    else if byteZ lead =? 218 then
      if lengthZ b <? 3 then Failed ErrShortBytes
      else readBody (fromBigEndian (slice 1 3 b)) (skipn 3 b)
    else if byteZ lead =? 219 then
      if lengthZ b <? 5 then Failed ErrShortBytes
      else readBody (fromBigEndian (slice 1 5 b)) (skipn 5 b)
    else Failed (TypeError lead)
  end.

Definition readBytesZC (b : list byte) : MsgpResult (list byte) :=
  match b with
  | [] => Failed ErrShortBytes
  | lead :: _ =>
    if byteZ lead =? 196 then
      if lengthZ b <? 2 then Failed ErrShortBytes
      else readBody (fromBigEndian (slice 1 2 b)) (skipn 2 b)
    else if byteZ lead =? 197 then
      if lengthZ b <? 3 then Failed ErrShortBytes
      else readBody (fromBigEndian (slice 1 3 b)) (skipn 3 b)
    else if byteZ lead =? 198 then
      if lengthZ b <? 5 then Failed ErrShortBytes
      else readBody (fromBigEndian (slice 1 5 b)) (skipn 5 b)
    else Failed (TypeError lead)
  end.

Definition readStringBytes (b : list byte) : MsgpResult string :=
  match readStringZC b with
  | Got v o => Got (string_of_list_byte v) o
  | Failed err => Failed err
  end.

(** A map key is a string or a byte array. *)
Definition readMapKeyZC (b : list byte) : MsgpResult (list byte) :=
  match readStringZC b with
  | Got v o => Got v o
  | Failed (TypeError lead) =>
    if (196 <=? byteZ lead) && (byteZ lead <=? 198) then readBytesZC b
    else Failed (TypeError lead)
  | Failed err => Failed err
  end.

Definition readMapHeaderBytes (b : list byte) : MsgpResult Z :=
  match b with
  | [] => Failed ErrShortBytes
  | lead :: _ =>
    if Z.land (byteZ lead) 240 =? 128 then Got (Z.land (byteZ lead) 15) (skipn 1 b)
    else if byteZ lead =? 222 then
      if lengthZ b <? 3 then Failed ErrShortBytes
      else Got (fromBigEndian (slice 1 3 b)) (skipn 3 b)
    else if byteZ lead =? 223 then
      if lengthZ b <? 5 then Failed ErrShortBytes
      else Got (fromBigEndian (slice 1 5 b)) (skipn 5 b)
    else Failed (TypeError lead)
  end.

Definition readInt64Bytes (b : list byte) : MsgpResult Z :=
  match b with
  | [] => Failed ErrShortBytes
  | lead :: _ =>
    if byteZ lead <? 128 then Got (byteZ lead) (skipn 1 b)
    else if Z.land (byteZ lead) 224 =? 224 then Got (byteZ lead - 256) (skipn 1 b)
    else if byteZ lead =? 208 then
      if lengthZ b <? 2 then Failed ErrShortBytes
      else Got (signed 1 (fromBigEndian (slice 1 2 b))) (skipn 2 b)
    else if byteZ lead =? 209 then
      if lengthZ b <? 3 then Failed ErrShortBytes
      else Got (signed 2 (fromBigEndian (slice 1 3 b))) (skipn 3 b)
    else if byteZ lead =? 210 then
      if lengthZ b <? 5 then Failed ErrShortBytes
      else Got (signed 4 (fromBigEndian (slice 1 5 b))) (skipn 5 b)
    else if byteZ lead =? 211 then
      if lengthZ b <? 9 then Failed ErrShortBytes
      else Got (signed 8 (fromBigEndian (slice 1 9 b))) (skipn 9 b)
    else Failed (TypeError lead)
  end.

Definition readBoolBytes (b : list byte) : MsgpResult bool :=
  match b with
  | [] => Failed ErrShortBytes
  | lead :: o =>
    if byteZ lead =? 195 then Got true o
    else if byteZ lead =? 194 then Got false o
    else Failed (TypeError lead)
  end.

Definition readBytesBytes (b scratch : list byte) : MsgpResult (list byte) :=
  readBytesZC b.

Definition readTimeBytes (b : list byte) : MsgpResult Time :=
  if lengthZ b <? 15 then Failed ErrShortBytes
  else
    match b with
    | b0 :: b1 :: b2 :: _ =>
      if negb (byteZ b0 =? 199) || negb (byteZ b1 =? 12) then Failed (TypeError b0)
      else if negb (byteZ b2 =? 5) then Failed (ExtensionTypeError b2)
      else
        Got (timeUnix (signed 8 (fromBigEndian (slice 3 11 b)))
                      (signed 4 (fromBigEndian (slice 11 15 b))))
            (skipn 15 b)
    | _ => Failed ErrShortBytes
    end.

(** [getSize]: the size of the object that starts [b], without the objects
    nested in it, and the number of those. *)
Definition getSize (b : list byte) : MsgpResult (Z * Z) :=
  match b with
  | [] => Failed ErrShortBytes
  | lead :: _ =>
    let l := byteZ lead in
    let fixed (size extra : Z) : MsgpResult (Z * Z) := Got (size, extra) b in
    let sized (size : Z) (n : nat) (children : Z) : MsgpResult (Z * Z) :=
      if lengthZ b <? size then Failed ErrShortBytes
      else
        let v := fromBigEndian (slice 1 (S n) b) in
        if children =? 0 then Got (size + v, 0) b else Got (size, children * v) b in
    if l <? 128 then fixed 1 0                                (* positive fixint *)
    else if l <? 144 then fixed 1 (2 * Z.land l 15)           (* fixmap *)
    else if l <? 160 then fixed 1 (Z.land l 15)               (* fixarray *)
    else if l <? 192 then fixed (1 + Z.land l 31) 0           (* fixstr *)
    else if l =? 192 then fixed 1 0                           (* nil *)
    else if l =? 193 then Failed (InvalidPrefixError lead)
    else if l <? 196 then fixed 1 0                           (* false, true *)
    else if l =? 196 then sized 2 1%nat 0                     (* bin8 *)
    else if l =? 197 then sized 3 2%nat 0                     (* bin16 *)
    else if l =? 198 then sized 5 4%nat 0                     (* bin32 *)
    else if l =? 199 then sized 3 1%nat 0                     (* ext8 *)
    else if l =? 200 then sized 4 2%nat 0                     (* ext16 *)
    else if l =? 201 then sized 6 4%nat 0                     (* ext32 *)
    else if l =? 202 then fixed 5 0                           (* float32 *)
    else if l =? 203 then fixed 9 0                           (* float64 *)
    else if l =? 204 then fixed 2 0                           (* uint8 *)
    else if l =? 205 then fixed 3 0                           (* uint16 *)
    else if l =? 206 then fixed 5 0                           (* uint32 *)
    else if l =? 207 then fixed 9 0                           (* uint64 *)
    else if l =? 208 then fixed 2 0                           (* int8 *)
    else if l =? 209 then fixed 3 0                           (* int16 *)
    else if l =? 210 then fixed 5 0                           (* int32 *)
    else if l =? 211 then fixed 9 0                           (* int64 *)
    else if l =? 212 then fixed 3 0                           (* fixext1 *)
    else if l =? 213 then fixed 4 0                           (* fixext2 *)
    else if l =? 214 then fixed 6 0                           (* fixext4 *)
    else if l =? 215 then fixed 10 0                          (* fixext8 *)
    else if l =? 216 then fixed 18 0                          (* fixext16 *)
    else if l =? 217 then sized 2 1%nat 0                     (* str8 *)
    else if l =? 218 then sized 3 2%nat 0                     (* str16 *)
    else if l =? 219 then sized 5 4%nat 0                     (* str32 *)
    else if l =? 220 then sized 3 2%nat 1                     (* array16 *)
    else if l =? 221 then sized 5 4%nat 1                     (* array32 *)
    else if l =? 222 then sized 3 2%nat 2                     (* map16 *)
    else if l =? 223 then sized 5 4%nat 2                     (* map32 *)
    else fixed 1 0                                            (* negative fixint *)
  end.

(** [n] times [skipOne], each on what the one before left. *)
Fixpoint skipEach (skipOne : list byte -> MsgpResult unit) (n : nat)
    (b : list byte) : MsgpResult unit :=
  match n with
  | O => Got tt b
  | S n' =>
    match skipOne b with
    | Got _ b' => skipEach skipOne n' b'
    | Failed err => Failed err
    end
  end.

(** [Skip] skips the object that starts [b], the objects nested in it
    included; [depth] bounds the nesting. *)
Fixpoint skipDepth (depth : nat) (b : list byte) : MsgpResult unit :=
  match depth with
  | O => Failed ErrMaxDepth
  | S depth' =>
    match getSize b with
    | Failed err => Failed err
    | Got (sz, asz) _ =>
      if lengthZ b <? sz then Failed ErrShortBytes
      else skipEach (skipDepth depth') (Z.to_nat asz) (skipn (Z.to_nat sz) b)
    end
  end.

(** An object cannot nest deeper than it has bytes. *)
Definition skip (b : list byte) : MsgpResult unit := skipDepth (S (length b)) b.

End Msgpack.

#[export] Instance msgpack : MsgpLib := {|
  Require := fun b _ => b;
  AppendString := Msgpack.appendString;
  AppendTime := Msgpack.appendTime;
  AppendInt64 := Msgpack.appendInt64;
  AppendBool := Msgpack.appendBool;
  AppendBytes := Msgpack.appendBytes;
  ReadMapHeaderBytes := Msgpack.readMapHeaderBytes;
  ReadMapKeyZC := Msgpack.readMapKeyZC;
  ReadStringBytes := Msgpack.readStringBytes;
  ReadTimeBytes := Msgpack.readTimeBytes;
  ReadInt64Bytes := Msgpack.readInt64Bytes;
  ReadBoolBytes := Msgpack.readBoolBytes;
  ReadBytesBytes := Msgpack.readBytesBytes;
  Skip := Msgpack.skip
|}.

(** The 18 entries of the map that [MarshalMsg] writes: each is the name of
    a field followed by its value. *)
Definition fieldChunks `{MsgpLib} (p : Packet) : list (list byte) :=
  [ encodeName "From" ++ AppendString [] (From p);
    encodeName "Dest" ++ AppendString [] (Dest p);
    encodeName "ArrivedAtDestTm" ++ AppendTime [] (ArrivedAtDestTm p);
    encodeName "DataSendTm" ++ AppendTime [] (DataSendTm p);
    encodeName "SeqNum" ++ AppendInt64 [] (SeqNum p);
    encodeName "SeqRetry" ++ AppendInt64 [] (SeqRetry p);
    encodeName "AckNum" ++ AppendInt64 [] (AckNum p);
    encodeName "AckRetry" ++ AppendInt64 [] (AckRetry p);
    encodeName "AckReplyTm" ++ AppendTime [] (AckReplyTm p);
    encodeName "AckOnly" ++ AppendBool [] (AckOnly p);
    encodeName "KeepAlive" ++ AppendBool [] (KeepAlive p);
    encodeName "AvailReaderBytesCap" ++ AppendInt64 [] (AvailReaderBytesCap p);
    encodeName "AvailReaderMsgCap" ++ AppendInt64 [] (AvailReaderMsgCap p);
    encodeName "FromRttEstNsec" ++ AppendInt64 [] (FromRttEstNsec p);
    encodeName "FromRttSdNsec" ++ AppendInt64 [] (FromRttSdNsec p);
    encodeName "FromRttN" ++ AppendInt64 [] (FromRttN p);
    encodeName "CumulBytesTransmitted" ++ AppendInt64 [] (CumulBytesTransmitted p);
    encodeName "Data" ++ AppendBytes [] (Data p) ].

(** The assignments that reading these entries makes, in the same order. *)
Definition fieldAssigns (p : Packet) : list (Packet -> Packet) :=
  [ upd_From (From p);
    upd_Dest (Dest p);
    upd_ArrivedAtDestTm (ArrivedAtDestTm p);
    upd_DataSendTm (DataSendTm p);
    upd_SeqNum (SeqNum p);
    upd_SeqRetry (SeqRetry p);
    upd_AckNum (AckNum p);
    upd_AckRetry (AckRetry p);
    upd_AckReplyTm (AckReplyTm p);
    upd_AckOnly (AckOnly p);
    upd_KeepAlive (KeepAlive p);
    upd_AvailReaderBytesCap (AvailReaderBytesCap p);
    upd_AvailReaderMsgCap (AvailReaderMsgCap p);
    upd_FromRttEstNsec (FromRttEstNsec p);
    upd_FromRttSdNsec (FromRttSdNsec p);
    upd_FromRttN (FromRttN p);
    upd_CumulBytesTransmitted (CumulBytesTransmitted p);
    upd_Data (Data p) ].

(** One turn of the loop of [UnmarshalMsg] on the entry [c] makes the
    assignment [f]. *)
Definition decodesAs `{MsgpLib} (c : list byte) (f : Packet -> Packet) : Prop :=
  forall (n : nat) (z : Packet) (o : list byte),
    unmarshalFields (S n) z (c ++ o) = unmarshalFields n (f z) o.

(** ** Predicates on receiver states *)

(** What a received slot holds: a packet of the current window, in the slot
    its sequence number names. *)
Definition slotHolds (nfe hi rws : Z) (k : nat) (s : RxqSlot) : Prop :=
  Received s = true ->
  exists p, Pack s = Some p /\ nfe <= SeqNum p < hi /\
            Z.rem (SeqNum p) rws = Z.of_nat k.

(** The invariant of the receiver's window and history. *)
Record RecvInv (r : RecvState) : Prop := mkRecvInv {
  inv_window : 0 <= RecvWindowSize r <= Int64.max_int;
  inv_rxq_len : Z.of_nat (length (Rxq r)) = RecvWindowSize r;
  inv_nfe : NextFrameExpected r = Z.of_nat (length (RecvHistory r));
  inv_history : forall (i : nat) pp, RecvHistory r !! i = Some pp ->
                  exists p, pp = Some p /\ SeqNum p = Z.of_nat i;
  inv_slots : forall (k : nat) s, Rxq r !! k = Some s ->
                slotHolds (NextFrameExpected r)
                  (NextFrameExpected r + RecvWindowSize r) (RecvWindowSize r) k s;
  inv_delivered : concat (Seq <$> ReadMessagesCh r) ++ ReadyForDelivery r
                  = RecvHistory r
}.

(** The two assertions on [CumulBytesTransmitted] hold for [pack] in [r]. *)
Definition assertionsHold (pack : Packet) (r : RecvState) : Prop :=
  (LargestSeqnoRcvd r < SeqNum pack ->
     MaxCumulBytesTrans r <= CumulBytesTransmitted pack) /\
  (SeqNum pack <= LargestSeqnoRcvd r ->
     CumulBytesTransmitted pack <= MaxCumulBytesTrans r).

(** Number of slots marked received. *)
Definition countReceived (q : list RxqSlot) : nat :=
  length (filter (fun s => Received s = true) q).

(** The ring index of a sequence number, as a natural number. *)
Definition slotOf (rws : Z) (seqno : Z) : nat :=
  Z.to_nat (Z.rem seqno rws).

(** The invariant of the in-order walk: the received slots hold packets
    with sequence numbers from [NextFrameExpected] up to, not including,
    [hi]. *)
Record WalkInv (hi : Z) (r : RecvState) : Prop := mkWalkInv {
  walk_window : 0 < RecvWindowSize r <= Int64.max_int;
  walk_rxq_len : Z.of_nat (length (Rxq r)) = RecvWindowSize r;
  walk_nfe : 0 <= NextFrameExpected r;
  walk_lo : NextFrameExpected r <= hi;
  walk_hi : hi <= NextFrameExpected r + RecvWindowSize r;
  walk_slots : forall (k : nat) s, Rxq r !! k = Some s ->
                 slotHolds (NextFrameExpected r) hi (RecvWindowSize r) k s
}.

(** [r'] is [r] but for the four fields the in-order walk writes. *)
Definition walkFrame (r r' : RecvState) : Prop :=
  r' = set_NextFrameExpected (NextFrameExpected r')
         (set_Rxq (Rxq r')
            (set_RecvHistory (RecvHistory r')
               (set_ReadyForDelivery (ReadyForDelivery r') r))).

(** The state after one turn of the loop, for a slot holding [pp]. *)
Definition walkTurn (slot : nat) (pp : PacketPtr) (r : RecvState) : RecvState :=
  set_NextFrameExpected (NextFrameExpected r +64 1)
    (set_Rxq (<[slot := mkRxqSlot false None]> (Rxq r))
       (set_RecvHistory (RecvHistory r ++ [pp])
          (set_ReadyForDelivery (ReadyForDelivery r ++ [pp]) r))).

(** What the in-order walk does, from [r] to [r'], delivering [batch]: the
    packets of [batch] are those of the consecutive received slots from
    [NextFrameExpected r] on; they are appended to [ReadyForDelivery] and
    [RecvHistory], their slots are cleared, the other slots are kept, and
    [NextFrameExpected r'] is the first sequence number whose slot is not
    received. *)
Record walkResult (r : RecvState) (batch : list Packet) (r' : RecvState) : Prop :=
  mkWalkResult {
  wr_frame : walkFrame r r';
  wr_nfe : NextFrameExpected r' = NextFrameExpected r + Z.of_nat (length batch);
  wr_ready : ReadyForDelivery r' = ReadyForDelivery r ++ (Some <$> batch);
  wr_history : RecvHistory r' = RecvHistory r ++ (Some <$> batch);
  wr_batch : forall (i : nat) p, batch !! i = Some p ->
      SeqNum p = NextFrameExpected r + Z.of_nat i /\
      Rxq r !! slotOf (RecvWindowSize r) (NextFrameExpected r + Z.of_nat i)
        = Some (mkRxqSlot true (Some p));
  wr_cleared : forall i : nat, (i < length batch)%nat ->
      Rxq r' !! slotOf (RecvWindowSize r) (NextFrameExpected r + Z.of_nat i)
        = Some (mkRxqSlot false None);
  wr_kept : forall k : nat,
      (forall i : nat, (i < length batch)%nat ->
         k <> slotOf (RecvWindowSize r) (NextFrameExpected r + Z.of_nat i)) ->
      Rxq r' !! k = Rxq r !! k;
  wr_stop : exists s,
      Rxq r' !! slotOf (RecvWindowSize r) (NextFrameExpected r') = Some s /\
      Received s = false
}.

(** [r'] has the window, the history and the delivery queues of [r]. *)
Definition sameWindow (r r' : RecvState) : Prop :=
  RecvWindowSize r' = RecvWindowSize r /\
  Rxq r' = Rxq r /\
  NextFrameExpected r' = NextFrameExpected r /\
  RecvHistory r' = RecvHistory r /\
  ReadMessagesCh r' = ReadMessagesCh r /\
  ReadyForDelivery r' = ReadyForDelivery r.

(** "if not old dup, add to hash of to-be-consumed" *)
Definition holdPacket (pack : Packet) (r : RecvState) : RecvState :=
  if SeqNum pack >=? NextFrameExpected r
  then set_RcvdButNotConsumed (<[SeqNum pack := pack]> (RcvdButNotConsumed r)) r
  else r.

(** The packet put into its slot of the ring. *)
Definition storePacket (slot : nat) (pack : Packet) (r : RecvState) : RecvState :=
  set_Rxq (<[slot := mkRxqSlot true (Some pack)]> (Rxq r)) r.

(** The receiver state an outcome leaves behind, if the goroutine did not
    panic. *)
Definition finalState (o : Outcome) : option RecvState :=
  match o with
  | Running r | Exited r => Some r
  | _ => None
  end.


(** The packets of the [MsgRecv] events of a trace, in arrival order. *)
Fixpoint packetsOf (evs : list Event) : list Packet :=
  match evs with
  | [] => []
  | MsgRecv pack _ _ :: evs' => pack :: packetsOf evs'
  | _ :: evs' => packetsOf evs'
  end.

(** [CumulBytesTransmitted] is non-decreasing in [SeqNum] order over the
    packets of a stream. *)
Definition monotoneStream (ps : list Packet) : bool :=
  forallb (fun p =>
    forallb (fun q =>
      implb (SeqNum p <=? SeqNum q)
            (CumulBytesTransmitted p <=? CumulBytesTransmitted q)) ps) ps.

(** The stream agrees with the marks of a fresh receiver,
    [LargestSeqnoRcvd = -1] and [MaxCumulBytesTrans = 0], as if they were
    its first packet. *)
Definition agreesWithFreshMarks (ps : list Packet) : bool :=
  forallb (fun p =>
    if SeqNum p >? -1 then 0 <=? CumulBytesTransmitted p
    else CumulBytesTransmitted p <=? 0) ps.

(** The high-water marks are those of a fresh receiver or of a packet of the
    stream. *)
Definition marksFrom (ps : list Packet) (r : RecvState) : Prop :=
  (LargestSeqnoRcvd r = -1 /\ MaxCumulBytesTrans r = 0) \/
  exists q, In q ps /\ SeqNum q = LargestSeqnoRcvd r /\
            CumulBytesTransmitted q = MaxCumulBytesTrans r.

Definition sameMarks (r r' : RecvState) : Prop :=
  LargestSeqnoRcvd r' = LargestSeqnoRcvd r /\
  MaxCumulBytesTrans r' = MaxCumulBytesTrans r.


(** ** Example packets, states and traces *)

Module Examples.

(** A data packet from A to B. *)
Definition dataPacket (seqno cumul : Z) (payload : list byte) : Packet :=
  mkPacket "A" "B" zeroTime zeroTime seqno 0 (-1) 0 zeroTime false false
    0 0 0 0 0 cumul payload.


Definition sender0 : SenderState := mkSenderState (mkFlow 0 0 0 0) [] [].

(** The receiver of B with a window of four messages and 1000 bytes. *)
Definition fresh4 : RecvState :=
  Eval vm_compute in
  match NewRecvState 4 1000 "B" sender0 with
  | Ok r => r
  | Panic _ => mkRecvState "" 0 [] 0 0 [] 0 0 sender0 0 0 0 0 0 0 ∅ [] [] [] false None
  end.

Definition arrives (pack : Packet) : Event := MsgRecv pack AsapTimedOut GotAckSent.

Definition ab : list byte := [x61; x62].

(** Packet 1 is lost at first and retransmitted after 2 and 3 (3 twice);
    0 is duplicated; the consumer reads twice. *)
Definition lossyTrace : list Event :=
  [ arrives (dataPacket 0 2 ab); arrives (dataPacket 2 6 ab);
    arrives (dataPacket 3 8 ab); arrives (dataPacket 3 8 ab);
    Deliver; arrives (dataPacket 1 4 ab); arrives (dataPacket 0 2 ab);
    HeldQuery; Deliver; arrives (dataPacket 4 10 ab) ].

Definition stateAfter (evs : list Event) (r : RecvState) : RecvState :=
  match finalState (run evs r) with
  | Some r' => r'
  | None => r
  end.

(** After 0 arrived, and 2 and 3 out of order: 1 is awaited. *)
Definition awaiting1 : RecvState :=
  stateAfter [ arrives (dataPacket 0 2 ab); arrives (dataPacket 2 6 ab);
               arrives (dataPacket 3 8 ab) ] fresh4.

(** After 0 and 1 arrived in order: both are ready for the consumer. *)
Definition twoReady : RecvState :=
  stateAfter [ arrives (dataPacket 0 2 ab); arrives (dataPacket 1 4 ab) ] fresh4.

(** A data packet numbered -1. *)
Definition negativePacket : Packet := dataPacket (-1) 0 [].

(** An ack-only packet that carries a running total of five bytes. *)
Definition ackWithTotal : Packet :=
  mkPacket "A" "B" zeroTime zeroTime (-99) 0 (-1) 0 zeroTime true false
    0 0 0 0 0 5 [].

(** A packet with every kind of field value: short and long integers of
    both signs, times before and after the epoch, payload bytes. *)
Definition wirePacket : Packet :=
  mkPacket "A" "Bob" (mkTime 1477000000 5) (mkTime (-3) 999999999)
    300 (-1) (-99) (-40000) zeroTime true false
    70000 (2 ^ 40) (- 2 ^ 40) (2 ^ 63 - 1) (- 2 ^ 63) 128 [x61; x00; xff].

End Examples.
(** ** More predicates on receiver states *)

(** The receiver state but for the ASAP client: no helper, [AsapOn] off. *)
Definition withoutAsap (r : RecvState) : RecvState :=
  set_asapHelper None (set_AsapOn false r).

Definition mapOutcome (f : RecvState -> RecvState) (o : Outcome) : Outcome :=
  match o with
  | Running r => Running (f r)
  | Exited r => Exited (f r)
  | o => o
  end.

(** The [select] on the helper's [enqueue] never sees ReqStop in [evs]. *)
Fixpoint noAsapStop (evs : list Event) : bool :=
  match evs with
  | [] => true
  | MsgRecv _ AsapReqStop _ :: _ => false
  | _ :: evs' => noAsapStop evs'
  end.

(** The events of a session that never registers an ASAP client. *)
Fixpoint withoutAsapEvents (evs : list Event) : list Event :=
  match evs with
  | [] => []
  | SetAsapHelper _ :: evs' => withoutAsapEvents evs'
  | MsgRecv pack _ gsel :: evs' => MsgRecv pack AsapTimedOut gsel :: withoutAsapEvents evs'
  | ev :: evs' => ev :: withoutAsapEvents evs'
  end.

(** An ack as [ack] builds it for the receiver of [inbox]. *)
Definition isAckOf (inbox : string) (a : Packet) : Prop :=
  AckOnly a = true /\ SeqNum a = -99 /\ From a = inbox /\
  KeepAlive a = false /\ Data a = [].

(** Later acks never carry a smaller [AckNum]. *)
Definition cumulative (acks : list Packet) : Prop :=
  forall (i j : nat) a b, (i <= j)%nat ->
    acks !! i = Some a -> acks !! j = Some b -> AckNum a <= AckNum b.

(** The acks the receiver has sent since [SendAck] held [base]. *)
Definition ackLog (base : list Packet) (r : RecvState) (acks : list Packet) : Prop :=
  SendAck (snd r) = base ++ acks /\
  Forall (isAckOf (Inbox r)) acks /\
  cumulative acks /\
  Forall (fun a => -1 <= AckNum a < NextFrameExpected r) acks.

(** What [RcvdButNotConsumed] and the consumer's marks hold: the packets
    ready for the consumer and those waiting in the ring are in the map under
    their sequence numbers, every key is above [LastMsgConsumed] and is the
    sequence number of its packet, and [LastMsgConsumed] is the last
    sequence number before those ready for delivery. *)
Record HeldInv (r : RecvState) : Prop := mkHeldInv {
  held_last : LastMsgConsumed r
              = NextFrameExpected r - Z.of_nat (length (ReadyForDelivery r)) - 1;
  held_keys : forall k p, RcvdButNotConsumed r !! k = Some p ->
                SeqNum p = k /\ LastMsgConsumed r < k;
  held_ready : forall (i : nat) pp, ReadyForDelivery r !! i = Some pp ->
                 exists p, pp = Some p /\ RcvdButNotConsumed r !! SeqNum p = Some p;
  held_slots : forall (k : nat) s, Rxq r !! k = Some s -> Received s = true ->
                 exists p, Pack s = Some p /\
                           RcvdButNotConsumed r !! SeqNum p = Some p /\
                           SeqNum p <= LargestSeqnoRcvd r;
  held_largest : NextFrameExpected r - 1 <= LargestSeqnoRcvd r
}.

(** [r'] has the window, the map of held packets and the consumer's mark of
    [r]; its largest sequence number is not smaller. *)
Definition sameHeld (r r' : RecvState) : Prop :=
  sameWindow r r' /\
  RcvdButNotConsumed r' = RcvdButNotConsumed r /\
  LastMsgConsumed r' = LastMsgConsumed r /\
  LargestSeqnoRcvd r <= LargestSeqnoRcvd r'.

(** ** More on the simulated network *)

(** The number of [Send] calls of simnet.go for packets from [a]. *)
Fixpoint sentFrom (a : string) (ops : list SimOp) : nat :=
  match ops with
  | [] => O
  | OpSend pack _ _ :: ops' =>
    if bool_decide (From pack = a) then S (sentFrom a ops') else sentFrom a ops'
  | _ :: ops' => sentFrom a ops'
  end.

(** The loss test of [Send]: [sim.LossProb > 0 && isLost]. *)
Definition isLost (random : Z) (sim : SimNet) : bool :=
  PrimFloat.ltb 0 (LossProb sim) && PrimFloat.leb (cryptoProb random) (LossProb sim).

(** The deliveries a call starts, and those of a sequence of calls, in the
    order they were started. *)
Definition stepStarted (op : SimOp) (sim : SimNet) : list Delivery :=
  match op with
  | OpSend pack why random => (Send pack why random sim).2
  | OpSendEarlier pack random => (SendEarlier pack random sim).2
  | _ => []
  end.

Fixpoint simTrace (ops : list SimOp) (sim : SimNet) : list Delivery :=
  match ops with
  | [] => []
  | op :: ops' => stepStarted op sim ++ simTrace ops' (simStep op sim)
  end.

(** The packets passed to [Send]. *)
Fixpoint sentPackets (ops : list SimOp) : list Packet :=
  match ops with
  | [] => []
  | OpSend pack _ _ :: ops' | OpSendEarlier pack _ :: ops' => pack :: sentPackets ops'
  | _ :: ops' => sentPackets ops'
  end.

(** Neither [DiscardOnce] nor [SimulateReorderNext] is set by the test. *)
Definition restingDiscardAndReorder (ops : list SimOp) : bool :=
  forallb (fun op => match op with
                     | OpSetDiscardOnce _ | OpSetSimulateReorderNext _ => false
                     | _ => true
                     end) ops.


(** [cryptoProb] from the number drawn, reduced modulo [resolution + 1], on:
    [float64(r) / float64(resolution)]. *)
Definition probOf (r : Z) : float :=
  PrimFloat.div (float64_of_int r) (float64_of_int resolution).

(** All the numbers from [lo] up to [lo + 2^k - 1] pass [f]. *)
Fixpoint allFrom (k : nat) (f : Z -> bool) (lo : Z) : bool :=
  match k with
  | O => f lo
  | S k' => allFrom k' f lo && allFrom k' f (lo + 2 ^ Z.of_nat k')
  end.

(** The loop of [HistoryEqual], from index [i] on: [a] and [b] are what is
    left of the two histories. *)
Fixpoint historyLoop (a b : list PacketPtr) : Result bool :=
  match a, b with
  | [], _ => Ok true
  | _ :: _, [] => Panic IndexOutOfRange
  | None :: _, _ :: _ => Panic NilDereference
  | Some _ :: _, None :: _ => Panic NilDereference
  | Some pa :: a', Some pb :: b' =>
    if SeqNum pa =? SeqNum pb then historyLoop a' b' else Ok false
  end.

(** [HistoryEqual] lets one easily compare and send and a recv history. *)
Definition HistoryEqual (a b : list PacketPtr) : Result bool :=
  if Nat.eqb (length a) (length b) then historyLoop a b else Ok false.

(** The test never changes [LossProb]. *)
Definition keepsLossProb (ops : list SimOp) : bool :=
  forallb (fun op => match op with OpSetLossProb _ => false | _ => true end) ops.

(** ** More example traces *)

Module MoreExamples.

Definition helper0 : AsapHelper := mkAsapHelper [] false.

(** An ASAP client registers, takes packet 1, misses packet 0, and leaves;
    the consumer reads in between. *)
Definition asapTrace : list Event :=
  [ SetAsapHelper (Some helper0);
    MsgRecv (Examples.dataPacket 1 4 Examples.ab) AsapEnqueued GotAckSent;
    MsgRecv (Examples.dataPacket 0 2 Examples.ab) AsapTimedOut GotAckSent;
    Deliver;
    SetAsapHelper None;
    MsgRecv (Examples.dataPacket 2 6 Examples.ab) AsapEnqueued GotAckSent ].

End MoreExamples.

(** ** The codec of [Packet] over streams (swp_gen.go) *)

(** The methods of [msgp.Writer] and [msgp.Reader] that swp_gen.go calls.
    The library is not part of the repository: [written] is what a writer
    has been given so far, [remaining] what a reader has not consumed yet;
    a method returns the new state of the stream with its result or its
    error. *)
Class MsgpStream := {
  Writer : Type;
  Reader : Type;
  StreamError : Type;
  written : Writer -> list byte;
  remaining : Reader -> list byte;
  enAppend : Writer -> list byte -> Writer * option StreamError;
  enWriteString : Writer -> string -> Writer * option StreamError;
  enWriteTime : Writer -> Time -> Writer * option StreamError;
  enWriteInt64 : Writer -> Z -> Writer * option StreamError;
  enWriteBool : Writer -> bool -> Writer * option StreamError;
  enWriteBytes : Writer -> list byte -> Writer * option StreamError;
  dcReadMapHeader : Reader -> Reader * (Z + StreamError);
  dcReadMapKeyPtr : Reader -> Reader * (list byte + StreamError);
  dcReadString : Reader -> Reader * (string + StreamError);
  dcReadTime : Reader -> Reader * (Time + StreamError);
  dcReadInt64 : Reader -> Reader * (Z + StreamError);
  dcReadBool : Reader -> Reader * (bool + StreamError);
  dcReadBytes : Reader -> list byte -> Reader * (list byte + StreamError);
  dcSkip : Reader -> Reader * option StreamError
}.

(** [err = step; if err != nil { return err }]: the error monad of the
    generated code, over the state of the stream. *)
Notation "'err!' en '<-' step ; rest" :=
  (let '(en, err) := step in
   match err with
   | Some e => (en, Some e)
   | None => rest
   end)
  (at level 20, en name, step at level 100, rest at level 200, only parsing).

Section StreamCodec.

Context `{MsgpStream}.

(** [EncodeMsg] implements msgp.Encodable. *)
Definition EncodeMsg (z : Packet) (en : Writer) : Writer * option StreamError :=
  (* map header, size 18 *)
  (* write "From" *)
  err! en <- enAppend en [xde; x00; x12; xa4; x46; x72; x6f; x6d];
  err! en <- enWriteString en (From z);
  (* write "Dest" *)
  err! en <- enAppend en [xa4; x44; x65; x73; x74];
  err! en <- enWriteString en (Dest z);
  (* write "ArrivedAtDestTm" *)
  err! en <- enAppend en [xaf; x41; x72; x72; x69; x76; x65; x64; x41; x74; x44;
                      x65; x73; x74; x54; x6d];
  err! en <- enWriteTime en (ArrivedAtDestTm z);
  (* write "DataSendTm" *)
  err! en <- enAppend en [xaa; x44; x61; x74; x61; x53; x65; x6e; x64; x54; x6d];
  err! en <- enWriteTime en (DataSendTm z);
  (* write "SeqNum" *)
  err! en <- enAppend en [xa6; x53; x65; x71; x4e; x75; x6d];
  err! en <- enWriteInt64 en (SeqNum z);
  (* write "SeqRetry" *)
  err! en <- enAppend en [xa8; x53; x65; x71; x52; x65; x74; x72; x79];
  err! en <- enWriteInt64 en (SeqRetry z);
  (* write "AckNum" *)
  err! en <- enAppend en [xa6; x41; x63; x6b; x4e; x75; x6d];
  err! en <- enWriteInt64 en (AckNum z);
  (* write "AckRetry" *)
  err! en <- enAppend en [xa8; x41; x63; x6b; x52; x65; x74; x72; x79];
  err! en <- enWriteInt64 en (AckRetry z);
  (* write "AckReplyTm" *)
  err! en <- enAppend en [xaa; x41; x63; x6b; x52; x65; x70; x6c; x79; x54; x6d];
  err! en <- enWriteTime en (AckReplyTm z);
  (* write "AckOnly" *)
  err! en <- enAppend en [xa7; x41; x63; x6b; x4f; x6e; x6c; x79];
  err! en <- enWriteBool en (AckOnly z);
  (* write "KeepAlive" *)
  err! en <- enAppend en [xa9; x4b; x65; x65; x70; x41; x6c; x69; x76; x65];
  err! en <- enWriteBool en (KeepAlive z);
  (* write "AvailReaderBytesCap" *)
  err! en <- enAppend en [xb3; x41; x76; x61; x69; x6c; x52; x65; x61; x64; x65;
                      x72; x42; x79; x74; x65; x73; x43; x61; x70];
  err! en <- enWriteInt64 en (AvailReaderBytesCap z);
  (* write "AvailReaderMsgCap" *)
  err! en <- enAppend en [xb1; x41; x76; x61; x69; x6c; x52; x65; x61; x64; x65;
                      x72; x4d; x73; x67; x43; x61; x70];
  err! en <- enWriteInt64 en (AvailReaderMsgCap z);
  (* write "FromRttEstNsec" *)
  err! en <- enAppend en [xae; x46; x72; x6f; x6d; x52; x74; x74; x45; x73; x74;
                      x4e; x73; x65; x63];
  err! en <- enWriteInt64 en (FromRttEstNsec z);
  (* write "FromRttSdNsec" *)
  err! en <- enAppend en [xad; x46; x72; x6f; x6d; x52; x74; x74; x53; x64; x4e;
                      x73; x65; x63];
  err! en <- enWriteInt64 en (FromRttSdNsec z);
  (* write "FromRttN" *)
  err! en <- enAppend en [xa8; x46; x72; x6f; x6d; x52; x74; x74; x4e];
  err! en <- enWriteInt64 en (FromRttN z);
  (* write "CumulBytesTransmitted" *)
  err! en <- enAppend en [xb5; x43; x75; x6d; x75; x6c; x42; x79; x74; x65; x73;
                      x54; x72; x61; x6e; x73; x6d; x69; x74; x74; x65; x64];
  err! en <- enWriteInt64 en (CumulBytesTransmitted z);
  (* write "Data" *)
  err! en <- enAppend en [xa4; x44; x61; x74; x61];
  err! en <- enWriteBytes en (Data z);
  (en, None).

(** Reading one value from the stream into a field of [z]. *)
Definition readField {A : Type} (read : Reader * (A + StreamError))
    (assign : A -> Packet -> Packet) (z : Packet) : Reader * (Packet + StreamError) :=
  match read with
  | (dc, inl v) => (dc, inl (assign v z))
  | (dc, inr e) => (dc, inr e)
  end.

(** The [switch msgp.UnsafeString(field)] of [DecodeMsg]. *)
Definition decodeField (field : list byte) (z : Packet) (dc : Reader)
    : Reader * (Packet + StreamError) :=
  let name := string_of_list_byte field in
  if (name =? "From")%string then readField (dcReadString dc) upd_From z
  else if (name =? "Dest")%string then readField (dcReadString dc) upd_Dest z
  else if (name =? "ArrivedAtDestTm")%string then readField (dcReadTime dc) upd_ArrivedAtDestTm z
  else if (name =? "DataSendTm")%string then readField (dcReadTime dc) upd_DataSendTm z
  else if (name =? "SeqNum")%string then readField (dcReadInt64 dc) upd_SeqNum z
  else if (name =? "SeqRetry")%string then readField (dcReadInt64 dc) upd_SeqRetry z
  else if (name =? "AckNum")%string then readField (dcReadInt64 dc) upd_AckNum z
  else if (name =? "AckRetry")%string then readField (dcReadInt64 dc) upd_AckRetry z
  else if (name =? "AckReplyTm")%string then readField (dcReadTime dc) upd_AckReplyTm z
  else if (name =? "AckOnly")%string then readField (dcReadBool dc) upd_AckOnly z
  else if (name =? "KeepAlive")%string then readField (dcReadBool dc) upd_KeepAlive z
  else if (name =? "AvailReaderBytesCap")%string then readField (dcReadInt64 dc) upd_AvailReaderBytesCap z
  else if (name =? "AvailReaderMsgCap")%string then readField (dcReadInt64 dc) upd_AvailReaderMsgCap z
  else if (name =? "FromRttEstNsec")%string then readField (dcReadInt64 dc) upd_FromRttEstNsec z
  else if (name =? "FromRttSdNsec")%string then readField (dcReadInt64 dc) upd_FromRttSdNsec z
  else if (name =? "FromRttN")%string then readField (dcReadInt64 dc) upd_FromRttN z
  else if (name =? "CumulBytesTransmitted")%string then readField (dcReadInt64 dc) upd_CumulBytesTransmitted z
  else if (name =? "Data")%string then readField (dcReadBytes dc (Data z)) upd_Data z
  else
    match dcSkip dc with
    | (dc, None) => (dc, inl z)
    | (dc, Some e) => (dc, inr e)
    end.

(** The loop [for isz > 0 { isz--; ... }] of [DecodeMsg]. *)
Fixpoint decodeFields (isz : nat) (z : Packet) (dc : Reader)
    : Reader * (Packet + StreamError) :=
  match isz with
  | O => (dc, inl z)
  | S isz' =>
    match dcReadMapKeyPtr dc with
    | (dc, inr e) => (dc, inr e)
    | (dc, inl field) =>
      match decodeField field z dc with
      | (dc, inr e) => (dc, inr e)
      | (dc, inl z) => decodeFields isz' z dc
      end
    end
  end.

(** [DecodeMsg] implements msgp.Decodable: the packet read into [z], or the
    error. *)
Definition DecodeMsg (z : Packet) (dc : Reader) : Reader * (Packet + StreamError) :=
  match dcReadMapHeader dc with
  | (dc, inr e) => (dc, inr e)
  | (dc, inl isz) => decodeFields (Z.to_nat isz) z dc
  end.

End StreamCodec.

(** What the codec needs of the streams: a write that succeeds has put on
    the stream the bytes the corresponding [Append...] function appends, and
    a read finds on the stream what the corresponding [Read...Bytes]
    function finds in the bytes not yet consumed. *)
Definition writes `{MsgpStream} (step : Writer * option StreamError) (en : Writer)
    (bytes : list byte) : Prop :=
  forall en', step = (en', None) -> written en' = written en ++ bytes.

Definition reads `{MsgpStream} {A : Type} (step : Reader * (A + StreamError))
    (dc : Reader) (expected : MsgpResult A) : Prop :=
  forall v o, expected = Got v o ->
    exists dc', step = (dc', inl v) /\ remaining dc' = o.

Class StreamLawful `{MsgpLib} `{MsgpStream} : Prop := {
  enAppend_writes : forall en bs, writes (enAppend en bs) en bs;
  enWriteString_writes : forall en s, writes (enWriteString en s) en (AppendString [] s);
  enWriteTime_writes : forall en t, writes (enWriteTime en t) en (AppendTime [] t);
  enWriteInt64_writes : forall en i, writes (enWriteInt64 en i) en (AppendInt64 [] i);
  enWriteBool_writes : forall en v, writes (enWriteBool en v) en (AppendBool [] v);
  enWriteBytes_writes : forall en d, writes (enWriteBytes en d) en (AppendBytes [] d);
  dcReadMapHeader_reads : forall dc,
    reads (dcReadMapHeader dc) dc (ReadMapHeaderBytes (remaining dc));
  dcReadMapKeyPtr_reads : forall dc,
    reads (dcReadMapKeyPtr dc) dc (ReadMapKeyZC (remaining dc));
  dcReadString_reads : forall dc,
    reads (dcReadString dc) dc (ReadStringBytes (remaining dc));
  dcReadTime_reads : forall dc,
    reads (dcReadTime dc) dc (ReadTimeBytes (remaining dc));
  dcReadInt64_reads : forall dc,
    reads (dcReadInt64 dc) dc (ReadInt64Bytes (remaining dc));
  dcReadBool_reads : forall dc,
    reads (dcReadBool dc) dc (ReadBoolBytes (remaining dc));
  dcReadBytes_reads : forall dc scratch,
    reads (dcReadBytes dc scratch) dc (ReadBytesBytes (remaining dc) scratch);
  dcSkip_reads : forall dc o,
    Skip (remaining dc) = Got tt o ->
    exists dc', dcSkip dc = (dc', None) /\ remaining dc' = o
}.

(** A stream held in memory: the writer is the buffer written so far and
    never fails, the reader the bytes left. *)
Definition readFrom {A : Type} (b : list byte) (r : MsgpResult A)
    : list byte * (A + MsgpError) :=
  match r with
  | Got v o => (o, inl v)
  | Failed e => (b, inr e)
  end.

#[export] Instance memoryStream : MsgpStream := {|
  Writer := list byte;
  Reader := list byte;
  StreamError := MsgpError;
  written := fun en => en;
  remaining := fun dc => dc;
  enAppend := fun en bs => (en ++ bs, None);
  enWriteString := fun en s => (Msgpack.appendString en s, None);
  enWriteTime := fun en t => (Msgpack.appendTime en t, None);
  enWriteInt64 := fun en i => (Msgpack.appendInt64 en i, None);
  enWriteBool := fun en v => (Msgpack.appendBool en v, None);
  enWriteBytes := fun en d => (Msgpack.appendBytes en d, None);
  dcReadMapHeader := fun dc => readFrom dc (Msgpack.readMapHeaderBytes dc);
  dcReadMapKeyPtr := fun dc => readFrom dc (Msgpack.readMapKeyZC dc);
  dcReadString := fun dc => readFrom dc (Msgpack.readStringBytes dc);
  dcReadTime := fun dc => readFrom dc (Msgpack.readTimeBytes dc);
  dcReadInt64 := fun dc => readFrom dc (Msgpack.readInt64Bytes dc);
  dcReadBool := fun dc => readFrom dc (Msgpack.readBoolBytes dc);
  dcReadBytes := fun dc scratch => readFrom dc (Msgpack.readBytesBytes dc scratch);
  dcSkip := fun dc =>
    match Msgpack.skip dc with
    | Got _ o => (o, None)
    | Failed e => (dc, Some e)
    end
|}.


(** * Properties *)

(** ** [int64] arithmetic *)

Arguments Int64.wrap : simpl never.
Arguments Int64.add : simpl never.
Arguments Int64.sub : simpl never.

Lemma wrap_in_range (z : Z) : Int64.in_range (Int64.wrap z).
Proof.
  unfold Int64.in_range, Int64.wrap, Int64.min_int, Int64.max_int.
  pose proof (Z.mod_pos_bound (z + 2 ^ 63) (2 ^ 64) ltac:(lia)). lia.
Qed.

Lemma wrap_small (z : Z) : Int64.in_range z -> Int64.wrap z = z.
Proof.
  unfold Int64.in_range, Int64.wrap, Int64.min_int, Int64.max_int. intros H.
  rewrite Z.mod_small by lia. lia.
Qed.

Lemma wrap_wrap_add_l (a b : Z) : Int64.wrap (Int64.wrap a + b) = Int64.wrap (a + b).
Proof.
  unfold Int64.wrap. f_equal.
  replace ((a + 2 ^ 63) mod 2 ^ 64 - 2 ^ 63 + b + 2 ^ 63)
    with ((a + 2 ^ 63) mod 2 ^ 64 + b) by lia.
  rewrite Zplus_mod_idemp_l. f_equal. lia.
Qed.

Lemma wrap_wrap_sub_l (a b : Z) : Int64.wrap (Int64.wrap a - b) = Int64.wrap (a - b).
Proof.
  replace (Int64.wrap a - b) with (Int64.wrap a + - b) by lia.
  rewrite wrap_wrap_add_l. reflexivity.
Qed.

Lemma add64_small (a b : Z) : Int64.in_range (a + b) -> a +64 b = a + b.
Proof. apply wrap_small. Qed.

Lemma sub64_small (a b : Z) : Int64.in_range (a - b) -> a -64 b = a - b.
Proof. apply wrap_small. Qed.

(** [a + b - 1] in [int64] arithmetic is the wrapped exact value. *)
Lemma window_top (a b : Z) : a +64 b -64 1 = Int64.wrap (a + b - 1).
Proof. unfold Int64.add, Int64.sub. apply wrap_wrap_sub_l. Qed.

Lemma InWindow_spec (seqno lo hi : Z) :
  InWindow seqno lo hi = true <-> lo <= seqno <= hi.
Proof.
  unfold InWindow.
  destruct (Z.ltb_spec seqno lo), (Z.gtb_spec seqno hi); split; intros; lia || discriminate.
Qed.

(** Inside the window there is no wrap-around: the top of the window is
    the exact [lo + w - 1]. *)
Lemma InWindow_exact (seqno lo w : Z) :
  0 <= lo <= Int64.max_int -> 0 <= w <= Int64.max_int ->
  InWindow seqno lo (lo +64 w -64 1) = true ->
  lo <= seqno < lo + w /\ lo + w - 1 <= Int64.max_int.
Proof.
  intros Hlo Hw H. apply InWindow_spec in H. rewrite window_top in H.
  unfold Int64.max_int in *.
  destruct (Z_le_gt_dec (lo + w - 1) (2 ^ 63 - 1)) as [Hle|Hgt].
  - rewrite wrap_small in H by (unfold Int64.in_range, Int64.min_int, Int64.max_int; lia).
    lia.
  - exfalso. unfold Int64.wrap in H.
    replace (lo + w - 1 + 2 ^ 63) with ((lo + w - 1 - 2 ^ 63) + 1 * 2 ^ 64) in H by lia.
    rewrite Z_mod_plus_full, Z.mod_small in H by lia. lia.
Qed.

(** ** The ring and the in-order walk *)

Lemma rem_window_inj (w a b : Z) :
  0 < w -> 0 <= a -> a <= b < a + w -> Z.rem b w = Z.rem a w -> b = a.
Proof.
  intros Hw Ha Hb H.
  rewrite !Z.rem_mod_nonneg in H by lia.
  assert (Hd : (b - a) mod w = 0).
  { rewrite Zminus_mod, H, Z.sub_diag. apply Z.mod_0_l. lia. }
  rewrite Z.mod_small in Hd by lia. lia.
Qed.

Lemma ringSlot_ok (r : RecvState) (seqno : Z) :
  0 < RecvWindowSize r -> Z.of_nat (length (Rxq r)) = RecvWindowSize r ->
  0 <= seqno ->
  ringSlot r seqno = Ok (slotOf (RecvWindowSize r) seqno) /\
  (slotOf (RecvWindowSize r) seqno < length (Rxq r))%nat.
Proof.
  intros Hw Hlen Hs. unfold ringSlot, slotOf.
  pose proof (Z.rem_bound_pos seqno (RecvWindowSize r) Hs Hw) as Hb.
  destruct (Z.eqb_spec (RecvWindowSize r) 0); [lia|].
  destruct (Z.ltb_spec (Z.rem seqno (RecvWindowSize r)) 0); [lia|].
  destruct (Z.leb_spec (Z.of_nat (length (Rxq r))) (Z.rem seqno (RecvWindowSize r))); [lia|].
  split; [reflexivity | lia].
Qed.

Lemma ringSlot_Ok_inv (r : RecvState) (seqno : Z) (slot : nat) :
  ringSlot r seqno = Ok slot ->
  slot = slotOf (RecvWindowSize r) seqno /\ (slot < length (Rxq r))%nat /\
  RecvWindowSize r <> 0 /\ 0 <= Z.rem seqno (RecvWindowSize r).
Proof.
  unfold ringSlot, slotOf.
  destruct (Z.eqb_spec (RecvWindowSize r) 0); [discriminate|].
  destruct (Z.ltb_spec (Z.rem seqno (RecvWindowSize r)) 0); [discriminate|].
  destruct (Z.leb_spec (Z.of_nat (length (Rxq r))) (Z.rem seqno (RecvWindowSize r)));
    [discriminate|].
  simpl. intros [= <-]. repeat split; try lia. 
Qed.

Lemma deliverInOrder_unfold (fuel slot : nat) (r : RecvState) :
  deliverInOrder fuel slot r =
  match Rxq r !! slot with
  | None => Panicked IndexOutOfRange
  | Some s =>
    if Received s then
      match fuel with
      | O => OutOfFuel
      | S fuel' =>
        match ringSlot (walkTurn slot (Pack s) r)
                (NextFrameExpected (walkTurn slot (Pack s) r)) with
        | Panic c => Panicked c
        | Ok slot' => deliverInOrder fuel' slot' (walkTurn slot (Pack s) r)
        end
      end
    else Running r
  end.
Proof. destruct fuel; reflexivity. Qed.

(** The walk only ever appends to the history. *)
Lemma deliverInOrder_history_grows (fuel slot : nat) (r r' : RecvState) :
  deliverInOrder fuel slot r = Running r' ->
  (length (RecvHistory r) <= length (RecvHistory r'))%nat.
Proof.
  revert slot r. induction fuel as [|fuel IH]; intros slot r;
    rewrite deliverInOrder_unfold;
    destruct (Rxq r !! slot) as [s|]; try discriminate;
    destruct (Received s); try discriminate; try (intros [= <-]; lia).
  destruct (ringSlot _ _) as [slot'|]; [|discriminate].
  intros H. apply IH in H. simpl in H. rewrite length_app in H. simpl in H. lia.
Qed.

(** The loop never runs out of turns: each one clears a received slot. *)
Lemma countReceived_clear (q : list RxqSlot) (k : nat) (s : RxqSlot) :
  q !! k = Some s -> Received s = true ->
  countReceived q = S (countReceived (<[k := mkRxqSlot false None]> q)).
Proof.
  unfold countReceived. revert k. induction q as [|x q IH]; intros k Hk Hs; [discriminate|].
  destruct k as [|k]; simpl in *.
  - injection Hk as ->. rewrite filter_cons_True by assumption.
    rewrite filter_cons_False by (simpl; discriminate). reflexivity.
  - rewrite !filter_cons. destruct (decide (Received x = true)); simpl;
      rewrite (IH k Hk Hs); reflexivity.
Qed.

Lemma deliverInOrder_fuel (fuel slot : nat) (r : RecvState) :
  (countReceived (Rxq r) < fuel)%nat -> deliverInOrder fuel slot r <> OutOfFuel.
Proof.
  revert slot r. induction fuel as [|fuel IH]; intros slot r Hc; [lia|].
  rewrite deliverInOrder_unfold.
  destruct (Rxq r !! slot) as [s|] eqn:Hs; [|discriminate].
  destruct (Received s) eqn:Hr; [|discriminate].
  destruct (ringSlot _ _) as [slot'|]; [|discriminate].
  apply IH. simpl. rewrite (countReceived_clear _ _ _ Hs Hr) in Hc. lia.
Qed.

Lemma countReceived_le (q : list RxqSlot) : (countReceived q <= length q)%nat.
Proof. unfold countReceived. apply length_filter. Qed.

(** One turn of the walk: the slot of [NextFrameExpected], when received,
    holds exactly the packet numbered [NextFrameExpected]. *)
Lemma walk_slot_packet (hi : Z) (r : RecvState) (s : RxqSlot) :
  WalkInv hi r ->
  Rxq r !! slotOf (RecvWindowSize r) (NextFrameExpected r) = Some s ->
  Received s = true ->
  exists p, Pack s = Some p /\ SeqNum p = NextFrameExpected r /\
            NextFrameExpected r < hi.
Proof.
  intros W Hs Hr. destruct (walk_slots _ _ W _ _ Hs Hr) as (p & Hp & Hrange & Hrem).
  exists p. split; [assumption|].
  pose proof (walk_window _ _ W). pose proof (walk_nfe _ _ W). pose proof (walk_hi _ _ W).
  assert (SeqNum p = NextFrameExpected r); [|lia].
  apply (rem_window_inj (RecvWindowSize r)); try lia.
  rewrite Hrem. unfold slotOf. rewrite Z2Nat.id; [reflexivity|].
  apply Z.rem_nonneg; lia.
Qed.

Lemma walkTurn_inv (hi : Z) (r : RecvState) (s : RxqSlot) :
  WalkInv hi r ->
  Rxq r !! slotOf (RecvWindowSize r) (NextFrameExpected r) = Some s ->
  Received s = true ->
  NextFrameExpected r + 1 <= Int64.max_int ->
  let r' := walkTurn (slotOf (RecvWindowSize r) (NextFrameExpected r)) (Pack s) r in
  NextFrameExpected r' = NextFrameExpected r + 1 /\ WalkInv hi r'.
Proof.
  intros W Hs Hr Hmax r'.
  destruct (walk_slot_packet _ _ _ W Hs Hr) as (p & Hp & Hseq & Hlt).
  pose proof (walk_window _ _ W) as Hw. pose proof (walk_nfe _ _ W) as Hn.
  pose proof (walk_hi _ _ W) as Hhi.
  assert (Hnfe : NextFrameExpected r' = NextFrameExpected r + 1).
  { subst r'. simpl. apply add64_small.
    unfold Int64.in_range, Int64.min_int, Int64.max_int in *. lia. }
  split; [assumption|].
  constructor; rewrite ?Hnfe; subst r'; simpl.
  - exact Hw.
  - rewrite length_insert. apply (walk_rxq_len _ _ W).
  - lia.
  - lia.
  - lia.
  - intros k s' Hk Hr'.
    destruct (decide (k = slotOf (RecvWindowSize r) (NextFrameExpected r))) as [->|Hne].
    + rewrite list_lookup_insert_eq in Hk by (eapply lookup_lt_Some; eassumption).
      injection Hk as <-. discriminate.
    + rewrite list_lookup_insert_ne in Hk by congruence.
      destruct (walk_slots _ _ W _ _ Hk Hr') as (q & Hq & Hrange & Hrem).
      exists q. repeat split; try assumption; try lia.
      assert (SeqNum q <> NextFrameExpected r); [|lia].
      intros Heq. apply Hne. unfold slotOf. rewrite <- Heq, Hrem. lia.
Qed.

Lemma walkFrame_refl (r : RecvState) : walkFrame r r.
Proof. unfold walkFrame. destruct r; reflexivity. Qed.

Lemma walkFrame_turn (slot : nat) (pp : PacketPtr) (r r' : RecvState) :
  walkFrame (walkTurn slot pp r) r' -> walkFrame r r'.
Proof. unfold walkFrame, walkTurn. intros H. rewrite H at 1. reflexivity. Qed.

Lemma slotOf_succ_ne (w n0 : Z) (j : nat) :
  0 < w -> 0 <= n0 -> 1 + Z.of_nat j < w ->
  slotOf w (n0 + 1 + Z.of_nat j) <> slotOf w n0.
Proof.
  intros Hw Hn Hj Heq. unfold slotOf in Heq.
  apply Z2Nat.inj in Heq; try (apply Z.rem_nonneg; lia).
  apply rem_window_inj in Heq; lia.
Qed.

Lemma walkResult_nil (r : RecvState) (s : RxqSlot) :
  Rxq r !! slotOf (RecvWindowSize r) (NextFrameExpected r) = Some s ->
  Received s = false -> walkResult r [] r.
Proof.
  intros Hs Hr. constructor; simpl; rewrite ?app_nil_r, ?Z.add_0_r; try reflexivity.
  - apply walkFrame_refl.
  - intros i p H. discriminate.
  - intros i H. lia.
  - exists s. auto.
Qed.

Lemma deliverInOrder_spec (fuel : nat) (hi : Z) (r r' : RecvState) :
  WalkInv hi r ->
  deliverInOrder fuel (slotOf (RecvWindowSize r) (NextFrameExpected r)) r = Running r' ->
  NextFrameExpected r
    + (Z.of_nat (length (RecvHistory r')) - Z.of_nat (length (RecvHistory r)))
    <= Int64.max_int ->
  exists batch, walkResult r batch r' /\ WalkInv hi r' /\ NextFrameExpected r' <= hi.
Proof.
  revert r. induction fuel as [|fuel IH]; intros r W; rewrite deliverInOrder_unfold;
    pose proof (walk_window _ _ W) as Hw; pose proof (walk_nfe _ _ W) as Hn;
    pose proof (walk_hi _ _ W) as Hhi;
    destruct (ringSlot_ok r (NextFrameExpected r) ltac:(lia) (walk_rxq_len _ _ W) Hn)
      as [_ Hlt];
    destruct (lookup_lt_is_Some_2 _ _ Hlt) as [s Hs]; rewrite Hs;
    destruct (Received s) eqn:Hr; try discriminate;
    try (intros [= <-] _; exists []; split; [eapply walkResult_nil; eassumption|];
         split; [assumption | apply (walk_lo _ _ W)]).
  (* a turn *)
  set (slot := slotOf (RecvWindowSize r) (NextFrameExpected r)) in *.
  set (r1 := walkTurn slot (Pack s) r).
  destruct (ringSlot r1 (NextFrameExpected r1)) as [slot'|] eqn:Hslot'; [|discriminate].
  intros Hrun Hbound.
  pose proof (deliverInOrder_history_grows _ _ _ _ Hrun) as Hgrow.
  assert (Hlen1 : length (RecvHistory r1) = S (length (RecvHistory r))).
  { subst r1. simpl. rewrite length_app. simpl. lia. }
  destruct (walk_slot_packet _ _ _ W Hs Hr) as (p & Hp & Hseq & Hplt).
  destruct (walkTurn_inv _ _ _ W Hs Hr ltac:(lia)) as [Hnfe1 W1].
  fold slot in Hnfe1, W1. fold r1 in Hnfe1, W1.
  apply ringSlot_Ok_inv in Hslot' as (-> & _).
  destruct (IH r1 W1 Hrun ltac:(lia)) as (batch & R & W' & Hle).
  exists (p :: batch). split; [|split; assumption].
  assert (Hrws : RecvWindowSize r1 = RecvWindowSize r) by reflexivity.
  destruct R as [Rf Rn Rr Rh Rb Rc Rk Rs]. rewrite Hrws, Hnfe1 in *.
  assert (Hcnt : Z.of_nat (length batch) + 1 <= RecvWindowSize r) by lia.
  constructor.
  - eapply walkFrame_turn, Rf.
  - rewrite Rn. simpl length. lia.
  - rewrite Rr. subst r1. simpl. rewrite Hp, <- app_assoc. reflexivity.
  - rewrite Rh. subst r1. simpl. rewrite Hp, <- app_assoc. reflexivity.
  - intros [|i] q Hq; simpl in Hq.
    + injection Hq as <-. rewrite Z.add_0_r. split; [assumption|].
      fold slot. rewrite Hs. destruct s; simpl in *; congruence.
    + destruct (Rb i q Hq) as [Hq1 Hq2].
      replace (NextFrameExpected r + Z.of_nat (S i))
        with (NextFrameExpected r + 1 + Z.of_nat i) by lia.
      split; [assumption|].
      subst r1. simpl in Hq2.
      destruct (decide (slotOf (RecvWindowSize r) (NextFrameExpected r + 1 + Z.of_nat i)
                        = slot)) as [Heq|Hne].
      * rewrite Heq, list_lookup_insert_eq in Hq2 by assumption. discriminate.
      * rewrite list_lookup_insert_ne in Hq2 by congruence. assumption.
  - intros [|i] Hi; simpl in Hi.
    + rewrite Z.add_0_r. fold slot. rewrite Rk.
      * subst r1. simpl. apply list_lookup_insert_eq. assumption.
      * intros j Hj. apply not_eq_sym, slotOf_succ_ne; lia.
    + replace (NextFrameExpected r + Z.of_nat (S i))
        with (NextFrameExpected r + 1 + Z.of_nat i) by lia.
      apply Rc. lia.
  - intros k Hk. rewrite Rk.
    + subst r1. simpl. apply list_lookup_insert_ne.
      specialize (Hk 0%nat ltac:(simpl; lia)). rewrite Z.add_0_r in Hk.
      intros Heq. apply Hk. symmetry. exact Heq.
    + intros i Hi. specialize (Hk (S i) ltac:(simpl; lia)).
      replace (NextFrameExpected r + Z.of_nat (S i))
        with (NextFrameExpected r + 1 + Z.of_nat i) in Hk by lia.
      assumption.
  - destruct Rs as (s' & Hs' & Hr'). exists s'. split; assumption.
Qed.

(** ** The receiver's invariant *)

Lemma sameWindow_refl (r : RecvState) : sameWindow r r.
Proof. repeat split. Qed.

Lemma sameWindow_trans (r1 r2 r3 : RecvState) :
  sameWindow r1 r2 -> sameWindow r2 r3 -> sameWindow r1 r3.
Proof.
  unfold sameWindow. intros (?&?&?&?&?&?) (?&?&?&?&?&?).
  repeat split; congruence.
Qed.

Lemma RecvInv_frame (r r' : RecvState) : sameWindow r r' -> RecvInv r -> RecvInv r'.
Proof.
  intros (Hw & Hq & Hn & Hh & Hm & Hd) [].
  constructor; rewrite ?Hw, ?Hq, ?Hn, ?Hh, ?Hm, ?Hd; assumption.
Qed.

Lemma UpdateFlowControl_sameWindow (r : RecvState) : sameWindow r (UpdateFlowControl r).
Proof. repeat split. Qed.

Lemma ack_sameWindow (seqno : Z) (dest : string) (r : RecvState) :
  sameWindow r (ack seqno dest r).
Proof. repeat split. Qed.

Lemma updateMarks_sameWindow (pack : Packet) (r r' : RecvState) :
  updateMarks pack r = Ok r' -> sameWindow r r'.
Proof.
  unfold updateMarks.
  destruct (SeqNum pack >? LargestSeqnoRcvd r); simpl;
    repeat match goal with
           | |- context [if ?c then _ else _] => destruct c; simpl
           end; try discriminate; intros [= <-]; repeat split.
Qed.

Lemma offerAsap_sameWindow (pack : Packet) (sel : AsapSel) (r r' : RecvState) :
  offerAsap pack sel r = Some r' -> sameWindow r r'.
Proof.
  unfold offerAsap. destruct (AsapOn r), (asapHelper r), sel; try discriminate;
    intros [= <-]; repeat split.
Qed.

Lemma cleanupOnExit_sameWindow (r : RecvState) : sameWindow r (cleanupOnExit r).
Proof. unfold cleanupOnExit. destruct (asapHelper r); repeat split. Qed.

Lemma consumeDelivered_sameWindow (seq : list PacketPtr) (r r' : RecvState) :
  consumeDelivered seq r = Ok r' -> sameWindow r r'.
Proof.
  revert r. induction seq as [|[p|] seq IH]; intros r; simpl; try discriminate.
  - intros [= <-]. apply sameWindow_refl.
  - intros H. apply IH in H. eapply sameWindow_trans; [|exact H]. repeat split.
Qed.

Lemma slotHolds_weaken (nfe hi hi' rws : Z) (k : nat) (s : RxqSlot) :
  hi <= hi' -> slotHolds nfe hi rws k s -> slotHolds nfe hi' rws k s.
Proof.
  intros Hle H Hr. destruct (H Hr) as (p & Hp & Hrange & Hrem).
  exists p. repeat split; try assumption; lia.
Qed.

Lemma RecvInv_WalkInv (r : RecvState) :
  RecvInv r -> 0 < RecvWindowSize r ->
  WalkInv (NextFrameExpected r + RecvWindowSize r) r.
Proof.
  intros [] Hw. constructor; try assumption; lia.
Qed.

Lemma holdPacket_sameWindow (pack : Packet) (r : RecvState) :
  sameWindow r (holdPacket pack r).
Proof. unfold holdPacket. destruct (_ >=? _); repeat split. Qed.

Lemma recvData_unfold (pack : Packet) (r : RecvState) :
  recvData pack r =
  let r1 := holdPacket pack r in
  match ringSlot r1 (SeqNum pack) with
  | Panic c => Panicked c
  | Ok slot =>
    if negb (InWindow (SeqNum pack) (NextFrameExpected r1)
               (NextFrameExpected r1 +64 RecvWindowSize r1 -64 1)) then
      Running (ack (NextFrameExpected r1 -64 1) (From pack)
                 (set_DiscardCount (DiscardCount r1 +64 1) r1))
    else if SeqNum pack =? NextFrameExpected r1 then
      match deliverInOrder (S (length (Rxq (storePacket slot pack r1)))) slot
              (storePacket slot pack r1) with
      | Running r' => Running (ack (NextFrameExpected r' -64 1) (From pack) r')
      | o => o
      end
    else Running (storePacket slot pack r1)
  end.
Proof. reflexivity. Qed.

Lemma holdPacket_ringSlot (pack : Packet) (r : RecvState) (seqno : Z) :
  ringSlot (holdPacket pack r) seqno = ringSlot r seqno.
Proof. unfold holdPacket. destruct (_ >=? _); reflexivity. Qed.

(** Storing an in-window packet keeps the walk invariant. *)
Lemma storePacket_WalkInv (pack : Packet) (slot : nat) (r : RecvState) :
  RecvInv r -> NextFrameExpected r <= Int64.max_int ->
  ringSlot r (SeqNum pack) = Ok slot ->
  InWindow (SeqNum pack) (NextFrameExpected r)
    (NextFrameExpected r +64 RecvWindowSize r -64 1) = true ->
  WalkInv (NextFrameExpected r + RecvWindowSize r)
    (storePacket slot pack (holdPacket pack r)).
Proof.
  intros I Hmax Hslot Hin.
  pose proof (inv_window _ I) as Hw. pose proof (inv_nfe _ I) as Hn.
  apply InWindow_exact in Hin as [Hrange Htop]; [|lia|lia].
  apply ringSlot_Ok_inv in Hslot as (-> & Hlt & Hnz & Hrem).
  destruct (holdPacket_sameWindow pack r) as (Ew & Eq & En & _).
  constructor; unfold storePacket; simpl; rewrite ?Ew, ?Eq, ?En.
  - lia.
  - rewrite length_insert. apply (inv_rxq_len _ I).
  - lia.
  - lia.
  - lia.
  - intros k s Hk.
    destruct (decide (k = slotOf (RecvWindowSize r) (SeqNum pack))) as [->|Hne].
    + rewrite list_lookup_insert_eq in Hk by assumption. injection Hk as <-.
      intros _. exists pack. simpl. repeat split; try lia.
      unfold slotOf. lia.
    + rewrite list_lookup_insert_ne in Hk by congruence.
      apply (inv_slots _ I _ _ Hk).
Qed.

Lemma WalkInv_RecvInv (hi : Z) (r : RecvState) :
  WalkInv hi r ->
  NextFrameExpected r = Z.of_nat (length (RecvHistory r)) ->
  (forall (i : nat) pp, RecvHistory r !! i = Some pp ->
     exists p, pp = Some p /\ SeqNum p = Z.of_nat i) ->
  concat (Seq <$> ReadMessagesCh r) ++ ReadyForDelivery r = RecvHistory r ->
  RecvInv r.
Proof.
  intros [] Hn Hh Hd. constructor; try assumption; try lia.
  intros k s Hk. eapply slotHolds_weaken; [|eauto]. lia.
Qed.

Lemma deliverInOrder_spec_at (fuel slot : nat) (hi : Z) (r r' : RecvState) :
  WalkInv hi r ->
  slot = slotOf (RecvWindowSize r) (NextFrameExpected r) ->
  deliverInOrder fuel slot r = Running r' ->
  NextFrameExpected r
    + (Z.of_nat (length (RecvHistory r')) - Z.of_nat (length (RecvHistory r)))
    <= Int64.max_int ->
  exists batch, walkResult r batch r' /\ WalkInv hi r' /\ NextFrameExpected r' <= hi.
Proof. intros W ->. apply deliverInOrder_spec, W. Qed.

Lemma walkFrame_channels (r r' : RecvState) :
  walkFrame r r' ->
  ReadMessagesCh r' = ReadMessagesCh r /\ RecvWindowSize r' = RecvWindowSize r /\
  snd r' = snd r /\ RcvdButNotConsumed r' = RcvdButNotConsumed r /\
  Inbox r' = Inbox r /\ DiscardCount r' = DiscardCount r.
Proof. unfold walkFrame. intros ->. repeat split. Qed.

(** After a walk from a state whose history is in order, it still is. *)
Lemma walkResult_history (r r' : RecvState) (batch : list Packet) :
  walkResult r batch r' ->
  NextFrameExpected r = Z.of_nat (length (RecvHistory r)) ->
  (forall (i : nat) pp, RecvHistory r !! i = Some pp ->
     exists p, pp = Some p /\ SeqNum p = Z.of_nat i) ->
  concat (Seq <$> ReadMessagesCh r) ++ ReadyForDelivery r = RecvHistory r ->
  NextFrameExpected r' = Z.of_nat (length (RecvHistory r')) /\
  (forall (i : nat) pp, RecvHistory r' !! i = Some pp ->
     exists p, pp = Some p /\ SeqNum p = Z.of_nat i) /\
  concat (Seq <$> ReadMessagesCh r') ++ ReadyForDelivery r' = RecvHistory r'.
Proof.
  intros R Hn Hh Hd. destruct (walkFrame_channels _ _ (wr_frame _ _ _ R)) as (Em & _).
  rewrite Em, (wr_nfe _ _ _ R), (wr_history _ _ _ R), (wr_ready _ _ _ R).
  split; [|split].
  - rewrite length_app, length_fmap. lia.
  - intros i pp Hi. apply lookup_app_Some in Hi as [Hi|[Hge Hi]]; [eauto|].
    rewrite list_lookup_fmap in Hi.
    apply fmap_Some in Hi as (p & Hp & ->). exists p. split; [reflexivity|].
    destruct (wr_batch _ _ _ R _ _ Hp) as [-> _]. lia.
  - rewrite app_assoc, Hd. reflexivity.
Qed.

Lemma recvData_inv (pack : Packet) (r r' : RecvState) :
  RecvInv r -> recvData pack r = Running r' ->
  Z.of_nat (length (RecvHistory r')) <= Int64.max_int ->
  RecvInv r'.
Proof.
  intros I. rewrite recvData_unfold. cbv zeta. rewrite holdPacket_ringSlot.
  destruct (holdPacket_sameWindow pack r) as (Ew & Eq & En & Eh & Em & Ed).
  rewrite En, Ew.
  destruct (ringSlot r (SeqNum pack)) as [slot|] eqn:Hslot; [|discriminate].
  destruct (InWindow _ _ _) eqn:Hin; simpl negb; cbv iota.
  2:{ intros [= <-] _. eapply RecvInv_frame; [|exact I].
      eapply sameWindow_trans; [|apply ack_sameWindow].
      eapply sameWindow_trans; [apply holdPacket_sameWindow|]. repeat split. }
  pose proof (inv_nfe _ I) as Hn.
  set (r1 := storePacket slot pack (holdPacket pack r)).
  assert (E1 : RecvWindowSize r1 = RecvWindowSize r /\
               NextFrameExpected r1 = NextFrameExpected r /\
               RecvHistory r1 = RecvHistory r /\
               ReadMessagesCh r1 = ReadMessagesCh r /\
               ReadyForDelivery r1 = ReadyForDelivery r).
  { subst r1. unfold storePacket. simpl. auto. }
  destruct E1 as (Ew1 & En1 & Eh1 & Em1 & Ed1).
  assert (Hfinal : forall hi, WalkInv hi r1 -> RecvInv r1).
  { intros hi W. apply (WalkInv_RecvInv hi); try assumption.
    - rewrite En1, Eh1. assumption.
    - rewrite Eh1. apply (inv_history _ I).
    - rewrite Em1, Ed1, Eh1. apply (inv_delivered _ I). }
  destruct (Z.eqb_spec (SeqNum pack) (NextFrameExpected r)) as [Heq|Hne].
  - destruct (deliverInOrder _ _ _) as [r2| | | |] eqn:Hwalk; try discriminate.
    intros [= <-] Hlen.
    eapply RecvInv_frame; [apply ack_sameWindow|].
    change (RecvHistory (ack (NextFrameExpected r2 -64 1) (From pack) r2))
      with (RecvHistory r2) in Hlen.
    pose proof (deliverInOrder_history_grows _ _ _ _ Hwalk) as Hgrow.
    rewrite Eh1 in Hgrow.
    assert (W : WalkInv (NextFrameExpected r + RecvWindowSize r) r1).
    { apply storePacket_WalkInv; try assumption. lia. }
    apply ringSlot_Ok_inv in Hslot as (Hslot & _).
    eapply deliverInOrder_spec_at in Hwalk as (batch & R & W' & Hle);
      [| exact W | rewrite Ew1, En1, <- Heq; exact Hslot | rewrite En1, Eh1; lia].
    pose proof (Hfinal _ W) as I1.
    destruct (walkResult_history _ _ _ R (inv_nfe _ I1) (inv_history _ I1)
                (inv_delivered _ I1)) as (Hn2 & Hh2 & Hd2).
    apply (WalkInv_RecvInv _ _ W' Hn2 Hh2 Hd2).
  - intros [= <-] Hlen. apply (Hfinal (NextFrameExpected r + RecvWindowSize r)).
    apply storePacket_WalkInv; try assumption.
    change (RecvHistory r1) with (RecvHistory (holdPacket pack r)) in Hlen.
    rewrite Eh in Hlen. lia.
Qed.

Lemma deliverInOrder_not_Exited (fuel slot : nat) (r r' : RecvState) :
  deliverInOrder fuel slot r <> Exited r'.
Proof.
  revert slot r. induction fuel as [|fuel IH]; intros slot r;
    rewrite deliverInOrder_unfold;
    destruct (Rxq r !! slot) as [s|]; try discriminate;
    destruct (Received s); try discriminate.
  destruct (ringSlot _ _); [apply IH | discriminate].
Qed.

Lemma recvData_not_Exited (pack : Packet) (r r' : RecvState) :
  recvData pack r <> Exited r'.
Proof.
  rewrite recvData_unfold. cbv zeta.
  destruct (ringSlot _ _) as [slot|]; [|discriminate].
  destruct (negb _); [discriminate|].
  destruct (_ =? _); [|discriminate].
  destruct (deliverInOrder _ _ _) as [r2|r2| | |] eqn:Hwalk; try discriminate.
  exfalso. eapply deliverInOrder_not_Exited, Hwalk.
Qed.

Lemma recvData_history_grows (pack : Packet) (r r' : RecvState) :
  finalState (recvData pack r) = Some r' ->
  (length (RecvHistory r) <= length (RecvHistory r'))%nat.
Proof.
  destruct (recvData pack r) as [r2|r2| | |] eqn:H; try discriminate.
  2:{ exfalso. eapply recvData_not_Exited, H. }
  intros [= <-]. revert H. rewrite recvData_unfold. cbv zeta.
  destruct (holdPacket_sameWindow pack r) as (_ & _ & _ & Eh & _).
  destruct (ringSlot _ _) as [slot|]; [|discriminate].
  destruct (negb _).
  { intros [= <-]. simpl. rewrite Eh. lia. }
  destruct (_ =? _).
  - destruct (deliverInOrder _ _ _) as [r3| | | |] eqn:Hwalk; try discriminate.
    intros [= <-]. apply deliverInOrder_history_grows in Hwalk.
    simpl in *. rewrite Eh in Hwalk. exact Hwalk.
  - intros [= <-]. simpl. rewrite Eh. lia.
Qed.

(** What [recvPacket] does before the packet is looked at as data or
    keep-alive: the ASAP offer, the marks, the flow control update and the
    hand-over to the sender. *)
Lemma recvPacket_unfold (pack : Packet) (asel : AsapSel) (gsel : GotAckSel)
    (r : RecvState) :
  recvPacket pack asel gsel r =
  match offerAsap pack asel r with
  | None => Exited (cleanupOnExit r)
  | Some r1 =>
    match updateMarks pack r1 with
    | Panic c => Panicked c
    | Ok r2 =>
      match gsel with
      | GotAckReqStop => Exited (cleanupOnExit (UpdateFlowControl r2))
      | GotAckSent =>
        let r3 := tellSender pack (UpdateFlowControl r2) in
        if negb (AckOnly pack) then
          if KeepAlive pack then
            Running (ack (NextFrameExpected r3 -64 1) (From pack) r3)
          else recvData pack r3
        else Running r3
      end
    end
  end.
Proof. reflexivity. Qed.

Lemma tellSender_sameWindow (pack : Packet) (r : RecvState) :
  sameWindow r (tellSender pack r).
Proof. repeat split. Qed.

Lemma recvPacket_inv (pack : Packet) (asel : AsapSel) (gsel : GotAckSel)
    (r r' : RecvState) :
  RecvInv r -> finalState (recvPacket pack asel gsel r) = Some r' ->
  Z.of_nat (length (RecvHistory r')) <= Int64.max_int ->
  RecvInv r'.
Proof.
  intros I. rewrite recvPacket_unfold.
  destruct (offerAsap pack asel r) as [r1|] eqn:H1.
  2:{ intros [= <-] _. eapply RecvInv_frame; [apply cleanupOnExit_sameWindow|exact I]. }
  apply offerAsap_sameWindow in H1.
  destruct (updateMarks pack r1) as [r2|] eqn:H2; [|discriminate].
  apply updateMarks_sameWindow in H2.
  assert (I2 : RecvInv (UpdateFlowControl r2)).
  { eapply RecvInv_frame; [apply UpdateFlowControl_sameWindow|].
    eapply RecvInv_frame; [exact H2|]. eapply RecvInv_frame; [exact H1|exact I]. }
  destruct gsel.
  2:{ intros [= <-] _. eapply RecvInv_frame; [apply cleanupOnExit_sameWindow|exact I2]. }
  cbv zeta.
  assert (I3 : RecvInv (tellSender pack (UpdateFlowControl r2))).
  { eapply RecvInv_frame; [apply tellSender_sameWindow|exact I2]. }
  destruct (negb (AckOnly pack)); [|intros [= <-] _; exact I3].
  destruct (KeepAlive pack).
  { intros [= <-] _. eapply RecvInv_frame; [apply ack_sameWindow|exact I3]. }
  destruct (recvData pack _) as [r4|r4| | |] eqn:H4; try discriminate.
  - intros [= <-]. eapply recvData_inv; eassumption.
  - exfalso. eapply recvData_not_Exited; eassumption.
Qed.

Lemma recvPacket_history_grows (pack : Packet) (asel : AsapSel) (gsel : GotAckSel)
    (r r' : RecvState) :
  finalState (recvPacket pack asel gsel r) = Some r' ->
  (length (RecvHistory r) <= length (RecvHistory r'))%nat.
Proof.
  rewrite recvPacket_unfold.
  destruct (offerAsap pack asel r) as [r1|] eqn:H1.
  2:{ intros [= <-]. destruct (cleanupOnExit_sameWindow r) as (_&_&_&->&_). lia. }
  apply offerAsap_sameWindow in H1 as (_&_&_&E1&_).
  destruct (updateMarks pack r1) as [r2|] eqn:H2; [|discriminate].
  apply updateMarks_sameWindow in H2 as (_&_&_&E2&_).
  destruct gsel.
  2:{ intros [= <-]. destruct (cleanupOnExit_sameWindow (UpdateFlowControl r2))
        as (_&_&_&->&_). simpl. rewrite E2, E1. lia. }
  cbv zeta.
  assert (E3 : RecvHistory (tellSender pack (UpdateFlowControl r2)) = RecvHistory r)
    by (simpl; congruence).
  destruct (negb (AckOnly pack)); [|intros [= <-]; rewrite E3; lia].
  destruct (KeepAlive pack).
  { intros [= <-]. rewrite <- E3. simpl. lia. }
  intros H. apply recvData_history_grows in H. rewrite E3 in H. exact H.
Qed.

Lemma deliver_inv (r r' : RecvState) :
  RecvInv r -> finalState (deliver r) = Some r' -> RecvInv r'.
Proof.
  intros I. unfold deliver.
  destruct (ReadyForDelivery r) as [|[first|] rest] eqn:Hready; try discriminate.
  destruct (consumeDelivered _ _) as [r1|] eqn:H1; [|discriminate].
  intros [= <-]. apply consumeDelivered_sameWindow in H1.
  destruct H1 as (Ew & Eq & En & Eh & Em & Ed). simpl in *.
  destruct I. constructor; simpl; rewrite ?Ew, ?Eq, ?En, ?Eh, ?Em; try assumption.
  rewrite fmap_app, concat_app. simpl. rewrite !app_nil_r.
  rewrite <- inv_delivered0, Hready. reflexivity.
Qed.

Lemma deliver_history (r r' : RecvState) :
  finalState (deliver r) = Some r' -> RecvHistory r' = RecvHistory r.
Proof.
  unfold deliver.
  destruct (ReadyForDelivery r) as [|[first|] rest]; try discriminate.
  destruct (consumeDelivered _ _) as [r1|] eqn:H1; [|discriminate].
  intros [= <-]. apply consumeDelivered_sameWindow in H1 as (_&_&_&Eh&_).
  simpl. exact Eh.
Qed.

Lemma recvloop_history_grows (ev : Event) (r r' : RecvState) :
  finalState (recvloop ev r) = Some r' ->
  (length (RecvHistory r) <= length (RecvHistory r'))%nat.
Proof.
  destruct ev; simpl.
  - intros [= <-]. destruct helper, (asapHelper r); simpl; lia.
  - intros [= <-]. simpl. lia.
  - intros H. rewrite (deliver_history _ _ H). lia.
  - intros [= <-]. destruct (cleanupOnExit_sameWindow r) as (_&_&_&->&_). lia.
  - apply recvPacket_history_grows.
Qed.

Lemma recvloop_inv (ev : Event) (r r' : RecvState) :
  RecvInv r -> finalState (recvloop ev r) = Some r' ->
  Z.of_nat (length (RecvHistory r')) <= Int64.max_int ->
  RecvInv r'.
Proof.
  intros I. destruct ev; simpl.
  - intros [= <-] _. eapply RecvInv_frame; [|exact I].
    destruct helper, (asapHelper r); repeat split.
  - intros [= <-] _. eapply RecvInv_frame; [|exact I]. repeat split.
  - intros H _. eapply deliver_inv; eassumption.
  - intros [= <-] _. eapply RecvInv_frame; [apply cleanupOnExit_sameWindow|exact I].
  - apply recvPacket_inv, I.
Qed.

Lemma run_cons (ev : Event) (evs : list Event) (r : RecvState) :
  run (ev :: evs) r =
  match recvloop ev r with
  | Running r' => run evs r'
  | o => o
  end.
Proof. reflexivity. Qed.

Lemma run_history_grows (evs : list Event) (r r' : RecvState) :
  finalState (run evs r) = Some r' ->
  (length (RecvHistory r) <= length (RecvHistory r'))%nat.
Proof.
  revert r. induction evs as [|ev evs IH]; intros r.
  - intros [= <-]. lia.
  - rewrite run_cons. destruct (recvloop ev r) as [r1|r1| | |] eqn:H1; try discriminate.
    + intros H. apply IH in H.
      assert (H0 : finalState (recvloop ev r) = Some r1) by (rewrite H1; reflexivity).
      apply recvloop_history_grows in H0. lia.
    + intros [= <-]. apply (recvloop_history_grows ev). rewrite H1. reflexivity.
Qed.

Lemma run_inv (evs : list Event) (r r' : RecvState) :
  RecvInv r -> finalState (run evs r) = Some r' ->
  Z.of_nat (length (RecvHistory r')) <= Int64.max_int ->
  RecvInv r'.
Proof.
  revert r. induction evs as [|ev evs IH]; intros r I.
  - intros [= <-] _. exact I.
  - rewrite run_cons. destruct (recvloop ev r) as [r1|r1| | |] eqn:H1; try discriminate.
    + intros H Hlen. apply (IH r1); try assumption.
      apply (recvloop_inv ev r); [exact I | rewrite H1; reflexivity |].
      apply run_history_grows in H. lia.
    + intros [= <-] Hlen. apply (recvloop_inv ev r); [exact I | rewrite H1; reflexivity | exact Hlen].
Qed.

Lemma NewRecvState_inv (recvSz recvSzBytes : Z) (inbox : string) (s : SenderState)
    (r : RecvState) :
  recvSz <= Int64.max_int ->
  NewRecvState recvSz recvSzBytes inbox s = Ok r -> RecvInv r.
Proof.
  intros Hmax. unfold NewRecvState. destruct (Z.ltb_spec recvSz 0); [discriminate|].
  intros [= <-]. constructor; simpl; try reflexivity.
  - lia.
  - rewrite length_replicate. lia.
  - intros i pp H0. discriminate.
  - intros k s0 Hk Hr. apply lookup_replicate in Hk as [-> _]. discriminate.
Qed.

(** The bound put on the in-order walk is never reached. *)
Lemma recvloop_fuel (ev : Event) (r : RecvState) : recvloop ev r <> OutOfFuel.
Proof.
  destruct ev; simpl; try discriminate.
  - unfold deliver. destruct (ReadyForDelivery r) as [|[first|] rest]; try discriminate.
    destruct (consumeDelivered _ _); discriminate.
  - rewrite recvPacket_unfold.
    destruct (offerAsap _ _ _) as [r0|]; [|discriminate].
    destruct (updateMarks _ _) as [r1|]; [|discriminate].
    destruct gsel; [|discriminate]. cbv zeta.
    destruct (negb _); [|discriminate].
    destruct (KeepAlive pack); [discriminate|].
    rewrite recvData_unfold. cbv zeta.
    destruct (ringSlot _ _) as [slot|]; [|discriminate].
    destruct (negb _); [discriminate|].
    destruct (_ =? _); [|discriminate].
    destruct (deliverInOrder _ _ _) eqn:Hwalk; try discriminate.
    exfalso. revert Hwalk. apply deliverInOrder_fuel.
    pose proof (countReceived_le (Rxq (storePacket slot pack
      (holdPacket pack (tellSender pack (UpdateFlowControl r1)))))). lia.
Qed.

Lemma run_fuel (evs : list Event) (r : RecvState) : run evs r <> OutOfFuel.
Proof.
  revert r. induction evs as [|ev evs IH]; intros r; [discriminate|].
  rewrite run_cons. pose proof (recvloop_fuel ev r).
  destruct (recvloop ev r); try discriminate; auto.
Qed.


Lemma offerAsap_continues (pack : Packet) (sel : AsapSel) (r : RecvState) :
  sel <> AsapReqStop -> exists r', offerAsap pack sel r = Some r'.
Proof.
  intros Hsel. unfold offerAsap.
  destruct (AsapOn r), (asapHelper r), sel; try congruence; eauto.
Qed.

(** The fields the ASAP offer leaves alone. *)
Lemma offerAsap_frame (pack : Packet) (sel : AsapSel) (r r' : RecvState) :
  offerAsap pack sel r = Some r' ->
  snd r' = snd r /\ Inbox r' = Inbox r /\
  LargestSeqnoRcvd r' = LargestSeqnoRcvd r /\
  MaxCumulBytesTrans r' = MaxCumulBytesTrans r /\
  RcvdButNotConsumed r' = RcvdButNotConsumed r /\
  DiscardCount r' = DiscardCount r.
Proof.
  unfold offerAsap. destruct (AsapOn r), (asapHelper r), sel; try discriminate;
    intros [= <-]; repeat split.
Qed.

Lemma updateMarks_passes (pack : Packet) (r : RecvState) :
  assertionsHold pack r -> exists r', updateMarks pack r = Ok r'.
Proof.
  intros [H1 H2]. unfold updateMarks.
  destruct (Z.gtb_spec (SeqNum pack) (LargestSeqnoRcvd r)) as [Hgt|Hle]; simpl.
  - destruct (Z.ltb_spec (CumulBytesTransmitted pack) (MaxCumulBytesTrans r)); [lia|].
    simpl.
    destruct (Z.gtb_spec (CumulBytesTransmitted pack) (CumulBytesTransmitted pack)); [lia|].
    eauto.
  - destruct (Z.gtb_spec (CumulBytesTransmitted pack) (MaxCumulBytesTrans r)); [lia|].
    eauto.
Qed.

Lemma updateMarks_frame (pack : Packet) (r r' : RecvState) :
  updateMarks pack r = Ok r' ->
  snd r' = snd r /\ Inbox r' = Inbox r /\
  RcvdButNotConsumed r' = RcvdButNotConsumed r /\
  DiscardCount r' = DiscardCount r.
Proof.
  unfold updateMarks.
  destruct (SeqNum pack >? LargestSeqnoRcvd r); simpl;
    repeat match goal with
           | |- context [if ?c then _ else _] => destruct c; simpl
           end; try discriminate; intros [= <-]; repeat split.
Qed.


Lemma holdPacket_frame (pack : Packet) (r : RecvState) :
  snd (holdPacket pack r) = snd r /\ Inbox (holdPacket pack r) = Inbox r.
Proof. unfold holdPacket. destruct (_ >=? _); split; reflexivity. Qed.


(** A packet that passes the two assertions, when no [select] sees ReqStop,
    reaches the branch on [AckOnly] and [KeepAlive] in a state [r3] that has
    the window of [r]. *)
Lemma recvPacket_reaches (pack : Packet) (asel : AsapSel) (r : RecvState) :
  asel <> AsapReqStop -> assertionsHold pack r ->
  exists r3,
    recvPacket pack asel GotAckSent r =
      (if negb (AckOnly pack) then
         if KeepAlive pack then
           Running (ack (NextFrameExpected r3 -64 1) (From pack) r3)
         else recvData pack r3
       else Running r3) /\
    sameWindow r r3 /\ SendAck (snd r3) = SendAck (snd r) /\
    Inbox r3 = Inbox r /\ RcvdButNotConsumed r3 = RcvdButNotConsumed r /\
    DiscardCount r3 = DiscardCount r.
Proof.
  intros Hsel Hassert. rewrite recvPacket_unfold.
  destruct (offerAsap_continues pack asel r Hsel) as [r1 H1]. rewrite H1.
  destruct (offerAsap_frame _ _ _ _ H1) as (Es1 & Ei1 & El1 & Em1 & Eh1 & Ed1).
  destruct (updateMarks_passes pack r1) as [r2 H2].
  { unfold assertionsHold. rewrite El1, Em1. exact Hassert. }
  rewrite H2. destruct (updateMarks_frame _ _ _ H2) as (Es2 & Ei2 & Eh2 & Ed2).
  cbv zeta. eexists. split; [reflexivity|].
  split; [|simpl; rewrite Es2, Es1, Ei2, Ei1, Eh2, Eh1, Ed2, Ed1; auto].
  eapply sameWindow_trans; [eapply offerAsap_sameWindow, H1|].
  eapply sameWindow_trans; [eapply updateMarks_sameWindow, H2|].
  repeat split.
Qed.


(** The discard branch of [recvData]: the packet is counted and acked. *)
Lemma recvData_discard (pack : Packet) (r : RecvState) :
  0 < RecvWindowSize r -> Z.of_nat (length (Rxq r)) = RecvWindowSize r ->
  0 <= SeqNum pack ->
  InWindow (SeqNum pack) (NextFrameExpected r)
    (NextFrameExpected r +64 RecvWindowSize r -64 1) = false ->
  recvData pack r =
  Running (ack (NextFrameExpected r -64 1) (From pack)
             (set_DiscardCount (DiscardCount r +64 1) (holdPacket pack r))).
Proof.
  intros Hw Hlen Hseq Hin. rewrite recvData_unfold. cbv zeta.
  rewrite holdPacket_ringSlot.
  destruct (ringSlot_ok r (SeqNum pack) Hw Hlen Hseq) as [-> _].
  destruct (holdPacket_sameWindow pack r) as (Ew & _ & En & _).
  assert (Ed : DiscardCount (holdPacket pack r) = DiscardCount r).
  { unfold holdPacket. destruct (_ >=? _); reflexivity. }
  rewrite En, Ew, Ed, Hin. reflexivity.
Qed.

(** Out of the window, with a sequence number that is not negative: the
    packet is discarded and acked with the current cumulative value. *)
Lemma recv_out_of_window_acked (r : RecvState) (pack : Packet) (asel : AsapSel) :
  0 < RecvWindowSize r -> Z.of_nat (length (Rxq r)) = RecvWindowSize r ->
  0 <= SeqNum pack ->
  asel <> AsapReqStop -> assertionsHold pack r ->
  AckOnly pack = false -> KeepAlive pack = false ->
  InWindow (SeqNum pack) (NextFrameExpected r)
    (NextFrameExpected r +64 RecvWindowSize r -64 1) = false ->
  exists r',
    recvPacket pack asel GotAckSent r = Running r' /\
    DiscardCount r' = DiscardCount r +64 1 /\
    Rxq r' = Rxq r /\ NextFrameExpected r' = NextFrameExpected r /\
    exists a, SendAck (snd r') = SendAck (snd r) ++ [a] /\
              AckNum a = NextFrameExpected r -64 1 /\ AckOnly a = true /\
              Dest a = From pack.
Proof.
  intros Hw Hlen Hseq Hsel Hassert Hdata Hka Hin.
  destruct (recvPacket_reaches pack asel r Hsel Hassert)
    as (r3 & -> & (Ew & Eq & En & _) & Es & Ei & Eh & Ed).
  rewrite Hdata, Hka. simpl.
  rewrite recvData_discard; rewrite ?Ew, ?Eq, ?En; try assumption.
  eexists. split; [reflexivity|].
  destruct (holdPacket_sameWindow pack r3) as (_ & Eq' & En' & _).
  destruct (holdPacket_frame pack r3) as (Es' & _).
  simpl. rewrite Ed, Eq', Eq, En', En, Es', Es. repeat split.
  eexists. repeat split.
Qed.

(** ** The high-water marks *)

Lemma sameMarks_refl (r : RecvState) : sameMarks r r.
Proof. split; reflexivity. Qed.

Lemma sameMarks_trans (r1 r2 r3 : RecvState) :
  sameMarks r1 r2 -> sameMarks r2 r3 -> sameMarks r1 r3.
Proof. unfold sameMarks. intros [? ?] [? ?]. split; congruence. Qed.

Lemma deliverInOrder_sameMarks (fuel slot : nat) (r r' : RecvState) :
  deliverInOrder fuel slot r = Running r' -> sameMarks r r'.
Proof.
  revert slot r. induction fuel as [|fuel IH]; intros slot r;
    rewrite deliverInOrder_unfold;
    destruct (Rxq r !! slot) as [s|]; try discriminate;
    destruct (Received s); try discriminate;
    try (intros [= <-]; apply sameMarks_refl).
  destruct (ringSlot _ _) as [slot'|]; [|discriminate].
  intros H. apply IH in H. destruct H as [H1 H2]. split; [exact H1|exact H2].
Qed.

Lemma deliverInOrder_panics (fuel slot : nat) (r : RecvState) (c : PanicCause) :
  deliverInOrder fuel slot r = Panicked c -> c = DivideByZero \/ c = IndexOutOfRange.
Proof.
  revert slot r. induction fuel as [|fuel IH]; intros slot r;
    rewrite deliverInOrder_unfold;
    destruct (Rxq r !! slot) as [s|]; try (intros [= <-]; auto);
    destruct (Received s); try discriminate.
  destruct (ringSlot _ _) as [slot'|c'] eqn:Hslot; [apply IH|].
  intros [= <-]. unfold ringSlot in Hslot.
  destruct (_ =? _); [injection Hslot as <-; auto|].
  destruct (_ || _); [injection Hslot as <-; auto|discriminate].
Qed.

Lemma ringSlot_panics (r : RecvState) (seqno : Z) (c : PanicCause) :
  ringSlot r seqno = Panic c -> c = DivideByZero \/ c = IndexOutOfRange.
Proof.
  unfold ringSlot. destruct (_ =? _); [intros [= <-]; auto|].
  destruct (_ || _); [intros [= <-]; auto|discriminate].
Qed.

Lemma holdPacket_sameMarks (pack : Packet) (r : RecvState) :
  sameMarks r (holdPacket pack r).
Proof. unfold holdPacket. destruct (_ >=? _); split; reflexivity. Qed.

Lemma recvData_sameMarks (pack : Packet) (r r' : RecvState) :
  finalState (recvData pack r) = Some r' -> sameMarks r r'.
Proof.
  destruct (recvData pack r) as [r2|r2| | |] eqn:H; try discriminate.
  2:{ exfalso. eapply recvData_not_Exited, H. }
  intros [= <-]. revert H. rewrite recvData_unfold. cbv zeta.
  pose proof (holdPacket_sameMarks pack r) as Hh.
  destruct (ringSlot _ _) as [slot|]; [|discriminate].
  destruct (negb _).
  { intros [= <-]. exact Hh. }
  destruct (_ =? _).
  - destruct (deliverInOrder _ _ _) as [r3| | | |] eqn:Hwalk; try discriminate.
    intros [= <-]. apply deliverInOrder_sameMarks in Hwalk.
    eapply sameMarks_trans; [exact Hh|]. exact Hwalk.
  - intros [= <-]. exact Hh.
Qed.

Lemma recvData_panics (pack : Packet) (r : RecvState) (c : PanicCause) :
  recvData pack r = Panicked c -> c = DivideByZero \/ c = IndexOutOfRange.
Proof.
  rewrite recvData_unfold. cbv zeta.
  destruct (ringSlot _ _) as [slot|c'] eqn:Hslot.
  2:{ intros [= <-]. eapply ringSlot_panics, Hslot. }
  destruct (negb _); [discriminate|].
  destruct (_ =? _); [|discriminate].
  destruct (deliverInOrder _ _ _) as [r3| |c'| |] eqn:Hwalk; try discriminate.
  intros [= <-]. eapply deliverInOrder_panics, Hwalk.
Qed.

Lemma offerAsap_sameMarks (pack : Packet) (sel : AsapSel) (r r' : RecvState) :
  offerAsap pack sel r = Some r' -> sameMarks r r'.
Proof.
  intros H. destruct (offerAsap_frame _ _ _ _ H) as (_ & _ & H1 & H2 & _).
  split; assumption.
Qed.

Lemma cleanupOnExit_sameMarks (r : RecvState) : sameMarks r (cleanupOnExit r).
Proof. unfold cleanupOnExit. destruct (asapHelper r); split; reflexivity. Qed.

Lemma consumeDelivered_sameMarks (seq : list PacketPtr) (r r' : RecvState) :
  consumeDelivered seq r = Ok r' -> sameMarks r r'.
Proof.
  revert r. induction seq as [|[p|] seq IH]; intros r; simpl; try discriminate.
  - intros [= <-]. apply sameMarks_refl.
  - intros H. apply IH in H. exact H.
Qed.

(** The marks never go down in [updateMarks]. *)
Lemma updateMarks_grows (pack : Packet) (r r' : RecvState) :
  updateMarks pack r = Ok r' ->
  LargestSeqnoRcvd r <= LargestSeqnoRcvd r' /\
  MaxCumulBytesTrans r <= MaxCumulBytesTrans r'.
Proof.
  unfold updateMarks.
  destruct (Z.gtb_spec (SeqNum pack) (LargestSeqnoRcvd r)); simpl.
  - destruct (Z.ltb_spec (CumulBytesTransmitted pack) (MaxCumulBytesTrans r));
      [discriminate|]. simpl.
    destruct (_ >? _); [discriminate|]. intros [= <-]. simpl. lia.
  - destruct (_ >? _); [discriminate|]. intros [= <-]. lia.
Qed.

(** With marks taken from a monotone stream, the next packet of the stream
    passes both assertions, and the new marks are again from the stream. *)
Lemma updateMarks_monotone (ps : list Packet) (pack : Packet) (r : RecvState) :
  monotoneStream ps = true -> agreesWithFreshMarks ps = true ->
  In pack ps -> marksFrom ps r ->
  exists r', updateMarks pack r = Ok r' /\ marksFrom ps r'.
Proof.
  intros Hmono Hbase Hin Hmarks.
  unfold monotoneStream in Hmono. rewrite forallb_forall in Hmono.
  unfold agreesWithFreshMarks in Hbase. rewrite forallb_forall in Hbase.
  assert (Hpair : forall p q, In p ps -> In q ps -> SeqNum p <= SeqNum q ->
                    CumulBytesTransmitted p <= CumulBytesTransmitted q).
  { intros p q Hp Hq Hle. specialize (Hmono p Hp). rewrite forallb_forall in Hmono.
    specialize (Hmono q Hq).
    apply Z.leb_le, (proj1 (implb_true_iff _ _) Hmono), Z.leb_le, Hle. }
  assert (Hassert : assertionsHold pack r).
  { specialize (Hbase pack Hin). destruct Hmarks as [[Hl Hm]|(q & Hq & Hl & Hm)].
    - unfold assertionsHold. rewrite Hl, Hm.
      destruct (Z.gtb_spec (SeqNum pack) (-1)); apply Z.leb_le in Hbase;
        split; intros; lia.
    - unfold assertionsHold. rewrite <- Hl, <- Hm.
      split; intros; apply Hpair; try assumption; lia. }
  destruct (updateMarks_passes pack r Hassert) as [r' Hr']. exists r'.
  split; [exact Hr'|]. revert Hr'. unfold updateMarks.
  destruct (Z.gtb_spec (SeqNum pack) (LargestSeqnoRcvd r)); simpl.
  - destruct (_ <? _); [discriminate|]. simpl.
    destruct (_ >? _); [discriminate|]. intros [= <-]. right. exists pack.
    repeat split. exact Hin.
  - destruct (_ >? _); [discriminate|]. intros [= <-]. exact Hmarks.
Qed.

Lemma marksFrom_sameMarks (ps : list Packet) (r r' : RecvState) :
  sameMarks r r' -> marksFrom ps r -> marksFrom ps r'.
Proof. intros [H1 H2]. unfold marksFrom. rewrite H1, H2. auto. Qed.

Lemma recvPacket_marks_grow (pack : Packet) (asel : AsapSel) (gsel : GotAckSel)
    (r r' : RecvState) :
  finalState (recvPacket pack asel gsel r) = Some r' ->
  LargestSeqnoRcvd r <= LargestSeqnoRcvd r' /\
  MaxCumulBytesTrans r <= MaxCumulBytesTrans r'.
Proof.
  rewrite recvPacket_unfold.
  destruct (offerAsap pack asel r) as [r1|] eqn:H1.
  2:{ intros [= <-]. destruct (cleanupOnExit_sameMarks r) as [-> ->]. lia. }
  apply offerAsap_sameMarks in H1 as [E1 E2].
  destruct (updateMarks pack r1) as [r2|] eqn:H2; [|discriminate].
  apply updateMarks_grows in H2. rewrite E1, E2 in H2.
  destruct gsel.
  2:{ intros [= <-]. destruct (cleanupOnExit_sameMarks (UpdateFlowControl r2)) as [-> ->].
      exact H2. }
  cbv zeta. destruct (negb (AckOnly pack)); [|intros [= <-]; exact H2].
  destruct (KeepAlive pack); [intros [= <-]; exact H2|].
  intros H. apply recvData_sameMarks in H as [-> ->]. exact H2.
Qed.

Lemma deliver_sameMarks (r r' : RecvState) :
  finalState (deliver r) = Some r' -> sameMarks r r'.
Proof.
  unfold deliver.
  destruct (ReadyForDelivery r) as [|[first|] rest]; try discriminate.
  destruct (consumeDelivered _ _) as [r1|] eqn:H1; [|discriminate].
  intros [= <-]. apply consumeDelivered_sameMarks in H1. exact H1.
Qed.

Lemma recvloop_marks_grow (ev : Event) (r r' : RecvState) :
  finalState (recvloop ev r) = Some r' ->
  LargestSeqnoRcvd r <= LargestSeqnoRcvd r' /\
  MaxCumulBytesTrans r <= MaxCumulBytesTrans r'.
Proof.
  destruct ev; simpl.
  - intros [= <-]. destruct helper, (asapHelper r); simpl; lia.
  - intros [= <-]. simpl. lia.
  - intros H. apply deliver_sameMarks in H as [-> ->]. lia.
  - intros [= <-]. destruct (cleanupOnExit_sameMarks r) as [-> ->]. lia.
  - apply recvPacket_marks_grow.
Qed.

Lemma run_marks_grow (evs : list Event) (r r' : RecvState) :
  finalState (run evs r) = Some r' ->
  LargestSeqnoRcvd r <= LargestSeqnoRcvd r' /\
  MaxCumulBytesTrans r <= MaxCumulBytesTrans r'.
Proof.
  revert r. induction evs as [|ev evs IH]; intros r.
  - intros [= <-]. lia.
  - rewrite run_cons. destruct (recvloop ev r) as [r1|r1| | |] eqn:H1; try discriminate.
    + intros H. apply IH in H.
      assert (H0 : finalState (recvloop ev r) = Some r1) by (rewrite H1; reflexivity).
      apply recvloop_marks_grow in H0. lia.
    + intros [= <-]. apply (recvloop_marks_grow ev). rewrite H1. reflexivity.
Qed.

Lemma run_app (evs1 evs2 : list Event) (r : RecvState) :
  run (evs1 ++ evs2) r =
  match run evs1 r with
  | Running r' => run evs2 r'
  | o => o
  end.
Proof.
  revert r. induction evs1 as [|ev evs1 IH]; intros r; [reflexivity|].
  simpl. destruct (recvloop ev r); try reflexivity. apply IH.
Qed.

(** A packet of a monotone stream passes both assertions. *)
Lemma recvPacket_monotone (ps : list Packet) (pack : Packet) (asel : AsapSel)
    (gsel : GotAckSel) (r : RecvState) :
  monotoneStream ps = true -> agreesWithFreshMarks ps = true ->
  In pack ps -> marksFrom ps r ->
  recvPacket pack asel gsel r <> Panicked CumulBelowMax /\
  recvPacket pack asel gsel r <> Panicked CumulOutOfOrder /\
  forall r', finalState (recvPacket pack asel gsel r) = Some r' -> marksFrom ps r'.
Proof.
  intros Hmono Hbase Hin Hmarks. rewrite recvPacket_unfold.
  destruct (offerAsap pack asel r) as [r1|] eqn:H1.
  2:{ repeat split; try discriminate. intros r' [= <-].
      eapply marksFrom_sameMarks; [apply cleanupOnExit_sameMarks|exact Hmarks]. }
  apply offerAsap_sameMarks in H1.
  destruct (updateMarks_monotone ps pack r1 Hmono Hbase Hin) as (r2 & -> & M2).
  { eapply marksFrom_sameMarks; eassumption. }
  destruct gsel.
  2:{ repeat split; try discriminate. intros r' [= <-].
      eapply marksFrom_sameMarks; [apply cleanupOnExit_sameMarks|exact M2]. }
  cbv zeta. destruct (negb (AckOnly pack)).
  2:{ repeat split; try discriminate. intros r' [= <-]. exact M2. }
  destruct (KeepAlive pack).
  { repeat split; try discriminate. intros r' [= <-]. exact M2. }
  repeat split.
  - intros H. apply recvData_panics in H as [H|H]; discriminate.
  - intros H. apply recvData_panics in H as [H|H]; discriminate.
  - intros r' H. apply recvData_sameMarks in H.
    eapply marksFrom_sameMarks; [exact H|exact M2].
Qed.

Lemma consumeDelivered_panics (seq : list PacketPtr) (r : RecvState) (c : PanicCause) :
  consumeDelivered seq r = Panic c -> c = NilDereference.
Proof.
  revert r. induction seq as [|[p|] seq IH]; intros r; simpl; try discriminate.
  - apply IH.
  - intros [= <-]. reflexivity.
Qed.

Lemma deliver_panics (r : RecvState) (c : PanicCause) :
  deliver r = Panicked c -> c = NilDereference.
Proof.
  unfold deliver. destruct (ReadyForDelivery r) as [|[first|] rest]; try discriminate.
  - destruct (consumeDelivered _ _) as [r1|c'] eqn:H1; [discriminate|].
    intros [= <-]. eapply consumeDelivered_panics, H1.
  - intros [= <-]. reflexivity.
Qed.

Lemma run_monotone (ps : list Packet) (evs : list Event) (r : RecvState) :
  monotoneStream ps = true -> agreesWithFreshMarks ps = true ->
  incl (packetsOf evs) ps -> marksFrom ps r ->
  run evs r <> Panicked CumulBelowMax /\ run evs r <> Panicked CumulOutOfOrder.
Proof.
  intros Hmono Hbase. revert r. induction evs as [|ev evs IH]; intros r Hincl Hmarks.
  - split; discriminate.
  - rewrite run_cons.
    assert (Hstep : recvloop ev r <> Panicked CumulBelowMax /\
                    recvloop ev r <> Panicked CumulOutOfOrder /\
                    forall r', recvloop ev r = Running r' ->
                       marksFrom ps r' /\ incl (packetsOf evs) ps).
    { destruct ev; simpl in *.
      - split; [discriminate|]. split; [discriminate|].
        intros r' [= <-]. split; [|exact Hincl].
        eapply marksFrom_sameMarks; [|exact Hmarks].
        destruct helper, (asapHelper r); split; reflexivity.
      - split; [discriminate|]. split; [discriminate|].
        intros r' [= <-]. split; [exact Hmarks|exact Hincl].
      - split; [intros H; apply deliver_panics in H; discriminate|].
        split; [intros H; apply deliver_panics in H; discriminate|].
        intros r' H. split; [|exact Hincl].
        eapply marksFrom_sameMarks; [|exact Hmarks].
        apply deliver_sameMarks. rewrite H. reflexivity.
      - split; [discriminate|]. split; discriminate.
      - destruct (recvPacket_monotone ps pack asel gsel r Hmono Hbase) as (P1 & P2 & P3).
        { apply Hincl. left. reflexivity. }
        { exact Hmarks. }
        split; [exact P1|]. split; [exact P2|].
        intros r' H. split.
        + apply P3. rewrite H. reflexivity.
        + intros p Hp. apply Hincl. right. exact Hp. }
    destruct Hstep as (P1 & P2 & P3).
    destruct (recvloop ev r) as [r1|r1|c| |]; try (split; discriminate).
    + destruct (P3 r1 eq_refl) as [M1 I1]. apply IH; assumption.
    + split; assumption.
Qed.

(** ** The simulated network *)

Lemma sendOn_Net (ch : Chan) (pack : Packet) (random : Z) (sim : SimNet) :
  Net (sendOn ch pack random sim).1.1 = Net sim.
Proof.
  unfold sendOn. destruct (_ =? _); [reflexivity|].
  destruct (_ && _); [reflexivity|].
  destruct (heldBack sim); simpl; destruct (DuplicateNext sim); reflexivity.
Qed.

Lemma sendOn_nil (ch : Chan) (pack : Packet) (random : Z) (sim : SimNet) :
  (sendOn ch pack random sim).1.2 = None.
Proof.
  unfold sendOn. destruct (_ =? _); [reflexivity|].
  destruct (_ && _); [reflexivity|].
  destruct (heldBack sim); simpl; destruct (DuplicateNext sim); reflexivity.
Qed.

(** [Send] never touches the registry of listeners. *)
Lemma sendTo_Net (pack : Packet) (random : Z) (sim : SimNet) :
  Net (sendTo pack random sim).1.1 = Net sim.
Proof.
  unfold sendTo. destruct (Net sim !! Dest pack) as [ch|]; [|reflexivity].
  destruct (_ =? 0); [apply sendOn_Net|].
  destruct (_ =? 1); [reflexivity|].
  apply (sendOn_Net ch pack random (set_reorder 0 _ sim)).
Qed.

Lemma Send_Net (pack : Packet) (why : string) (random : Z) (sim : SimNet) :
  Net (Send pack why random sim).1.1 = Net sim.
Proof. unfold Send. apply (sendTo_Net pack random (countSent (From pack) sim)). Qed.

(** [Send] fails exactly when the destination has no channel. *)
Lemma sendTo_error (pack : Packet) (random : Z) (sim : SimNet) :
  ((sendTo pack random sim).1.2 <> None <-> Net sim !! Dest pack = None) /\
  ((sendTo pack random sim).1.2 <> None -> (sendTo pack random sim).2 = []).
Proof.
  unfold sendTo. destruct (Net sim !! Dest pack) as [ch|] eqn:Hch; simpl.
  2:{ split; [split; [reflexivity|discriminate]|reflexivity]. }
  assert (H : forall s, (sendOn ch pack random s).1.2 = None)
    by (intros s; apply sendOn_nil).
  destruct (_ =? 0); [rewrite H; split; [split|]; congruence|].
  destruct (_ =? 1); simpl; [split; [split|]; congruence|].
  rewrite H; split; [split|]; congruence.
Qed.

Lemma simStep_Net (op : SimOp) (sim : SimNet) (inbox : string) :
  is_Some (Net (simStep op sim) !! inbox) <->
  is_Some (Net sim !! inbox) \/ listened inbox [op] = true.
Proof.
  destruct op; simpl; rewrite ?Send_Net, ?sendTo_Net, ?orb_false_r;
    try (split; [intros H; left; exact H | intros [H|H]; [exact H|discriminate]]).
  destruct (decide (inbox0 = inbox)) as [->|Hne].
  - rewrite lookup_insert_eq, bool_decide_eq_true_2 by reflexivity.
    split; [intros _; right; reflexivity | intros _; eexists; reflexivity].
  - rewrite lookup_insert_ne, bool_decide_eq_false_2 by assumption.
    split; [intros H; left; exact H | intros [H|H]; [exact H|discriminate]].
Qed.

Lemma simRun_Net (ops : list SimOp) (sim : SimNet) (inbox : string) :
  is_Some (Net (simRun ops sim) !! inbox) <->
  is_Some (Net sim !! inbox) \/ listened inbox ops = true.
Proof.
  revert sim. induction ops as [|op ops IH]; intros sim; simpl.
  - split; [intros H; left; exact H | intros [H|H]; [exact H|discriminate]].
  - unfold simRun in *. simpl. rewrite IH, simStep_Net. simpl.
    rewrite orb_false_r, orb_true_iff. tauto.
Qed.

(** C10. [Send] returns an error exactly when no [Listen] call registered a
    channel for the packet's [Dest] before; then no delivery is started.  In
    every other case, the packet lost, discarded once or held back included,
    [Send] returns nil.  This holds of [Send] in simnet.go and of its earlier
    copy. *)
Theorem simnet_send_error_iff_no_listener
    (lossProb : float) (latency : Duration) (ops : list SimOp)
    (pack : Packet) (why : string) (random : Z) :
  let sim := simRun ops (NewSimNet lossProb latency) in
  (let '(_, err, started) := Send pack why random sim in
   (err <> None <-> listened (Dest pack) ops = false) /\
   (err <> None -> started = [])) /\
  (let '(_, err, started) := SendEarlier pack random sim in
   (err <> None <-> listened (Dest pack) ops = false) /\
   (err <> None -> started = [])).
Proof.
  cbv zeta.
  pose proof (simRun_Net ops (NewSimNet lossProb latency) (Dest pack)) as Hnet.
  assert (Hreg : Net (simRun ops (NewSimNet lossProb latency)) !! Dest pack = None
                 <-> listened (Dest pack) ops = false).
  { rewrite eq_None_not_Some, Hnet.
    change (Net (NewSimNet lossProb latency)) with (∅ : gmap string Chan).
    rewrite lookup_empty.
    destruct (listened (Dest pack) ops); split; try congruence.
    - intros H. exfalso. apply H. right. reflexivity.
    - intros _ [[x Hx]|H]; discriminate. }
  split.
  - unfold Send.
    pose proof (sendTo_error pack random
                  (countSent (From pack) (simRun ops (NewSimNet lossProb latency))))
      as [Herr Hstarted].
    destruct (sendTo pack random _) as [[sim' err] started]. simpl in *.
    split; [|exact Hstarted]. rewrite Herr. exact Hreg.
  - unfold SendEarlier.
    pose proof (sendTo_error pack random (simRun ops (NewSimNet lossProb latency)))
      as [Herr Hstarted].
    destruct (sendTo pack random _) as [[sim' err] started]. simpl in *.
    split; [|exact Hstarted]. rewrite Herr. exact Hreg.
Qed.

Lemma simnet_send_error_iff_no_listener_witness :
  (Send (Examples.dataPacket 0 2 Examples.ab) "data" 7
     (simRun [OpListen "A"] (NewSimNet 0 1000))).1.2 <> None /\
  (Send (Examples.dataPacket 0 2 Examples.ab) "data" 7
     (simRun [OpListen "A"; OpListen "B"; OpSetDiscardOnce 0] (NewSimNet 0 1000))).1.2
  = None.
Proof.
  pose proof (simnet_send_error_iff_no_listener 0%float 1000 [OpListen "A"]
                (Examples.dataPacket 0 2 Examples.ab) "data" 7) as [H1 _].
  pose proof (simnet_send_error_iff_no_listener 0%float 1000
                [OpListen "A"; OpListen "B"; OpSetDiscardOnce 0]
                (Examples.dataPacket 0 2 Examples.ab) "data" 7) as [H2 _].
  cbv zeta in H1, H2.
  destruct (Send _ _ _ (simRun [OpListen "A"] _)) as [[s1 e1] d1].
  destruct (Send _ _ _ (simRun [OpListen "A"; OpListen "B"; OpSetDiscardOnce 0] _))
    as [[s2 e2] d2].
  simpl. split.
  - apply H1. reflexivity.
  - destruct H2 as [[H2 _] _]. destruct e2 as [msg|]; [|reflexivity].
    specialize (H2 ltac:(discriminate)). discriminate H2.
Defined.

(** ** [Session.Push] *)

(** C7, as stated, fails: with the shutdown signal raised, [Push] returns to
    its caller without any result, so without [ErrShutdown]. *)
Lemma push_stopping_returns_no_error :
  let ch := mkPushChannels [] false true in
  exists ch', Push (Examples.dataPacket 0 2 Examples.ab) CaseReqStop ch
              = PushReturns ch' [] /\
  forall c ch' results,
    Push (Examples.dataPacket 0 2 Examples.ab) c ch = PushReturns ch' results ->
    ~ In ErrShutdown results.
Proof.
  cbv zeta. eexists. split; [reflexivity|].
  intros [|] ch' results; simpl; [discriminate|].
  intros [= <- <-] [].
Qed.

(** C7, amended.  When the session is stopping and the [select] of [Push]
    takes the ReqStop case, [Push] gives up: it returns to the caller with no
    error value and the payload is not handed to the sender.  No call of
    [Push] ever returns [ErrShutdown]. *)
Theorem push_gives_up_silently (pack : Packet) (ch : PushChannels) :
  ReqStopClosed ch = true ->
  Push pack CaseReqStop ch = PushReturns ch [] /\
  forall c ch' results,
    Push pack c ch = PushReturns ch' results -> results = [].
Proof.
  intros Hstop. unfold Push. rewrite Hstop, andb_false_r. simpl.
  rewrite Hstop. simpl. split; [reflexivity|].
  intros [|] ch' results; simpl; rewrite ?Hstop; simpl.
  - destruct (senderReceiving ch); simpl; [intros [= <- <-]; reflexivity|discriminate].
  - intros [= <- <-]. reflexivity.
Qed.

Lemma push_gives_up_silently_witness :
  Push (Examples.dataPacket 0 2 Examples.ab) CaseReqStop (mkPushChannels [] false true)
  = PushReturns (mkPushChannels [] false true) [].
Proof.
  apply (push_gives_up_silently (Examples.dataPacket 0 2 Examples.ab)
           (mkPushChannels [] false true)).
  reflexivity.
Defined.

(** ** The codec of [Packet] *)

Lemma bytesOf_length (s : string) : length (bytesOf s) = String.length s.
Proof. unfold bytesOf. induction s as [|a s IH]; simpl; [reflexivity|]. f_equal. exact IH. Qed.

Lemma string_of_bytesOf (s : string) : string_of_list_byte (bytesOf s) = s.
Proof. apply string_of_list_byte_of_string. Qed.

Section CodecLaws.

Context `{MsgpLawful}.

Lemma MarshalMsg_chunks (p : Packet) (b : list byte) :
  MarshalMsg p b = b ++ [xde; x00; x12] ++ concat (fieldChunks p).
Proof.
  unfold MarshalMsg. cbv zeta. rewrite Require_bytes.
  rewrite !(AppendString_app (_ ++ _)), !(AppendTime_app (_ ++ _)),
    !(AppendInt64_app (_ ++ _)), !(AppendBool_app (_ ++ _)),
    !(AppendBytes_app (_ ++ _)).
  unfold fieldChunks, encodeName, bytesOf. simpl concat.
  rewrite <- !app_assoc. simpl. rewrite app_nil_r. reflexivity.
Qed.

(** An entry whose name selects the reader [read] and whose value [read]
    reads back. *)
Lemma known_field_decodes {A : Type} (name : string)
    (read : list byte -> Packet -> MsgpResult A) (assign : A -> Packet -> Packet)
    (enc : list byte) (v : A) :
  (String.length name <= 31)%nat ->
  (forall z bts, unmarshalField (bytesOf name) z bts
                 = readInto (read bts z) assign z) ->
  (forall z o, read (enc ++ o) z = Got v o) ->
  decodesAs (encodeName name ++ enc) (assign v).
Proof.
  intros Hlen Hfield Hread n z o. unfold encodeName.
  rewrite <- bytesOf_length. simpl.
  rewrite <- !app_assoc, ReadMapKeyZC_fixstr by (rewrite bytesOf_length; exact Hlen).
  rewrite Hfield, Hread. reflexivity.
Qed.

Lemma fieldChunks_decode (p : Packet) :
  wfPacket p -> Forall2 decodesAs (fieldChunks p) (fieldAssigns p).
Proof.
  intros [].
  unfold fieldChunks, fieldAssigns.
  repeat (apply List.Forall2_cons; [|]); try apply List.Forall2_nil.
  all: first
    [ apply (known_field_decodes _ (fun bts _ => ReadStringBytes bts));
      [ simpl; lia | intros; reflexivity
      | intros; apply ReadStringBytes_AppendString; assumption ]
    | apply (known_field_decodes _ (fun bts _ => ReadTimeBytes bts));
      [ simpl; lia | intros; reflexivity
      | intros; apply ReadTimeBytes_AppendTime; assumption ]
    | apply (known_field_decodes _ (fun bts _ => ReadInt64Bytes bts));
      [ simpl; lia | intros; reflexivity
      | intros; apply ReadInt64Bytes_AppendInt64; assumption ]
    | apply (known_field_decodes _ (fun bts _ => ReadBoolBytes bts));
      [ simpl; lia | intros; reflexivity
      | intros; apply ReadBoolBytes_AppendBool ]
    | apply (known_field_decodes _ (fun bts z => ReadBytesBytes bts (Data z)));
      [ simpl; lia | intros; reflexivity
      | intros; apply ReadBytesBytes_AppendBytes; assumption ] ].
Qed.

(** Entries that decode one by one decode in a row. *)
Lemma decode_chunks (cs : list (list byte)) (fs : list (Packet -> Packet))
    (n : nat) (z : Packet) (o : list byte) :
  Forall2 decodesAs cs fs ->
  unmarshalFields (length cs + n) z (concat cs ++ o)
  = unmarshalFields n (fold_left (fun z f => f z) fs z) o.
Proof.
  intros Hall. revert z. induction Hall as [|c f cs fs Hc _ IH]; intros z.
  - reflexivity.
  - simpl length. simpl concat. rewrite <- app_assoc.
    change (S (length cs) + n)%nat with (S (length cs + n)).
    rewrite Hc. simpl. apply IH.
Qed.

(** Reading all 18 fields of [p] into any packet makes it [p]. *)
Lemma fieldAssigns_all (p z : Packet) :
  fold_left (fun z f => f z) (fieldAssigns p) z = p.
Proof. destruct p. reflexivity. Qed.

Lemma fieldNames_eqb (name : string) :
  ~ In name fieldNames ->
  forall z bts,
    unmarshalField (bytesOf name) z bts =
    match Skip bts with
    | Got _ bts => Got z bts
    | Failed err => Failed err
    end.
Proof.
  intros Hnot z bts. unfold unmarshalField. cbv zeta. rewrite string_of_bytesOf.
  repeat match goal with
  | |- context [String.eqb name ?s] =>
    destruct (String.eqb_spec name s) as [->|_];
      [exfalso; apply Hnot; simpl; tauto|]
  end.
  reflexivity.
Qed.

(** An entry of another name, with a value that [Skip] skips, is passed
    over. *)
Lemma unknown_field_decodes (name : string) (v : list byte) :
  ~ In name fieldNames -> (String.length name <= 31)%nat ->
  (forall o, Skip (v ++ o) = Got tt o) ->
  decodesAs (encodeName name ++ v) (fun z => z).
Proof.
  intros Hnot Hlen Hskip n z o. unfold encodeName.
  rewrite <- bytesOf_length. simpl.
  rewrite <- !app_assoc, ReadMapKeyZC_fixstr by (rewrite bytesOf_length; exact Hlen).
  rewrite (fieldNames_eqb name Hnot), Hskip. reflexivity.
Qed.

(** C9. Unmarshalling what [MarshalMsg] wrote gives back the packet, equal
    in all 18 fields, with no byte left over.  The encoding is a map of 18
    entries, each the name of a field followed by its value; an entry of any
    other name, put anywhere among them, is skipped without error.  The
    packet is one Go can hold, and the msgp library is any that reads back
    what it appends. *)
Theorem packet_codec_roundtrip (p z : Packet) :
  wfPacket p ->
  MarshalMsg p [] = [xde; x00; x12] ++ concat (fieldChunks p) /\
  UnmarshalMsg z (MarshalMsg p []) = Got p [] /\
  forall (i : nat) (name : string) (v : list byte),
    ~ In name fieldNames -> (String.length name <= 31)%nat ->
    (forall o, Skip (v ++ o) = Got tt o) ->
    UnmarshalMsg z
      ([xde; x00; x13] ++ concat (take i (fieldChunks p))
         ++ (encodeName name ++ v) ++ concat (drop i (fieldChunks p)))
    = Got p [].
Proof.
  intros Hwf. pose proof (fieldChunks_decode p Hwf) as Hall.
  split; [apply (MarshalMsg_chunks p [])|]. split.
  - rewrite MarshalMsg_chunks. unfold UnmarshalMsg. cbn [app].
    rewrite ReadMapHeaderBytes_map16.
    change (Z.to_nat (256 * byteZ x00 + byteZ x12))
      with (length (fieldChunks p) + 0)%nat.
    rewrite <- (app_nil_r (concat (fieldChunks p))).
    rewrite (decode_chunks _ _ _ _ _ Hall), fieldAssigns_all. reflexivity.
  - intros i name v Hnot Hlen Hskip. unfold UnmarshalMsg. cbn [app].
    rewrite ReadMapHeaderBytes_map16.
    assert (Hall' : Forall2 decodesAs
              (take i (fieldChunks p) ++ [encodeName name ++ v] ++ drop i (fieldChunks p))
              (take i (fieldAssigns p) ++ [fun z => z] ++ drop i (fieldAssigns p))).
    { apply Forall2_app; [apply Forall2_take, Hall|].
      apply Forall2_app; [|apply Forall2_drop, Hall].
      repeat constructor. apply unknown_field_decodes; assumption. }
    replace (concat (take i (fieldChunks p)) ++ (encodeName name ++ v)
               ++ concat (drop i (fieldChunks p)))
      with (concat (take i (fieldChunks p) ++ [encodeName name ++ v]
                      ++ drop i (fieldChunks p)) ++ [])
      by (rewrite app_nil_r, !concat_app; simpl; rewrite app_nil_r; reflexivity).
    replace (Z.to_nat (256 * byteZ x00 + byteZ x13))
      with (length (take i (fieldChunks p) ++ [encodeName name ++ v]
                      ++ drop i (fieldChunks p)) + 0)%nat.
    2:{ rewrite !length_app, Nat.add_0_r. simpl length at 2.
        pose proof (length_app (take i (fieldChunks p)) (drop i (fieldChunks p))) as Hl.
        rewrite take_drop in Hl. change (length (fieldChunks p)) with 18%nat in Hl.
        change (Z.to_nat (256 * byteZ x00 + byteZ x13)) with 19%nat. lia. }
    rewrite (decode_chunks _ _ _ _ _ Hall'), !fold_left_app. simpl fold_left at 2.
    rewrite <- fold_left_app, take_drop, fieldAssigns_all. reflexivity.
Qed.

End CodecLaws.

(** ** The model of msgp is lawful *)

Lemma byteZ_range (b : byte) : 0 <= byteZ b < 256.
Proof. unfold byteZ. pose proof (Byte.to_N_bounded b). lia. Qed.

Lemma byteZ_Zbyte (z : Z) : byteZ (Zbyte z) = z mod 256.
Proof.
  unfold byteZ, Zbyte. pose proof (Z.mod_pos_bound z 256 ltac:(lia)) as Hb.
  destruct (Byte.of_N (Z.to_N (z mod 256))) as [b|] eqn:E.
  - apply Byte.to_of_N in E. rewrite E. lia.
  - apply Byte.of_N_None_iff in E. lia.
Qed.

Lemma byteZ_Zbyte_small (z : Z) : 0 <= z < 256 -> byteZ (Zbyte z) = z.
Proof. intros Hz. rewrite byteZ_Zbyte. apply Z.mod_small, Hz. Qed.

(** A check that holds for each number of a range, by enumeration. *)
Lemma range_check (f : Z -> bool) (lo : Z) (n : nat) :
  forallb f (List.map (fun k => lo + Z.of_nat k) (seq 0 n)) = true ->
  forall z, lo <= z < lo + Z.of_nat n -> f z = true.
Proof.
  intros Hall z Hz. rewrite forallb_forall in Hall. apply Hall.
  apply in_map_iff. exists (Z.to_nat (z - lo)). split; [lia|].
  apply in_seq. lia.
Qed.

Lemma fixstr_bits (k : Z) :
  0 <= k <= 31 ->
  Z.lor 160 k = 160 + k /\ Z.land (160 + k) 224 = 160 /\ Z.land (160 + k) 31 = k.
Proof.
  intros Hk.
  pose proof (range_check
    (fun k => (Z.lor 160 k =? 160 + k) && (Z.land (160 + k) 224 =? 160)
              && (Z.land (160 + k) 31 =? k)) 0 32 eq_refl k ltac:(lia)) as Hc.
  cbv beta in Hc. apply andb_true_iff in Hc as [Hc H3].
  apply andb_true_iff in Hc as [H1 H2]. lia.
Qed.

Lemma nfixint_bits (u : Z) : 224 <= u <= 255 -> Z.land u 224 = 224.
Proof.
  intros Hu.
  pose proof (range_check (fun u => Z.land u 224 =? 224) 224 32 eq_refl u ltac:(lia))
    as Hc.
  cbv beta in Hc. lia.
Qed.

Module MsgpackFacts.

Import Msgpack.

Lemma bigEndian_length (n : nat) (z : Z) : length (bigEndian n z) = n.
Proof. induction n as [|n IH]; simpl; [reflexivity|]. f_equal. exact IH. Qed.

Lemma fold_bigEndian (n : nat) (z acc : Z) :
  fold_left (fun acc b => acc * 256 + byteZ b) (bigEndian n z) acc
  = acc * 2 ^ (8 * Z.of_nat n) + z mod 2 ^ (8 * Z.of_nat n).
Proof.
  revert acc. induction n as [|n IH]; intros acc.
  - simpl. rewrite Z.mod_1_r. lia.
  - cbn [bigEndian fold_left]. rewrite IH, byteZ_Zbyte, Z.shiftr_div_pow2 by lia.
    replace (8 * Z.of_nat (S n)) with (8 * Z.of_nat n + 8) by lia.
    rewrite Z.pow_add_r by lia.
    rewrite (Z.rem_mul_r z (2 ^ (8 * Z.of_nat n)) (2 ^ 8)) by lia.
    change (2 ^ 8) with 256. lia.
Qed.

Lemma fromBigEndian_bigEndian (n : nat) (z : Z) :
  fromBigEndian (bigEndian n z) = z mod 2 ^ (8 * Z.of_nat n).
Proof. unfold fromBigEndian. rewrite fold_bigEndian. lia. Qed.

Lemma fromBigEndian_unsigned (n : nat) (z : Z) :
  0 <= z < 2 ^ (8 * Z.of_nat n) -> fromBigEndian (bigEndian n z) = z.
Proof. intros Hz. rewrite fromBigEndian_bigEndian. apply Z.mod_small, Hz. Qed.

Lemma fromBigEndian_signed (n : nat) (z : Z) :
  (0 < n)%nat ->
  - 2 ^ (8 * Z.of_nat n - 1) <= z < 2 ^ (8 * Z.of_nat n - 1) ->
  signed n (fromBigEndian (bigEndian n z)) = z.
Proof.
  intros Hn Hz. rewrite fromBigEndian_bigEndian. unfold signed.
  assert (Hp : 2 ^ (8 * Z.of_nat n) = 2 * 2 ^ (8 * Z.of_nat n - 1)).
  { rewrite <- Z.pow_succ_r by lia. f_equal. lia. }
  assert (0 < 2 ^ (8 * Z.of_nat n - 1)) by (apply Z.pow_pos_nonneg; lia).
  destruct (Z_lt_le_dec z 0) as [Hneg|Hpos].
  - replace (z mod 2 ^ (8 * Z.of_nat n)) with (z + 2 ^ (8 * Z.of_nat n)).
    2:{ symmetry. rewrite <- (Z_mod_plus_full z 1), Z.mul_1_l. apply Z.mod_small. lia. }
    destruct (Z.ltb_spec (z + 2 ^ (8 * Z.of_nat n)) (2 ^ (8 * Z.of_nat n - 1))); lia.
  - rewrite Z.mod_small by lia.
    destruct (Z.ltb_spec z (2 ^ (8 * Z.of_nat n - 1))); lia.
Qed.

(** The number that follows the lead byte. *)
Lemma slice_number (lead : byte) (n : nat) (z : Z) (o : list byte) :
  slice 1 (S n) (lead :: bigEndian n z ++ o) = bigEndian n z.
Proof.
  unfold slice. simpl. rewrite Nat.sub_0_r.
  rewrite <- (bigEndian_length n z) at 1. apply take_app_length.
Qed.

Lemma skipn_number (lead : byte) (n : nat) (z : Z) (o : list byte) :
  skipn (S n) (lead :: bigEndian n z ++ o) = o.
Proof.
  simpl. rewrite <- (bigEndian_length n z) at 1. apply drop_app_length.
Qed.

Lemma lengthZ_cons (b : byte) (l : list byte) : lengthZ (b :: l) = 1 + lengthZ l.
Proof. unfold lengthZ. simpl length. lia. Qed.

Lemma lengthZ_app (l k : list byte) : lengthZ (l ++ k) = lengthZ l + lengthZ k.
Proof. unfold lengthZ. rewrite length_app. lia. Qed.

Lemma lengthZ_nonneg (l : list byte) : 0 <= lengthZ l.
Proof. unfold lengthZ. lia. Qed.

Lemma readBody_app (body o : list byte) :
  readBody (lengthZ body) (body ++ o) = Got body o.
Proof.
  unfold readBody. rewrite lengthZ_app.
  pose proof (lengthZ_nonneg o).
  destruct (Z.ltb_spec (lengthZ body + lengthZ o) (lengthZ body)); [lia|].
  unfold lengthZ. rewrite Nat2Z.id, take_app_length, drop_app_length. reflexivity.
Qed.

Lemma lengthZ_bytesOf (s : string) : lengthZ (bytesOf s) = Z.of_nat (String.length s).
Proof. unfold lengthZ. rewrite bytesOf_length. reflexivity. Qed.

Ltac not_short :=
  match goal with
  | |- context [lengthZ ?l <? ?k] =>
    let H := fresh in
    destruct (Z.ltb_spec (lengthZ l) k) as [H|_];
    [ exfalso; rewrite ?lengthZ_cons, ?lengthZ_app in H; unfold lengthZ in *;
      rewrite ?bigEndian_length in H; lia | ]
  end.

Lemma readStringZC_appendString (s : string) (o : list byte) :
  Z.of_nat (String.length s) < 2 ^ 32 ->
  readStringZC (appendString [] s ++ o) = Got (bytesOf s) o.
Proof.
  intros Hlen. unfold appendString. cbv zeta. rewrite <- lengthZ_bytesOf in *.
  pose proof (lengthZ_nonneg (bytesOf s)) as Hnn.
  destruct (Z.leb_spec (lengthZ (bytesOf s)) 31) as [H31|H31].
  { destruct (fixstr_bits (lengthZ (bytesOf s)) ltac:(lia)) as (E1 & E2 & E3).
    rewrite E1. cbn [app readStringZC].
    rewrite byteZ_Zbyte_small, E2, E3 by lia. simpl. apply readBody_app. }
  destruct (Z.leb_spec (lengthZ (bytesOf s)) 255) as [H255|H255].
  { cbn [app readStringZC]. change (byteZ xd9) with 217. simpl Z.eqb.
    cbv iota. not_short.
    change (slice 1 2 (xd9 :: Zbyte (lengthZ (bytesOf s)) :: bytesOf s ++ o))
      with [Zbyte (lengthZ (bytesOf s))].
    unfold fromBigEndian. simpl fold_left. rewrite byteZ_Zbyte_small by lia.
    simpl skipn. apply readBody_app. }
  destruct (Z.leb_spec (lengthZ (bytesOf s)) 65535) as [H64k|H64k].
  { cbn [app readStringZC]. change (byteZ xda) with 218. simpl Z.eqb.
    cbv iota. rewrite <- app_assoc. not_short.
    rewrite slice_number, (skipn_number xda 2), fromBigEndian_unsigned
      by (change (2 ^ (8 * Z.of_nat 2)) with 65536; lia).
    apply readBody_app. }
  cbn [app readStringZC]. change (byteZ xdb) with 219. simpl Z.eqb.
  cbv iota. rewrite <- app_assoc. not_short.
  rewrite slice_number, (skipn_number xdb 4), fromBigEndian_unsigned
    by (change (2 ^ (8 * Z.of_nat 4)) with (2 ^ 32); lia).
  apply readBody_app.
Qed.

Lemma readBytesZC_appendBytes (d : list byte) (o : list byte) :
  lengthZ d < 2 ^ 32 -> readBytesZC (appendBytes [] d ++ o) = Got d o.
Proof.
  intros Hlen. unfold appendBytes. cbv zeta.
  pose proof (lengthZ_nonneg d) as Hnn.
  destruct (Z.leb_spec (lengthZ d) 255) as [H255|H255].
  { cbn [app readBytesZC]. change (byteZ xc4) with 196. simpl Z.eqb.
    cbv iota. not_short.
    change (slice 1 2 (xc4 :: Zbyte (lengthZ d) :: d ++ o)) with [Zbyte (lengthZ d)].
    unfold fromBigEndian. simpl fold_left. rewrite byteZ_Zbyte_small by lia.
    simpl skipn. apply readBody_app. }
  destruct (Z.leb_spec (lengthZ d) 65535) as [H64k|H64k].
  { cbn [app readBytesZC]. change (byteZ xc5) with 197. simpl Z.eqb.
    cbv iota. rewrite <- app_assoc. not_short.
    rewrite slice_number, (skipn_number xc5 2), fromBigEndian_unsigned
      by (change (2 ^ (8 * Z.of_nat 2)) with 65536; lia).
    apply readBody_app. }
  cbn [app readBytesZC]. change (byteZ xc6) with 198. simpl Z.eqb.
  cbv iota. rewrite <- app_assoc. not_short.
  rewrite slice_number, (skipn_number xc6 4), fromBigEndian_unsigned
    by (change (2 ^ (8 * Z.of_nat 4)) with (2 ^ 32); lia).
  apply readBody_app.
Qed.

Lemma readInt64Bytes_int8 (o : list byte) :
  readInt64Bytes (xd0 :: o) =
  if lengthZ (xd0 :: o) <? 2 then Failed ErrShortBytes
  else Got (signed 1 (fromBigEndian (slice 1 2 (xd0 :: o)))) (skipn 2 (xd0 :: o)).
Proof. reflexivity. Qed.

Lemma readInt64Bytes_int16 (o : list byte) :
  readInt64Bytes (xd1 :: o) =
  if lengthZ (xd1 :: o) <? 3 then Failed ErrShortBytes
  else Got (signed 2 (fromBigEndian (slice 1 3 (xd1 :: o)))) (skipn 3 (xd1 :: o)).
Proof. reflexivity. Qed.

Lemma readInt64Bytes_int32 (o : list byte) :
  readInt64Bytes (xd2 :: o) =
  if lengthZ (xd2 :: o) <? 5 then Failed ErrShortBytes
  else Got (signed 4 (fromBigEndian (slice 1 5 (xd2 :: o)))) (skipn 5 (xd2 :: o)).
Proof. reflexivity. Qed.

Lemma readInt64Bytes_int64 (o : list byte) :
  readInt64Bytes (xd3 :: o) =
  if lengthZ (xd3 :: o) <? 9 then Failed ErrShortBytes
  else Got (signed 8 (fromBigEndian (slice 1 9 (xd3 :: o)))) (skipn 9 (xd3 :: o)).
Proof. reflexivity. Qed.

Lemma readInt64Bytes_appendInt64 (i : Z) (o : list byte) :
  Int64.in_range i -> readInt64Bytes (appendInt64 [] i ++ o) = Got i o.
Proof.
  unfold Int64.in_range, Int64.min_int, Int64.max_int. intros Hi.
  unfold appendInt64.
  destruct (Z.leb_spec 0 i) as [Hpos|Hneg].
  - destruct (Z.leb_spec i 127).
    { cbn [app readInt64Bytes]. rewrite byteZ_Zbyte_small by lia.
      destruct (Z.ltb_spec i 128); [reflexivity|lia]. }
    destruct (Z.leb_spec i 32767).
    { cbn [app]. rewrite readInt64Bytes_int16.
      not_short. rewrite (slice_number xd1 2), (skipn_number xd1 2).
      rewrite (fromBigEndian_signed 2) by (simpl; lia). reflexivity. }
    destruct (Z.leb_spec i 2147483647).
    { cbn [app]. rewrite readInt64Bytes_int32.
      not_short. rewrite (slice_number xd2 4), (skipn_number xd2 4).
      rewrite (fromBigEndian_signed 4) by (simpl; lia). reflexivity. }
    cbn [app]. rewrite readInt64Bytes_int64.
    not_short. rewrite (slice_number xd3 8), (skipn_number xd3 8).
    rewrite (fromBigEndian_signed 8) by (simpl; lia). reflexivity.
  - destruct (Z.leb_spec (-32) i).
    { cbn [app readInt64Bytes]. rewrite byteZ_Zbyte.
      replace (i mod 256) with (i + 256)
        by (symmetry; rewrite <- (Z_mod_plus_full i 1), Z.mul_1_l; apply Z.mod_small; lia).
      destruct (Z.ltb_spec (i + 256) 128); [lia|].
      rewrite nfixint_bits by lia. simpl. f_equal. lia. }
    destruct (Z.leb_spec (-128) i).
    { cbn [app]. rewrite readInt64Bytes_int8.
      not_short.
      change (slice 1 2 (xd0 :: Zbyte i :: o)) with (bigEndian 1 i).
      rewrite (fromBigEndian_signed 1) by (simpl; lia). reflexivity. }
    destruct (Z.leb_spec (-32768) i).
    { cbn [app]. rewrite readInt64Bytes_int16.
      not_short. rewrite (slice_number xd1 2), (skipn_number xd1 2).
      rewrite (fromBigEndian_signed 2) by (simpl; lia). reflexivity. }
    destruct (Z.leb_spec (-2147483648) i).
    { cbn [app]. rewrite readInt64Bytes_int32.
      not_short. rewrite (slice_number xd2 4), (skipn_number xd2 4).
      rewrite (fromBigEndian_signed 4) by (simpl; lia). reflexivity. }
    cbn [app]. rewrite readInt64Bytes_int64.
    not_short. rewrite (slice_number xd3 8), (skipn_number xd3 8).
    rewrite (fromBigEndian_signed 8) by (simpl; lia). reflexivity.
Qed.

Lemma readTimeBytes_appendTime (t : Time) (o : list byte) :
  wfTime t -> readTimeBytes (appendTime [] t ++ o) = Got t o.
Proof.
  unfold wfTime, Int64.in_range, Int64.min_int, Int64.max_int. intros [Hs Hn].
  unfold appendTime, readTimeBytes. cbn [app]. rewrite <- !app_assoc.
  not_short.
  change (byteZ xc7) with 199. change (byteZ x0c) with 12. change (byteZ x05) with 5.
  cbn [Z.eqb Pos.eqb negb orb].
  assert (E1 : slice 3 11 (xc7 :: x0c :: x05 :: bigEndian 8 (unixSec t)
                             ++ bigEndian 4 (nanos t) ++ o)
               = bigEndian 8 (unixSec t)).
  { unfold slice. cbn [skipn Nat.sub].
    rewrite <- (bigEndian_length 8 (unixSec t)) at 1. apply take_app_length. }
  assert (E2 : skipn 11 (xc7 :: x0c :: x05 :: bigEndian 8 (unixSec t)
                           ++ bigEndian 4 (nanos t) ++ o)
               = bigEndian 4 (nanos t) ++ o).
  { cbn [skipn]. rewrite <- (bigEndian_length 8 (unixSec t)) at 1.
    apply drop_app_length. }
  assert (E3 : slice 11 15 (xc7 :: x0c :: x05 :: bigEndian 8 (unixSec t)
                              ++ bigEndian 4 (nanos t) ++ o)
               = bigEndian 4 (nanos t)).
  { unfold slice. rewrite E2. cbn [Nat.sub].
    rewrite <- (bigEndian_length 4 (nanos t)) at 1. apply take_app_length. }
  assert (E4 : skipn 15 (xc7 :: x0c :: x05 :: bigEndian 8 (unixSec t)
                           ++ bigEndian 4 (nanos t) ++ o) = o).
  { change 15%nat with (11 + 4)%nat. rewrite <- drop_drop, E2.
    rewrite <- (bigEndian_length 4 (nanos t)) at 1. apply drop_app_length. }
  rewrite E1, E3, E4.
  rewrite (fromBigEndian_signed 8), (fromBigEndian_signed 4) by (simpl; lia).
  unfold timeUnix. rewrite Z.div_small, Z.mod_small, Z.add_0_r by lia.
  rewrite wrap_small by (unfold Int64.in_range, Int64.min_int, Int64.max_int; lia).
  destruct t; reflexivity.
Qed.

Lemma readBoolBytes_appendBool (v : bool) (o : list byte) :
  readBoolBytes (appendBool [] v ++ o) = Got v o.
Proof. destruct v; reflexivity. Qed.

Lemma readMapHeaderBytes_map16 (hi lo : byte) (o : list byte) :
  readMapHeaderBytes (xde :: hi :: lo :: o) = Got (256 * byteZ hi + byteZ lo) o.
Proof.
  unfold readMapHeaderBytes. change (byteZ xde) with 222.
  cbn [Z.land Pos.land Z.eqb Pos.eqb Pos.Nsucc_double Pos.Ndouble Z.of_N].
  not_short. unfold slice, fromBigEndian. simpl. f_equal. lia.
Qed.

Lemma readMapKeyZC_fixstr (name o : list byte) :
  (length name <= 31)%nat ->
  readMapKeyZC (Zbyte (160 + Z.of_nat (length name)) :: name ++ o) = Got name o.
Proof.
  intros Hlen. unfold readMapKeyZC, readStringZC.
  destruct (fixstr_bits (Z.of_nat (length name)) ltac:(lia)) as (_ & E2 & E3).
  rewrite byteZ_Zbyte_small, E2, E3 by lia. cbn [skipn Z.eqb Pos.eqb].
  change (drop 0 (name ++ o)) with (name ++ o).
  fold (lengthZ name). rewrite readBody_app. reflexivity.
Qed.

End MsgpackFacts.

(** The model reads back what it appends. *)
Lemma msgpack_lawful : @MsgpLawful msgpack.
Proof.
  constructor; simpl.
  - reflexivity.
  - intros b s. unfold Msgpack.appendString. cbv zeta.
    repeat match goal with |- context [if ?c then _ else _] => destruct c end;
      reflexivity.
  - reflexivity.
  - intros b i. unfold Msgpack.appendInt64.
    repeat match goal with |- context [if ?c then _ else _] => destruct c end;
      reflexivity.
  - reflexivity.
  - intros b d. unfold Msgpack.appendBytes. cbv zeta.
    repeat match goal with |- context [if ?c then _ else _] => destruct c end;
      reflexivity.
  - apply MsgpackFacts.readMapHeaderBytes_map16.
  - apply MsgpackFacts.readMapKeyZC_fixstr.
  - intros s o Hs. unfold Msgpack.readStringBytes.
    rewrite MsgpackFacts.readStringZC_appendString by exact Hs.
    rewrite string_of_bytesOf. reflexivity.
  - apply MsgpackFacts.readTimeBytes_appendTime.
  - apply MsgpackFacts.readInt64Bytes_appendInt64.
  - apply MsgpackFacts.readBoolBytes_appendBool.
  - intros d scratch o Hd. apply MsgpackFacts.readBytesZC_appendBytes. exact Hd.
Qed.

Lemma wirePacket_wf : wfPacket Examples.wirePacket.
Proof.
  constructor; unfold wfTime, Int64.in_range; vm_compute;
    repeat split; congruence.
Qed.

Lemma skip_small_int (o : list byte) : Skip ([x07] ++ o) = Got tt o.
Proof.
  simpl. unfold Msgpack.skip. cbn [Msgpack.skipDepth Msgpack.getSize].
  change (byteZ x07) with 7. cbn [Z.ltb Z.compare Pos.compare Pos.compare_cont].
  destruct (Z.ltb_spec (Msgpack.lengthZ (x07 :: o)) 1) as [Hl|_]; [|reflexivity].
  rewrite MsgpackFacts.lengthZ_cons in Hl. pose proof (MsgpackFacts.lengthZ_nonneg o). lia.
Qed.

Lemma packet_codec_roundtrip_witness :
  UnmarshalMsg zeroPacket (MarshalMsg Examples.wirePacket [])
    = Got Examples.wirePacket [] /\
  UnmarshalMsg zeroPacket
    ([xde; x00; x13] ++ concat (take 5 (fieldChunks Examples.wirePacket))
       ++ (encodeName "Extra" ++ [x07])
       ++ concat (drop 5 (fieldChunks Examples.wirePacket)))
    = Got Examples.wirePacket [].
Proof.
  destruct (@packet_codec_roundtrip msgpack msgpack_lawful Examples.wirePacket
              zeroPacket wirePacket_wf) as (_ & Hround & Hskip).
  split; [exact Hround|].
  apply Hskip.
  - simpl. intuition discriminate.
  - simpl. lia.
  - exact skip_small_int.
Defined.

(** ** The claims about the receiver *)




Lemma awaiting1_inv : RecvInv Examples.awaiting1.
Proof.
  apply (run_inv [ Examples.arrives (Examples.dataPacket 0 2 Examples.ab);
                   Examples.arrives (Examples.dataPacket 2 6 Examples.ab);
                   Examples.arrives (Examples.dataPacket 3 8 Examples.ab) ]
           Examples.fresh4).
  - apply (NewRecvState_inv 4 1000 "B" Examples.sender0); [vm_compute; discriminate|].
    reflexivity.
  - vm_compute. reflexivity.
  - vm_compute. discriminate.
Qed.


(** C3. A data packet outside the window is to be counted in [DiscardCount]
    and acked with [NextFrameExpected - 1], the slots and
    [NextFrameExpected] staying as they are ([recv_out_of_window_acked] has
    this for every sequence number from 0 on).  The receiver indexes the
    ring before it checks the window: for the data packet numbered -1, which
    is outside the window [0, 3] of a fresh receiver, Go's [%] gives -1 and
    the goroutine panics instead of acking. *)
Theorem recv_negative_seqnum_panics :
  AckOnly Examples.negativePacket = false /\
  KeepAlive Examples.negativePacket = false /\
  InWindow (SeqNum Examples.negativePacket) (NextFrameExpected Examples.fresh4)
    (NextFrameExpected Examples.fresh4 +64 RecvWindowSize Examples.fresh4 -64 1)
    = false /\
  assertionsHold Examples.negativePacket Examples.fresh4 /\
  recvPacket Examples.negativePacket AsapTimedOut GotAckSent Examples.fresh4
    = Panicked IndexOutOfRange.
Proof.
  repeat split; try reflexivity; vm_compute; congruence.
Qed.

(** C4. [UpdateFlowControl] sets the advertised window to
    [RecvWindowSize - (LargestSeqnoRcvd - LastMsgConsumed)] messages and
    [RecvWindowSizeBytes - (MaxCumulBytesTrans - (LastByteConsumed + 1))]
    bytes, in [int64] arithmetic, and pushes the two values into the flow
    control object shared with the sender, by [UpdateFlow]; when no
    difference overflows these are the exact integers. *)
Theorem update_flow_control_advertises (r : RecvState) :
  let r' := UpdateFlowControl r in
  LastAvailReaderMsgCap r'
    = RecvWindowSize r -64 (LargestSeqnoRcvd r -64 LastMsgConsumed r) /\
  LastAvailReaderBytesCap r'
    = RecvWindowSizeBytes r -64
        (MaxCumulBytesTrans r -64 (LastByteConsumed r +64 1)) /\
  FlowCt (snd r')
    = UpdateFlow (FlowCt (snd r)) (Inbox r ++ ":recver")
        (LastAvailReaderMsgCap r') (LastAvailReaderBytesCap r') /\
  FlowAvailReaderMsgCap (FlowCt (snd r')) = LastAvailReaderMsgCap r' /\
  FlowAvailReaderBytesCap (FlowCt (snd r')) = LastAvailReaderBytesCap r' /\
  (Int64.in_range (LargestSeqnoRcvd r - LastMsgConsumed r) ->
   Int64.in_range (RecvWindowSize r - (LargestSeqnoRcvd r - LastMsgConsumed r)) ->
   LastAvailReaderMsgCap r'
     = RecvWindowSize r - (LargestSeqnoRcvd r - LastMsgConsumed r)) /\
  (Int64.in_range (LastByteConsumed r + 1) ->
   Int64.in_range (MaxCumulBytesTrans r - (LastByteConsumed r + 1)) ->
   Int64.in_range (RecvWindowSizeBytes r
                   - (MaxCumulBytesTrans r - (LastByteConsumed r + 1))) ->
   LastAvailReaderBytesCap r'
     = RecvWindowSizeBytes r - (MaxCumulBytesTrans r - (LastByteConsumed r + 1))).
Proof.
  cbv zeta. repeat split; try reflexivity.
  - intros H1 H2. simpl. rewrite (sub64_small _ _ H1). apply sub64_small, H2.
  - intros H1 H2 H3. simpl.
    rewrite (add64_small _ _ H1), (sub64_small _ _ H2). apply sub64_small, H3.
Qed.

Lemma update_flow_control_advertises_witness :
  LastAvailReaderMsgCap (UpdateFlowControl Examples.awaiting1) = 0 /\
  LastAvailReaderBytesCap (UpdateFlowControl Examples.awaiting1) = 992 /\
  FlowAvailReaderMsgCap (FlowCt (snd (UpdateFlowControl Examples.awaiting1))) = 0 /\
  FlowAvailReaderBytesCap (FlowCt (snd (UpdateFlowControl Examples.awaiting1))) = 992.
Proof.
  destruct (update_flow_control_advertises Examples.awaiting1)
    as (_ & _ & _ & H3 & H4 & H5 & H6).
  rewrite H3, H4, H5, H6; unfold Int64.in_range; vm_compute;
    repeat split; congruence.
Defined.

(** C5. On a handoff the consumed packets leave [RcvdButNotConsumed] and
    [LastMsgConsumed] becomes the last packet's sequence number; the claim
    has [LastByteConsumed] become the highest byte index consumed, which the
    last packet's [CumulBytesTransmitted] gives.  The receiver takes it from
    the first packet of the batch: with packets 0 and 1 of two bytes each
    handed over, bytes 0 to 3 are consumed and [LastByteConsumed] is 0. *)
Theorem deliver_last_byte_from_first_packet :
  ReadyForDelivery Examples.twoReady
    = [Some (Examples.dataPacket 0 2 Examples.ab);
       Some (Examples.dataPacket 1 4 Examples.ab)] /\
  exists r',
    deliver Examples.twoReady = Running r' /\
    RcvdButNotConsumed r' = ∅ /\
    LastMsgConsumed r' = 1 /\
    LastByteConsumed r' = 0 /\
    LastByteConsumed r'
      <> CumulBytesTransmitted (Examples.dataPacket 1 4 Examples.ab) - 1.
Proof.
  split; [vm_compute; reflexivity|].
  eexists. split; [vm_compute; reflexivity|].
  repeat split; vm_compute; congruence.
Qed.



(** C6, as stated, fails: a stream of one packet is monotone, yet an
    ack-only packet numbered -99 with a running total of 5 bytes trips the
    second assertion of a fresh receiver, whose marks are -1 and 0. *)
Lemma monotone_stream_panics_on_fresh_marks :
  monotoneStream (packetsOf [Examples.arrives Examples.ackWithTotal]) = true /\
  run [Examples.arrives Examples.ackWithTotal] Examples.fresh4
    = Panicked CumulOutOfOrder.
Proof. split; vm_compute; reflexivity. Qed.

(** C6, amended.  From a fresh receiver, for every incoming stream in which
    [CumulBytesTransmitted] is non-decreasing in [SeqNum] order and which
    agrees with the fresh marks (not negative from sequence number 0 on, not
    positive below), neither assertion ever panics; over any trace
    [LargestSeqnoRcvd] and [MaxCumulBytesTrans] never decrease; and a panic
    ends the session: nothing is processed after it. *)
Theorem recv_monotone_stream_passes_assertions
    (recvSz recvSzBytes : Z) (inbox : string) (s : SenderState)
    (r0 : RecvState) (evs : list Event) :
  NewRecvState recvSz recvSzBytes inbox s = Ok r0 ->
  monotoneStream (packetsOf evs) = true ->
  agreesWithFreshMarks (packetsOf evs) = true ->
  (run evs r0 <> Panicked CumulBelowMax /\
   run evs r0 <> Panicked CumulOutOfOrder) /\
  (forall evs1 evs2 r1 r2,
     evs = evs1 ++ evs2 -> run evs1 r0 = Running r1 ->
     finalState (run evs r0) = Some r2 ->
     LargestSeqnoRcvd r1 <= LargestSeqnoRcvd r2 /\
     MaxCumulBytesTrans r1 <= MaxCumulBytesTrans r2) /\
  (forall c more, run evs r0 = Panicked c -> run (evs ++ more) r0 = Panicked c).
Proof.
  intros Hnew Hmono Hbase. split; [|split].
  - apply (run_monotone (packetsOf evs)); try assumption.
    + apply incl_refl.
    + left. revert Hnew. unfold NewRecvState. destruct (_ <? _); [discriminate|].
      intros [= <-]. split; reflexivity.
  - intros evs1 evs2 r1 r2 -> H1. rewrite run_app, H1. apply run_marks_grow.
  - intros c more H. rewrite run_app, H. reflexivity.
Qed.

Lemma recv_monotone_stream_passes_assertions_witness :
  run Examples.lossyTrace Examples.fresh4 <> Panicked CumulBelowMax /\
  run Examples.lossyTrace Examples.fresh4 <> Panicked CumulOutOfOrder.
Proof.
  apply (recv_monotone_stream_passes_assertions 4 1000 "B" Examples.sender0);
    reflexivity.
Defined.
(** ** Further properties of the receiver *)













(** The marks after [updateMarks]: the largest sequence number seen, and
    the running total that came with it. *)
Lemma updateMarks_exact (pack : Packet) (r r' : RecvState) :
  updateMarks pack r = Ok r' ->
  LargestSeqnoRcvd r' = Z.max (LargestSeqnoRcvd r) (SeqNum pack) /\
  MaxCumulBytesTrans r'
    = (if SeqNum pack >? LargestSeqnoRcvd r then CumulBytesTransmitted pack
       else MaxCumulBytesTrans r).
Proof.
  unfold updateMarks.
  destruct (Z.gtb_spec (SeqNum pack) (LargestSeqnoRcvd r)); simpl.
  - destruct (Z.ltb_spec (CumulBytesTransmitted pack) (MaxCumulBytesTrans r));
      [discriminate|]. simpl.
    destruct (_ >? _); [discriminate|]. intros [= <-]. simpl. lia.
  - destruct (_ >? _); [discriminate|]. intros [= <-]. lia.
Qed.




(** X6. The sequence numbers of the window and the slots of the ring
    correspond one to one: every sequence number of the window
    [NextFrameExpected .. NextFrameExpected + RecvWindowSize - 1] has a slot
    of [Rxq], two of them never share one, and every slot is the slot of one
    of them. *)
Theorem window_slots_one_to_one (r : RecvState) :
  RecvInv r -> 0 < RecvWindowSize r ->
  NextFrameExpected r + RecvWindowSize r <= Int64.max_int ->
  let inWindow seqno :=
    InWindow seqno (NextFrameExpected r)
      (NextFrameExpected r +64 RecvWindowSize r -64 1) = true in
  (forall a, inWindow a ->
     exists slot, ringSlot r a = Ok slot /\ (slot < length (Rxq r))%nat) /\
  (forall a b, inWindow a -> inWindow b -> ringSlot r a = ringSlot r b -> a = b) /\
  (forall slot, (slot < length (Rxq r))%nat ->
     exists a, inWindow a /\ ringSlot r a = Ok slot).
Proof.
  intros I Hw Hroom inWindow. subst inWindow. cbv beta.
  pose proof (inv_nfe _ I) as Hn. pose proof (inv_rxq_len _ I) as Hlen.
  rewrite window_top, wrap_small
    by (unfold Int64.in_range, Int64.min_int, Int64.max_int in *; lia).
  split; [|split].
  - intros a Ha. apply InWindow_spec in Ha.
    destruct (ringSlot_ok r a Hw Hlen ltac:(lia)) as [H1 H2]. eauto.
  - intros a b Ha Hb. apply InWindow_spec in Ha, Hb.
    destruct (ringSlot_ok r a Hw Hlen ltac:(lia)) as [-> _].
    destruct (ringSlot_ok r b Hw Hlen ltac:(lia)) as [-> _].
    intros [= H]. unfold slotOf in H.
    assert (Hrem : Z.rem a (RecvWindowSize r) = Z.rem b (RecvWindowSize r)).
    { pose proof (Z.rem_nonneg a (RecvWindowSize r) ltac:(lia) ltac:(lia)).
      pose proof (Z.rem_nonneg b (RecvWindowSize r) ltac:(lia) ltac:(lia)). lia. }
    destruct (Z.le_gt_cases a b).
    + symmetry. apply (rem_window_inj (RecvWindowSize r)); try lia.
    + apply (rem_window_inj (RecvWindowSize r)); try lia.
  - intros slot Hslot.
    set (w := RecvWindowSize r) in *. set (n := NextFrameExpected r) in *.
    exists (n + (Z.of_nat slot - n) mod w).
    pose proof (Z.mod_pos_bound (Z.of_nat slot - n) w Hw) as Hb.
    split; [apply InWindow_spec; lia|].
    destruct (ringSlot_ok r (n + (Z.of_nat slot - n) mod w) Hw Hlen ltac:(lia))
      as [-> _].
    f_equal. unfold slotOf. fold w.
    rewrite Z.rem_mod_nonneg by lia.
    rewrite Zplus_mod_idemp_r.
    replace (n + (Z.of_nat slot - n)) with (Z.of_nat slot) by lia.
    rewrite Z.mod_small by lia. lia.
Qed.

Lemma window_slots_one_to_one_witness :
  (forall a b,
     InWindow a 1 4 = true -> InWindow b 1 4 = true ->
     ringSlot Examples.awaiting1 a = ringSlot Examples.awaiting1 b -> a = b) /\
  ringSlot Examples.awaiting1 4 = Ok 0%nat.
Proof.
  destruct (window_slots_one_to_one Examples.awaiting1) as (_ & H & _).
  - exact awaiting1_inv.
  - reflexivity.
  - vm_compute. discriminate.
  - split; [exact H|reflexivity].
Defined.



(** *** ASAP delivery *)

Lemma deliverInOrder_withoutAsap (fuel slot : nat) (r : RecvState) :
  deliverInOrder fuel slot (withoutAsap r)
  = mapOutcome withoutAsap (deliverInOrder fuel slot r).
Proof.
  revert slot r. induction fuel as [|fuel IH]; intros slot r;
    rewrite !deliverInOrder_unfold;
    change (Rxq (withoutAsap r)) with (Rxq r);
    (destruct (Rxq r !! slot) as [s|]; [|reflexivity]);
    (destruct (Received s); [|reflexivity]); [reflexivity|].
  change (walkTurn slot (Pack s) (withoutAsap r))
    with (withoutAsap (walkTurn slot (Pack s) r)).
  set (r1 := walkTurn slot (Pack s) r).
  change (NextFrameExpected (withoutAsap r1)) with (NextFrameExpected r1).
  change (ringSlot (withoutAsap r1) (NextFrameExpected r1))
    with (ringSlot r1 (NextFrameExpected r1)).
  destruct (ringSlot _ _) as [slot'|c]; [|reflexivity].
  apply IH.
Qed.

Lemma recvData_withoutAsap (pack : Packet) (r : RecvState) :
  recvData pack (withoutAsap r) = mapOutcome withoutAsap (recvData pack r).
Proof.
  rewrite !recvData_unfold. cbv zeta.
  assert (Eh : holdPacket pack (withoutAsap r) = withoutAsap (holdPacket pack r)).
  { unfold holdPacket. simpl. destruct (_ >=? _); reflexivity. }
  rewrite Eh. set (r1 := holdPacket pack r).
  change (ringSlot (withoutAsap r1) (SeqNum pack)) with (ringSlot r1 (SeqNum pack)).
  destruct (ringSlot _ _) as [slot|c]; [|reflexivity].
  change (NextFrameExpected (withoutAsap r1)) with (NextFrameExpected r1).
  change (RecvWindowSize (withoutAsap r1)) with (RecvWindowSize r1).
  destruct (negb _); [reflexivity|].
  destruct (_ =? _); [|reflexivity].
  change (storePacket slot pack (withoutAsap r1))
    with (withoutAsap (storePacket slot pack r1)).
  rewrite deliverInOrder_withoutAsap.
  change (Rxq (withoutAsap (storePacket slot pack r1)))
    with (Rxq (storePacket slot pack r1)).
  destruct (deliverInOrder _ _ _); reflexivity.
Qed.

Lemma offerAsap_withoutAsap (pack : Packet) (asel : AsapSel) (r r1 : RecvState) :
  offerAsap pack asel r = Some r1 -> withoutAsap r1 = withoutAsap r.
Proof.
  unfold offerAsap. destruct (AsapOn r), (asapHelper r), asel; intros [= <-]; reflexivity.
Qed.

Lemma updateMarks_withoutAsap (pack : Packet) (r : RecvState) :
  updateMarks pack (withoutAsap r)
  = match updateMarks pack r with
    | Ok r' => Ok (withoutAsap r')
    | Panic c => Panic c
    end.
Proof.
  unfold updateMarks. simpl.
  destruct (_ >? _); simpl.
  - destruct (_ <? _); simpl; [reflexivity|]. destruct (_ >? _); reflexivity.
  - destruct (_ >? _); reflexivity.
Qed.

Lemma cleanupOnExit_withoutAsap (r : RecvState) :
  withoutAsap (cleanupOnExit r) = withoutAsap r.
Proof. unfold cleanupOnExit. destruct (asapHelper r); reflexivity. Qed.

Lemma recvPacket_withoutAsap (pack : Packet) (asel : AsapSel) (gsel : GotAckSel)
    (r : RecvState) :
  asel <> AsapReqStop ->
  mapOutcome withoutAsap (recvPacket pack asel gsel r)
  = recvPacket pack AsapTimedOut gsel (withoutAsap r).
Proof.
  intros Hsel.
  rewrite !recvPacket_unfold.
  destruct (offerAsap_continues pack asel r Hsel) as [r1 H1]. rewrite H1.
  apply offerAsap_withoutAsap in H1. rewrite <- H1.
  change (offerAsap pack AsapTimedOut (withoutAsap r1)) with (Some (withoutAsap r1)).
  cbv iota beta. rewrite updateMarks_withoutAsap.
  destruct (updateMarks pack r1) as [r2|c]; [|reflexivity].
  destruct gsel.
  - cbv zeta. destruct (negb (AckOnly pack)); [|reflexivity].
    destruct (KeepAlive pack); [reflexivity|].
    change (tellSender pack (UpdateFlowControl (withoutAsap r2)))
      with (withoutAsap (tellSender pack (UpdateFlowControl r2))).
    rewrite recvData_withoutAsap. reflexivity.
  - simpl. rewrite cleanupOnExit_withoutAsap. reflexivity.
Qed.

Lemma deliver_withoutAsap (r : RecvState) :
  deliver (withoutAsap r) = mapOutcome withoutAsap (deliver r).
Proof.
  unfold deliver. simpl.
  destruct (ReadyForDelivery r) as [|[first|] rest]; try reflexivity.
  set (r1 := set_ReadMessagesCh _ r).
  change (set_ReadMessagesCh _ (withoutAsap r)) with (withoutAsap r1).
  generalize (Some first :: rest) as seq. clearbody r1. intros seq.
  assert (H : consumeDelivered seq (withoutAsap r1)
              = match consumeDelivered seq r1 with
                | Ok r' => Ok (withoutAsap r')
                | Panic c => Panic c
                end).
  { revert r1. induction seq as [|[p|] seq IH]; intros r1; simpl; try reflexivity.
    rewrite <- IH. reflexivity. }
  rewrite H. destruct (consumeDelivered seq r1); reflexivity.
Qed.

(** X8. As-soon-as-possible delivery has no effect on the rest of the
    session: with an ASAP client registered at any time, and whether its
    helper takes a packet or the time-out fires, the receiver ends, in
    everything but the helper and [AsapOn], as the receiver of the same
    session without ASAP client does (same window, history, deliveries to
    the consumer, acks, flow control and panics). *)
Theorem recv_asap_has_no_effect (evs : list Event) (r : RecvState) :
  noAsapStop evs = true ->
  mapOutcome withoutAsap (run evs r)
  = run (withoutAsapEvents evs) (withoutAsap r).
Proof.
  revert r. induction evs as [|ev evs IH]; intros r Hstop.
  - reflexivity.
  - destruct ev as [helper| | | |pack asel gsel].
    + simpl. rewrite IH by exact Hstop. f_equal.
      destruct (asapHelper r), helper; reflexivity.
    + simpl. rewrite IH by exact Hstop. reflexivity.
    + simpl. rewrite deliver_withoutAsap.
      destruct (deliver r) as [r'| | | |]; try reflexivity.
      simpl. apply IH. exact Hstop.
    + simpl. rewrite cleanupOnExit_withoutAsap. reflexivity.
    + assert (Hsel : asel <> AsapReqStop) by (destruct asel; simpl in Hstop; congruence).
      assert (Hstop' : noAsapStop evs = true) by (destruct asel; simpl in Hstop; congruence).
      simpl withoutAsapEvents. rewrite !run_cons. simpl recvloop.
      rewrite <- (recvPacket_withoutAsap pack asel gsel r Hsel).
      destruct (recvPacket pack asel gsel r) as [r'|r'|c| |]; try reflexivity.
      simpl. apply IH. exact Hstop'.
Qed.

Lemma recv_asap_has_no_effect_witness :
  mapOutcome withoutAsap (run MoreExamples.asapTrace Examples.fresh4)
  = run [ Examples.arrives (Examples.dataPacket 1 4 Examples.ab);
          Examples.arrives (Examples.dataPacket 0 2 Examples.ab);
          Deliver;
          Examples.arrives (Examples.dataPacket 2 6 Examples.ab) ] Examples.fresh4.
Proof.
  apply (recv_asap_has_no_effect MoreExamples.asapTrace Examples.fresh4).
  reflexivity.
Defined.

(** *** The acks the receiver sends *)

Lemma deliverInOrder_sender (fuel slot : nat) (r r' : RecvState) :
  deliverInOrder fuel slot r = Running r' -> snd r' = snd r /\ Inbox r' = Inbox r.
Proof.
  revert slot r. induction fuel as [|fuel IH]; intros slot r;
    rewrite deliverInOrder_unfold;
    (destruct (Rxq r !! slot) as [s|]; [|discriminate]);
    (destruct (Received s); [|intros [= <-]; auto]); [discriminate|].
  destruct (ringSlot _ _) as [slot'|c]; [|discriminate].
  intros H. apply IH in H. exact H.
Qed.

(** One pass of the data branch sends no ack or one, for the value of
    [NextFrameExpected] it leaves. *)
Lemma recvData_acks (pack : Packet) (r r' : RecvState) :
  finalState (recvData pack r) = Some r' ->
  Inbox r' = Inbox r /\ GotAck (snd r') = GotAck (snd r) /\
  (SendAck (snd r') = SendAck (snd r) \/
   exists a, SendAck (snd r') = SendAck (snd r) ++ [a] /\
             AckNum a = NextFrameExpected r' -64 1 /\ isAckOf (Inbox r) a).
Proof.
  rewrite recvData_unfold. cbv zeta.
  destruct (holdPacket_frame pack r) as (Es & Ei).
  destruct (ringSlot _ _) as [slot|c]; [|discriminate].
  destruct (negb _).
  - intros [= <-]. simpl. rewrite Es, Ei. split; [reflexivity|]. split; [reflexivity|].
    right. eexists. split; [reflexivity|]. repeat split. simpl. exact Ei.
  - destruct (_ =? _).
    + destruct (deliverInOrder _ _ _) as [r2| | | |] eqn:Hrun; try discriminate.
      * apply deliverInOrder_sender in Hrun as [Es2 Ei2]. simpl in Es2, Ei2.
        intros [= <-]. simpl. rewrite Es2, Ei2, Es, Ei.
        split; [reflexivity|]. split; [reflexivity|].
        right. eexists. split; [reflexivity|]. repeat split.
        simpl. rewrite Ei2. exact Ei.
      * exfalso. eapply deliverInOrder_not_Exited. exact Hrun.
    + intros [= <-]. simpl. rewrite Es, Ei. auto.
Qed.

Lemma recvPacket_acks (pack : Packet) (asel : AsapSel) (gsel : GotAckSel)
    (r r' : RecvState) :
  finalState (recvPacket pack asel gsel r) = Some r' ->
  Inbox r' = Inbox r /\
  (SendAck (snd r') = SendAck (snd r) \/
   exists a, SendAck (snd r') = SendAck (snd r) ++ [a] /\
             AckNum a = NextFrameExpected r' -64 1 /\ isAckOf (Inbox r) a).
Proof.
  rewrite recvPacket_unfold.
  destruct (offerAsap pack asel r) as [r1|] eqn:H1.
  2:{ intros [= <-]. unfold cleanupOnExit. destruct (asapHelper r); auto. }
  destruct (offerAsap_frame _ _ _ _ H1) as (Es1 & Ei1 & _).
  destruct (updateMarks pack r1) as [r2|] eqn:H2; [|discriminate].
  destruct (updateMarks_frame _ _ _ H2) as (Es2 & Ei2 & _).
  assert (E : SendAck (snd r2) = SendAck (snd r) /\ Inbox r2 = Inbox r)
    by (rewrite Es2, Es1, Ei2, Ei1; auto).
  destruct E as [Es Ei].
  destruct gsel.
  2:{ intros [= <-]. unfold cleanupOnExit.
      destruct (asapHelper _); simpl; rewrite Es, Ei; auto. }
  cbv zeta. destruct (negb (AckOnly pack)).
  2:{ intros [= <-]. simpl. rewrite Es, Ei. auto. }
  destruct (KeepAlive pack).
  - intros [= <-]. simpl. rewrite Es, Ei. split; [reflexivity|].
    right. eexists. split; [reflexivity|]. repeat split. simpl. exact Ei.
  - intros H. apply recvData_acks in H as (Hi & _ & H). simpl in Hi, H.
    rewrite Es, Ei in *. auto.
Qed.

Lemma recvloop_acks (ev : Event) (r r' : RecvState) :
  finalState (recvloop ev r) = Some r' ->
  Inbox r' = Inbox r /\
  (SendAck (snd r') = SendAck (snd r) \/
   exists a, SendAck (snd r') = SendAck (snd r) ++ [a] /\
             AckNum a = NextFrameExpected r' -64 1 /\ isAckOf (Inbox r) a).
Proof.
  destruct ev as [helper| | | |pack asel gsel]; simpl.
  - intros [= <-]. destruct (asapHelper r), helper; auto.
  - intros [= <-]. auto.
  - unfold deliver.
    destruct (ReadyForDelivery r) as [|[first|] rest]; try discriminate.
    destruct (consumeDelivered _ _) as [r1|] eqn:H1; [|discriminate].
    intros [= <-]. simpl.
    assert (H : forall seq q q1, consumeDelivered seq q = Ok q1 ->
                  snd q1 = snd q /\ Inbox q1 = Inbox q).
    { clear. induction seq as [|[p|] seq IH]; intros q q1; simpl.
      - intros [= <-]. auto.
      - intros H. apply IH in H. exact H.
      - discriminate. }
    apply H in H1 as [-> ->]. auto.
  - intros [= <-]. unfold cleanupOnExit. destruct (asapHelper r); auto.
  - apply recvPacket_acks.
Qed.

Lemma cumulative_snoc (acks : list Packet) (a : Packet) :
  cumulative acks -> Forall (fun b => AckNum b <= AckNum a) acks ->
  cumulative (acks ++ [a]).
Proof.
  intros Hc Hall i j x y Hij Hx Hy.
  destruct (decide (j < length acks)%nat) as [Hj|Hj].
  - rewrite lookup_app_l in Hx, Hy by lia. eauto.
  - rewrite lookup_app_r in Hy by lia.
    destruct (j - length acks)%nat eqn:E; [|destruct n; discriminate].
    injection Hy as <-.
    destruct (decide (i < length acks)%nat) as [Hi|Hi].
    + rewrite lookup_app_l in Hx by lia.
      rewrite Forall_lookup in Hall. eapply Hall. exact Hx.
    + rewrite lookup_app_r in Hx by lia.
      destruct (i - length acks)%nat eqn:E'; [|destruct n; discriminate].
      injection Hx as <-. lia.
Qed.

Lemma recvloop_ackLog (base acks : list Packet) (ev : Event) (r r' : RecvState) :
  RecvInv r -> ackLog base r acks ->
  finalState (recvloop ev r) = Some r' ->
  Z.of_nat (length (RecvHistory r')) <= Int64.max_int ->
  exists acks', ackLog base r' acks'.
Proof.
  intros I (Hlog & Hshape & Hcum & Hnum) Hrun Hlen.
  pose proof (recvloop_inv ev r r' I Hrun Hlen) as I'.
  pose proof (recvloop_history_grows ev r r' Hrun) as Hgrow.
  pose proof (inv_nfe _ I) as Hn. pose proof (inv_nfe _ I') as Hn'.
  destruct (recvloop_acks ev r r' Hrun) as [Hi [Hsame|(a & Ha & Hack & Hsh)]].
  - exists acks. split; [rewrite Hsame; exact Hlog|]. rewrite Hi.
    split; [exact Hshape|]. split; [exact Hcum|].
    eapply Forall_impl; [exact Hnum|]. cbv beta. intros; lia.
  - rewrite sub64_small in Hack
      by (unfold Int64.in_range, Int64.min_int, Int64.max_int in *; lia).
    exists (acks ++ [a]). split; [rewrite Ha, Hlog, app_assoc; reflexivity|].
    rewrite Hi. split; [apply Forall_app; split; [exact Hshape|constructor; [exact Hsh|constructor]]|].
    split.
    + apply cumulative_snoc; [exact Hcum|].
      eapply Forall_impl; [exact Hnum|]. cbv beta. intros; lia.
    + apply Forall_app. split.
      * eapply Forall_impl; [exact Hnum|]. cbv beta. intros; lia.
      * constructor; [lia|constructor].
Qed.

Lemma run_ackLog (base : list Packet) (evs : list Event) (r r' : RecvState)
    (acks : list Packet) :
  RecvInv r -> ackLog base r acks ->
  finalState (run evs r) = Some r' ->
  Z.of_nat (length (RecvHistory r')) <= Int64.max_int ->
  exists acks', ackLog base r' acks'.
Proof.
  revert r acks. induction evs as [|ev evs IH]; intros r acks I Hlog Hrun Hlen.
  - injection Hrun as <-. eauto.
  - rewrite run_cons in Hrun.
    destruct (recvloop ev r) as [r1|r1|c| |] eqn:Hstep; try discriminate.
    + assert (Hf : finalState (recvloop ev r) = Some r1) by (rewrite Hstep; reflexivity).
      assert (Hlen1 : Z.of_nat (length (RecvHistory r1)) <= Int64.max_int).
      { pose proof (run_history_grows evs r1 r' Hrun). lia. }
      destruct (recvloop_ackLog base acks ev r r1 I Hlog Hf Hlen1) as [acks1 Hlog1].
      apply (IH r1 acks1); try assumption.
      apply (recvloop_inv ev r r1 I Hf Hlen1).
    + injection Hrun as <-.
      apply (recvloop_ackLog base acks ev r r1 I Hlog); [rewrite Hstep; reflexivity|exact Hlen].
Qed.

(** X9. Acks are cumulative and never go backwards.  From a fresh receiver,
    over any trace, what the receiver has put on [SendAck] is a row of
    ack-only packets from its own inbox, numbered -99, without payload;
    each carries an [AckNum] from -1 up to the last sequence number
    delivered in order, and a later ack never carries a smaller [AckNum]
    than an earlier one. *)
Theorem recv_acks_cumulative
    (recvSz recvSzBytes : Z) (inbox : string) (s : SenderState)
    (r0 r : RecvState) (evs : list Event) :
  recvSz <= Int64.max_int ->
  NewRecvState recvSz recvSzBytes inbox s = Ok r0 ->
  finalState (run evs r0) = Some r ->
  Z.of_nat (length (RecvHistory r)) <= Int64.max_int ->
  exists acks,
    SendAck (snd r) = SendAck s ++ acks /\
    Forall (isAckOf inbox) acks /\
    cumulative acks /\
    Forall (fun a => -1 <= AckNum a < NextFrameExpected r) acks.
Proof.
  intros Hsz Hnew Hrun Hlen.
  pose proof (NewRecvState_inv _ _ _ _ _ Hsz Hnew) as I0.
  assert (Hlog0 : ackLog (SendAck s) r0 []).
  { revert Hnew. unfold NewRecvState. destruct (_ <? _); [discriminate|].
    intros [= <-]. split; [simpl; rewrite app_nil_r; reflexivity|].
    split; [constructor|]. split; [|constructor].
    intros i j a b _ Ha. discriminate. }
  destruct (run_ackLog _ evs r0 r [] I0 Hlog0 Hrun Hlen) as (acks & H1 & H2 & H3 & H4).
  exists acks. split; [exact H1|]. split; [|auto].
  assert (Hi : Inbox r = inbox).
  { clear - Hnew Hrun. assert (Hi0 : Inbox r0 = inbox).
    { revert Hnew. unfold NewRecvState. destruct (_ <? _); [discriminate|].
      intros [= <-]. reflexivity. }
    rewrite <- Hi0. clear Hi0 Hnew. revert r0 Hrun.
    induction evs as [|ev evs IH]; intros r0 Hrun.
    - injection Hrun as <-. reflexivity.
    - rewrite run_cons in Hrun.
      destruct (recvloop ev r0) as [r1|r1|c| |] eqn:Hstep; try discriminate.
      + rewrite (IH r1 Hrun).
        apply (recvloop_acks ev r0 r1). rewrite Hstep. reflexivity.
      + injection Hrun as <-. apply (recvloop_acks ev r0 r1). rewrite Hstep. reflexivity. }
  rewrite <- Hi. exact H2.
Qed.

Lemma recv_acks_cumulative_witness :
  exists acks,
    SendAck (snd (Examples.stateAfter Examples.lossyTrace Examples.fresh4)) = [] ++ acks /\
    Forall (isAckOf "B") acks /\ cumulative acks /\
    (AckNum <$> acks) = [0; 3; 3; 4].
Proof.
  destruct (recv_acks_cumulative 4 1000 "B" Examples.sender0 Examples.fresh4
              (Examples.stateAfter Examples.lossyTrace Examples.fresh4)
              Examples.lossyTrace) as (acks & H1 & H2 & H3 & _).
  - vm_compute. discriminate.
  - reflexivity.
  - vm_compute. reflexivity.
  - vm_compute. discriminate.
  - exists acks. split; [exact H1|]. split; [exact H2|]. split; [exact H3|].
    change (SendAck Examples.sender0 ++ acks) with acks in H1.
    rewrite <- H1. vm_compute. reflexivity.
Defined.

(** *** The map of held packets *)

Lemma sameHeld_refl (r : RecvState) : sameHeld r r.
Proof. split; [apply sameWindow_refl|]. repeat split. lia. Qed.

Lemma sameHeld_trans (r1 r2 r3 : RecvState) :
  sameHeld r1 r2 -> sameHeld r2 r3 -> sameHeld r1 r3.
Proof.
  intros (W1 & H1 & L1 & G1) (W2 & H2 & L2 & G2).
  split; [eapply sameWindow_trans; eassumption|].
  rewrite H2, H1, L2, L1. repeat split. lia.
Qed.

Lemma HeldInv_frame (r r' : RecvState) : sameHeld r r' -> HeldInv r -> HeldInv r'.
Proof.
  intros ((Ew & Eq & En & Eh & Em & Ed) & Eh' & El & Hg) [H1 H2 H3 H4 H5].
  constructor; rewrite ?Ed, ?En, ?Eh', ?El, ?Eq; try assumption; try lia.
  intros k s Hs Hr. destruct (H4 k s Hs Hr) as (p & Hp & Hm & Hle).
  exists p. repeat split; try assumption. lia.
Qed.

Lemma ack_sameHeld (seqno : Z) (dest : string) (r : RecvState) :
  sameHeld r (ack seqno dest r).
Proof. split; [apply ack_sameWindow|]. simpl. repeat split. lia. Qed.

Lemma cleanupOnExit_sameHeld (r : RecvState) : sameHeld r (cleanupOnExit r).
Proof.
  split; [apply cleanupOnExit_sameWindow|].
  unfold cleanupOnExit. destruct (asapHelper r); simpl; repeat split; lia.
Qed.

(** The way of a packet through [recvPacket], read off the state it
    leaves. *)
Lemma recvPacket_inversion (pack : Packet) (asel : AsapSel) (gsel : GotAckSel)
    (r r' : RecvState) :
  finalState (recvPacket pack asel gsel r) = Some r' ->
  (sameHeld r r' /\ recvPacket pack asel gsel r = Exited r') \/
  exists r3,
    sameHeld r r3 /\ SeqNum pack <= LargestSeqnoRcvd r3 /\
    ((AckOnly pack = true /\ r' = r3) \/
     (AckOnly pack = false /\ KeepAlive pack = true /\
      r' = ack (NextFrameExpected r3 -64 1) (From pack) r3) \/
     (AckOnly pack = false /\ KeepAlive pack = false /\
      finalState (recvData pack r3) = Some r')).
Proof.
  rewrite recvPacket_unfold.
  destruct (offerAsap pack asel r) as [r1|] eqn:H1.
  2:{ intros [= <-]. left. split; [apply cleanupOnExit_sameHeld|reflexivity]. }
  assert (S1 : sameHeld r r1).
  { split; [eapply offerAsap_sameWindow, H1|].
    destruct (offerAsap_sameMarks _ _ _ _ H1) as [El _].
    revert H1. unfold offerAsap.
    destruct (AsapOn r), (asapHelper r), asel; intros [= <-]; simpl; repeat split; lia. }
  destruct (updateMarks pack r1) as [r2|] eqn:H2; [|discriminate].
  assert (S2 : sameHeld r1 r2 /\ SeqNum pack <= LargestSeqnoRcvd r2).
  { pose proof (updateMarks_sameWindow _ _ _ H2) as W.
    pose proof (updateMarks_exact _ _ _ H2) as [El _].
    destruct (updateMarks_frame _ _ _ H2) as (_ & _ & Eh & _).
    assert (Ec : LastMsgConsumed r2 = LastMsgConsumed r1).
    { revert H2. unfold updateMarks. destruct (_ >? _); simpl.
      - destruct (_ <? _); [discriminate|]. simpl.
        destruct (_ >? _); [discriminate|]. intros [= <-]. reflexivity.
      - destruct (_ >? _); [discriminate|]. intros [= <-]. reflexivity. }
    split; [|lia]. split; [exact W|]. repeat split; try assumption. lia. }
  destruct S2 as [S2 Hle].
  pose proof (sameHeld_trans _ _ _ S1 S2) as S12.
  assert (S3 : sameHeld r (tellSender pack (UpdateFlowControl r2))).
  { eapply sameHeld_trans; [exact S12|].
    split; [|simpl; repeat split; lia].
    eapply sameWindow_trans; [apply UpdateFlowControl_sameWindow|apply tellSender_sameWindow]. }
  destruct gsel.
  2:{ intros [= <-]. left. split; [|reflexivity].
      eapply sameHeld_trans; [exact S12|].
      eapply sameHeld_trans; [|apply cleanupOnExit_sameHeld].
      split; [apply UpdateFlowControl_sameWindow|simpl; repeat split; lia]. }
  cbv zeta. intros H. right.
  exists (tellSender pack (UpdateFlowControl r2)).
  split; [exact S3|]. split; [exact Hle|].
  destruct (AckOnly pack); simpl in H.
  - left. injection H as <-. auto.
  - right. destruct (KeepAlive pack).
    + left. injection H as <-. auto.
    + right. auto.
Qed.

(** The packets ready for delivery are the last of the history. *)
Lemma ready_numbers (r : RecvState) (i : nat) (pp : PacketPtr) :
  RecvInv r -> ReadyForDelivery r !! i = Some pp ->
  exists p, pp = Some p /\
    SeqNum p = NextFrameExpected r - Z.of_nat (length (ReadyForDelivery r)) + Z.of_nat i.
Proof.
  intros I Hi. pose proof (inv_delivered _ I) as Hd.
  pose proof (inv_nfe _ I) as Hn.
  set (pre := concat (Seq <$> ReadMessagesCh r)) in *.
  assert (Hl : length (RecvHistory r) = (length pre + length (ReadyForDelivery r))%nat)
    by (rewrite <- Hd, length_app; reflexivity).
  assert (Hh : RecvHistory r !! (length pre + i)%nat = Some pp).
  { rewrite <- Hd, lookup_app_r by lia.
    replace (length pre + i - length pre)%nat with i by lia. exact Hi. }
  destruct (inv_history _ I _ _ Hh) as (p & -> & Hp).
  exists p. split; [reflexivity|]. lia.
Qed.

(** The walk keeps the map as it is and moves packets of the ring to
    [ReadyForDelivery]. *)
Lemma deliverInOrder_held (fuel : nat) (hi : Z) (r r' : RecvState) :
  WalkInv hi r -> hi <= Int64.max_int -> HeldInv r ->
  deliverInOrder fuel (slotOf (RecvWindowSize r) (NextFrameExpected r)) r = Running r' ->
  HeldInv r'.
Proof.
  revert r. induction fuel as [|fuel IH]; intros r W Hhi H;
    rewrite deliverInOrder_unfold;
    (destruct (Rxq r !! _) as [s|] eqn:Hs; [|discriminate]);
    (destruct (Received s) eqn:Hr; [|intros [= <-]; exact H]); [discriminate|].
  destruct (walk_slot_packet hi r s W Hs Hr) as (p & Hp & Hseq & Hlt).
  destruct (walkTurn_inv hi r s W Hs Hr ltac:(lia)) as [Hn1 W1].
  cbv zeta in Hn1, W1.
  set (r1 := walkTurn (slotOf (RecvWindowSize r) (NextFrameExpected r)) (Pack s) r) in *.
  assert (Ew : RecvWindowSize r1 = RecvWindowSize r) by reflexivity.
  pose proof (walk_window _ _ W) as Hw. pose proof (walk_nfe _ _ W) as H0.
  destruct (ringSlot_ok r1 (NextFrameExpected r1) ltac:(rewrite Ew; lia)
              (walk_rxq_len _ _ W1) ltac:(lia)) as [-> _].
  apply IH; [exact W1|exact Hhi|].
  destruct H as [H1 H2 H3 H4 H5].
  destruct (H4 _ _ Hs Hr) as (p' & Hp' & Hm & Hle).
  rewrite Hp in Hp'. injection Hp' as <-.
  constructor.
  - rewrite Hn1. subst r1. simpl. rewrite length_app. simpl. lia.
  - exact H2.
  - intros i pp. subst r1. simpl. intros Hi.
    destruct (decide (i < length (ReadyForDelivery r))%nat).
    + rewrite lookup_app_l in Hi by lia. eauto.
    + rewrite lookup_app_r in Hi by lia.
      destruct (i - length (ReadyForDelivery r))%nat; [|destruct n0; discriminate].
      injection Hi as <-. rewrite Hp. eauto.
  - intros k s' Hk Hr'. subst r1. simpl in Hk |- *.
    destruct (decide (k = slotOf (RecvWindowSize r) (NextFrameExpected r))) as [->|Hne].
    + rewrite list_lookup_insert_eq in Hk by (eapply lookup_lt_Some; exact Hs).
      injection Hk as <-. discriminate.
    + rewrite list_lookup_insert_ne in Hk by congruence. eauto.
  - rewrite Hn1. subst r1. simpl. lia.
Qed.

Lemma stored_held (pack : Packet) (r : RecvState) :
  RecvInv r -> HeldInv r ->
  NextFrameExpected r <= SeqNum pack < NextFrameExpected r + RecvWindowSize r ->
  SeqNum pack <= LargestSeqnoRcvd r ->
  HeldInv (storePacket (slotOf (RecvWindowSize r) (SeqNum pack)) pack
             (holdPacket pack r)).
Proof.
  intros I [H1 H2 H3 H4 H5] Hseq Hle.
  unfold storePacket, holdPacket.
  destruct (Z.geb_spec (SeqNum pack) (NextFrameExpected r)) as [_|]; [|lia].
  constructor; simpl.
  - exact H1.
  - intros k p. destruct (decide (k = SeqNum pack)) as [->|Hne].
    + rewrite lookup_insert_eq. intros [= <-]. split; [reflexivity|]. lia.
    + rewrite lookup_insert_ne by congruence. apply H2.
  - intros i pp Hi. destruct (ready_numbers r i pp I Hi) as (p & -> & Hp).
    destruct (H3 i _ Hi) as (p' & [= <-] & Hm).
    exists p. split; [reflexivity|].
    pose proof (lookup_lt_Some _ _ _ Hi).
    rewrite lookup_insert_ne by lia. exact Hm.
  - intros k s Hk Hr.
    destruct (decide (k = slotOf (RecvWindowSize r) (SeqNum pack))) as [->|Hne].
    + pose proof (lookup_lt_Some _ _ _ Hk) as Hlt. rewrite length_insert in Hlt.
      rewrite list_lookup_insert_eq in Hk by exact Hlt.
      injection Hk as <-. exists pack. rewrite lookup_insert_eq. auto.
    + rewrite list_lookup_insert_ne in Hk by congruence.
      destruct (H4 k s Hk Hr) as (p & Hp & Hm & Hl).
      destruct (inv_slots _ I k s Hk Hr) as (p' & Hp' & Hrange & Hrem).
      rewrite Hp in Hp'. injection Hp' as <-.
      exists p. split; [exact Hp|]. split; [|exact Hl].
      rewrite lookup_insert_ne; [exact Hm|].
      intros He. apply Hne. unfold slotOf. rewrite He, Hrem. lia.
  - exact H5.
Qed.

Lemma beyond_held (pack : Packet) (r : RecvState) :
  RecvInv r -> HeldInv r ->
  NextFrameExpected r + RecvWindowSize r <= SeqNum pack ->
  HeldInv (holdPacket pack r).
Proof.
  intros I [H1 H2 H3 H4 H5] Hseq.
  pose proof (inv_window _ I) as Hw.
  unfold holdPacket.
  destruct (Z.geb_spec (SeqNum pack) (NextFrameExpected r)) as [_|]; [|lia].
  constructor; simpl.
  - exact H1.
  - intros k p. destruct (decide (k = SeqNum pack)) as [->|Hne].
    + rewrite lookup_insert_eq. intros [= <-]. split; [reflexivity|]. lia.
    + rewrite lookup_insert_ne by congruence. apply H2.
  - intros i pp Hi. destruct (ready_numbers r i pp I Hi) as (p & -> & Hp).
    destruct (H3 i _ Hi) as (p' & [= <-] & Hm).
    exists p. split; [reflexivity|].
    pose proof (lookup_lt_Some _ _ _ Hi).
    rewrite lookup_insert_ne by lia. exact Hm.
  - intros k s Hk Hr.
    destruct (H4 k s Hk Hr) as (p & Hp & Hm & Hl).
    destruct (inv_slots _ I k s Hk Hr) as (p' & Hp' & Hrange & Hrem).
    rewrite Hp in Hp'. injection Hp' as <-.
    exists p. split; [exact Hp|]. split; [|exact Hl].
    rewrite lookup_insert_ne by lia. exact Hm.
  - exact H5.
Qed.

Lemma recvData_held (pack : Packet) (r r' : RecvState) :
  RecvInv r -> HeldInv r ->
  NextFrameExpected r + RecvWindowSize r <= Int64.max_int ->
  SeqNum pack <= LargestSeqnoRcvd r ->
  finalState (recvData pack r) = Some r' ->
  HeldInv r'.
Proof.
  intros I H Hroom Hle. rewrite recvData_unfold. cbv zeta.
  pose proof (inv_window _ I) as Hw. pose proof (inv_nfe _ I) as Hn.
  rewrite holdPacket_ringSlot.
  destruct (ringSlot r (SeqNum pack)) as [slot|c] eqn:Hslot; [|discriminate].
  apply ringSlot_Ok_inv in Hslot as (-> & Hlt & Hw0 & Hrem).
  destruct (holdPacket_sameWindow pack r) as (Ew & Eq & En & Eh & Em & Ed).
  rewrite En, Ew.
  rewrite window_top, wrap_small
    by (unfold Int64.in_range, Int64.min_int, Int64.max_int in *; lia).
  destruct (InWindow _ _ _) eqn:Hin; simpl negb; cbv iota.
  - apply InWindow_spec in Hin.
    assert (H2 : HeldInv (storePacket (slotOf (RecvWindowSize r) (SeqNum pack)) pack
                            (holdPacket pack r)))
      by (apply stored_held; try assumption; lia).
    destruct (Z.eqb_spec (SeqNum pack) (NextFrameExpected r)) as [Heq|Hne].
    + destruct (deliverInOrder _ _ _) as [r2| | | |] eqn:Hrun; try discriminate.
      * intros [= <-]. eapply HeldInv_frame; [apply ack_sameHeld|].
        eapply (deliverInOrder_held _ (NextFrameExpected r + RecvWindowSize r));
          [| |exact H2|].
        -- apply storePacket_WalkInv; try assumption; try lia.
           ++ apply ringSlot_ok; try lia. apply (inv_rxq_len _ I).
           ++ rewrite window_top, wrap_small
                by (unfold Int64.in_range, Int64.min_int, Int64.max_int in *; lia).
              apply InWindow_spec. lia.
        -- exact Hroom.
        -- replace (slotOf _ _) with (slotOf (RecvWindowSize r) (SeqNum pack));
             [exact Hrun|].
           unfold storePacket. simpl. rewrite Ew, En, Heq. reflexivity.
      * exfalso. eapply deliverInOrder_not_Exited. exact Hrun.
    + intros [= <-]. exact H2.
  - intros [= <-]. eapply HeldInv_frame; [apply ack_sameHeld|].
    apply (HeldInv_frame (holdPacket pack r)); [split; [repeat split|simpl; repeat split; lia]|].
    assert (Hout : ~ NextFrameExpected r <= SeqNum pack <= NextFrameExpected r + RecvWindowSize r - 1).
    { intros Hc. apply InWindow_spec in Hc. congruence. }
    destruct (Z.lt_ge_cases (SeqNum pack) (NextFrameExpected r)).
    + unfold holdPacket.
      destruct (Z.geb_spec (SeqNum pack) (NextFrameExpected r)); [lia|exact H].
    + apply beyond_held; try assumption. lia.
Qed.

(** A list of pointers none of which is nil. *)
Lemma all_Some {A : Type} (l : list (option A)) :
  (forall (i : nat) x, l !! i = Some x -> exists a, x = Some a) ->
  exists ps, l = Some <$> ps.
Proof.
  induction l as [|x l IH]; intros H.
  - exists []. reflexivity.
  - destruct (H 0%nat x eq_refl) as [a ->].
    destruct IH as [ps ->]; [intros i y Hy; apply (H (S i) y Hy)|].
    exists (a :: ps). reflexivity.
Qed.

(** What the loop over a batch does: the keys of its packets are deleted,
    and [LastMsgConsumed] is the number of the last one. *)
Lemma consumeDelivered_spec (ps : list Packet) (r : RecvState) :
  exists r',
    consumeDelivered (Some <$> ps) r = Ok r' /\
    sameWindow r r' /\ sameMarks r r' /\
    RcvdButNotConsumed r'
      = fold_left (fun m p => delete (SeqNum p) m) ps (RcvdButNotConsumed r) /\
    LastMsgConsumed r' = default (LastMsgConsumed r) (SeqNum <$> list.last ps).
Proof.
  revert r. induction ps as [|p ps IH]; intros r.
  - exists r. split; [reflexivity|]. split; [apply sameWindow_refl|].
    split; [apply sameMarks_refl|]. auto.
  - simpl consumeDelivered.
    destruct (IH (set_LastMsgConsumed (SeqNum p)
                    (set_RcvdButNotConsumed
                       (delete (SeqNum p) (RcvdButNotConsumed r)) r)))
      as (r' & Hrun & Hw & Hm & Hd & Hl).
    exists r'. split; [exact Hrun|]. split; [exact Hw|]. split; [exact Hm|].
    split; [exact Hd|]. rewrite Hl.
    destruct ps as [|p0 ps]; [reflexivity|].
    change (list.last (p :: p0 :: ps)) with (list.last (p0 :: ps)).
    destruct (list.last (p0 :: ps)) eqn:E; [reflexivity|].
    apply last_None in E. discriminate.
Qed.

Lemma lookup_deleted (ps : list Packet) (m : gmap Z Packet) (k : Z) :
  fold_left (fun m p => delete (SeqNum p) m) ps m !! k
  = if decide (k ∈ SeqNum <$> ps) then None else m !! k.
Proof.
  revert m. induction ps as [|p ps IH]; intros m.
  - cbn [fold_left]. rewrite decide_False; [reflexivity|]. intros Hin. inversion Hin.
  - simpl fold_left. rewrite IH. rewrite fmap_cons.
    destruct (decide (k ∈ SeqNum <$> ps)) as [Hin|Hnot].
    + rewrite decide_True by (right; exact Hin). reflexivity.
    + destruct (decide (k = SeqNum p)) as [->|Hne].
      * rewrite decide_True by left. apply lookup_delete_eq.
      * rewrite decide_False by (intros Hc; inversion Hc; subst; contradiction).
        apply lookup_delete_ne. congruence.
Qed.

Lemma deliver_held (r r' : RecvState) :
  RecvInv r -> HeldInv r -> finalState (deliver r) = Some r' -> HeldInv r'.
Proof.
  intros I [H1 H2 H3 H4 H5].
  destruct (all_Some (ReadyForDelivery r)) as [ps Hps].
  { intros i x Hx. destruct (ready_numbers r i x I Hx) as (p & -> & _). eauto. }
  assert (Hnum : forall (i : nat) p, ps !! i = Some p ->
            SeqNum p = NextFrameExpected r - Z.of_nat (length ps) + Z.of_nat i).
  { intros i p Hp.
    destruct (ready_numbers r i (Some p) I) as (p' & [= <-] & Hq).
    - rewrite Hps, list_lookup_fmap, Hp. reflexivity.
    - rewrite Hps, length_fmap in Hq. exact Hq. }
  rewrite Hps, length_fmap in H1.
  unfold deliver. rewrite Hps.
  destruct ps as [|first rest]; [discriminate|]. simpl fmap. cbv iota zeta.
  match goal with
  | |- context [consumeDelivered ?a ?b] =>
    change a with (Some <$> first :: rest);
    destruct (consumeDelivered_spec (first :: rest) b)
      as (r2 & Hc & (Ew & Eq & En & _) & (El & _) & Ed & Ec)
  end.
  rewrite Hc.
  intros [= <-]. simpl in Ew, Eq, En, El, Ec.
  change (RcvdButNotConsumed (set_ReadMessagesCh _ r)) with (RcvdButNotConsumed r) in Ed.
  assert (Hlast : default (LastMsgConsumed r) (SeqNum <$> list.last (first :: rest))
                  = NextFrameExpected r - 1).
  { destruct (list.last (first :: rest)) as [p|] eqn:Hp.
    - rewrite last_lookup in Hp. apply Hnum in Hp. simpl. rewrite Hp.
      simpl length. lia.
    - apply last_None in Hp. discriminate. }
  constructor; simpl; rewrite ?En, ?Eq, ?El, ?Ec, ?Ed, ?Hlast.
  - lia.
  - intros k p. rewrite lookup_deleted.
    destruct (decide _) as [|Hnot]; [discriminate|]. intros Hk.
    destruct (H2 k p Hk) as [Hs Hlt]. split; [exact Hs|].
    destruct (Z.lt_ge_cases k (NextFrameExpected r)); [|lia].
    exfalso. apply Hnot.
    set (n := length (first :: rest)) in *.
    assert (Hi : (Z.to_nat (k - (NextFrameExpected r - Z.of_nat n)) < n)%nat) by lia.
    apply lookup_lt_is_Some in Hi as [p' Hp'].
    apply list_elem_of_lookup. exists (Z.to_nat (k - (NextFrameExpected r - Z.of_nat n))).
    rewrite list_lookup_fmap, Hp'. simpl. f_equal.
    rewrite (Hnum _ _ Hp'). fold n. lia.
  - intros i pp Hi. discriminate.
  - intros k s Hk Hr. destruct (H4 k s Hk Hr) as (p & Hp & Hm & Hl).
    destruct (inv_slots _ I k s Hk Hr) as (p' & Hp' & Hrange & Hrem).
    rewrite Hp in Hp'. injection Hp' as <-.
    exists p. split; [exact Hp|]. split; [|exact Hl].
    rewrite lookup_deleted. rewrite decide_False; [exact Hm|].
    intros Hin. apply list_elem_of_lookup in Hin as [i Hi].
    rewrite list_lookup_fmap in Hi.
    destruct ((first :: rest) !! i) as [q|] eqn:Hq; [|discriminate].
    injection Hi as Hi. pose proof (Hnum _ _ Hq).
    apply lookup_lt_Some in Hq. lia.
  - exact H5.
Qed.

Lemma recvloop_held (ev : Event) (r r' : RecvState) :
  RecvInv r -> HeldInv r ->
  NextFrameExpected r + RecvWindowSize r <= Int64.max_int ->
  finalState (recvloop ev r) = Some r' ->
  HeldInv r'.
Proof.
  intros I H Hroom.
  destruct ev as [helper| | | |pack asel gsel]; simpl.
  - intros [= <-]. eapply HeldInv_frame; [|exact H].
    split; [|destruct (asapHelper r), helper; simpl; repeat split; lia].
    destruct (asapHelper r), helper; repeat split.
  - intros [= <-]. eapply HeldInv_frame; [|exact H].
    split; [repeat split|simpl; repeat split; lia].
  - apply deliver_held; assumption.
  - intros [= <-]. eapply HeldInv_frame; [apply cleanupOnExit_sameHeld|exact H].
  - intros Hrun. apply recvPacket_inversion in Hrun
      as [[S _]|(r3 & S & Hle & [[_ ->]|[(_ & _ & ->)|(_ & _ & Hdata)]])].
    + eapply HeldInv_frame; eassumption.
    + eapply HeldInv_frame; eassumption.
    + eapply HeldInv_frame; [apply ack_sameHeld|]. eapply HeldInv_frame; eassumption.
    + pose proof S as ((Ew & Eq & En & _) & _).
      apply (recvData_held pack r3); try assumption.
      * eapply RecvInv_frame; [apply S|exact I].
      * eapply HeldInv_frame; eassumption.
      * rewrite En, Ew. exact Hroom.
Qed.

(** What no pass of the loop writes, and what only a handoff writes. *)
Lemma deliverInOrder_walkFrame (fuel slot : nat) (r r' : RecvState) :
  deliverInOrder fuel slot r = Running r' -> walkFrame r r'.
Proof.
  revert slot r. induction fuel as [|fuel IH]; intros slot r;
    rewrite deliverInOrder_unfold;
    (destruct (Rxq r !! slot) as [s|]; [|discriminate]);
    (destruct (Received s); [|intros [= <-]; apply walkFrame_refl]); [discriminate|].
  destruct (ringSlot _ _) as [slot'|c]; [|discriminate].
  intros H. eapply walkFrame_turn, IH, H.
Qed.

Lemma recvData_frame (pack : Packet) (r r' : RecvState) :
  finalState (recvData pack r) = Some r' ->
  RecvWindowSize r' = RecvWindowSize r /\ ReadMessagesCh r' = ReadMessagesCh r.
Proof.
  rewrite recvData_unfold. cbv zeta.
  destruct (holdPacket_sameWindow pack r) as (Ew & _ & _ & _ & Em & _).
  destruct (ringSlot _ _) as [slot|c]; [|discriminate].
  destruct (negb _); [intros [= <-]; simpl; auto|].
  destruct (_ =? _); [|intros [= <-]; simpl; auto].
  destruct (deliverInOrder _ _ _) as [r2| | | |] eqn:Hrun; try discriminate.
  - apply deliverInOrder_walkFrame, walkFrame_channels in Hrun as (Em2 & Ew2 & _).
    intros [= <-]. simpl. rewrite Ew2, Em2. simpl. auto.
  - exfalso. eapply deliverInOrder_not_Exited. exact Hrun.
Qed.

Lemma recvloop_frame (ev : Event) (r r' : RecvState) :
  finalState (recvloop ev r) = Some r' ->
  RecvWindowSize r' = RecvWindowSize r /\
  (ReadMessagesCh r' = ReadMessagesCh r \/
   ReadyForDelivery r <> [] /\ ReadyForDelivery r' = [] /\
   ReadMessagesCh r' = ReadMessagesCh r ++ [mkInOrderSeq (ReadyForDelivery r)]).
Proof.
  destruct ev as [helper| | | |pack asel gsel]; simpl.
  - intros [= <-]. destruct (asapHelper r), helper; auto.
  - intros [= <-]. auto.
  - unfold deliver.
    destruct (ReadyForDelivery r) as [|[first|] rest] eqn:Hready; try discriminate.
    destruct (consumeDelivered _ _) as [r1|] eqn:H1; [|discriminate].
    apply consumeDelivered_sameWindow in H1 as (Ew & _ & _ & _ & Em & _).
    intros [= <-]. simpl. rewrite Ew, Em. split; [reflexivity|]. right.
    split; [discriminate|]. auto.
  - intros [= <-]. destruct (cleanupOnExit_sameWindow r) as (Ew & _ & _ & _ & Em & _). auto.
  - intros Hrun. apply recvPacket_inversion in Hrun
      as [[S _]|(r3 & S & _ & [[_ ->]|[(_ & _ & ->)|(_ & _ & Hdata)]])];
      destruct S as ((Ew & _ & _ & _ & Em & _) & _).
    + auto.
    + auto.
    + simpl. auto.
    + apply recvData_frame in Hdata as [Ew' Em']. rewrite Ew', Em'. auto.
Qed.

Lemma run_window_size (evs : list Event) (r r' : RecvState) :
  finalState (run evs r) = Some r' -> RecvWindowSize r' = RecvWindowSize r.
Proof.
  revert r. induction evs as [|ev evs IH]; intros r Hrun.
  - injection Hrun as <-. reflexivity.
  - rewrite run_cons in Hrun.
    destruct (recvloop ev r) as [r1|r1|c| |] eqn:Hstep; try discriminate.
    + rewrite (IH r1 Hrun). apply (recvloop_frame ev). rewrite Hstep. reflexivity.
    + injection Hrun as <-. apply (recvloop_frame ev). rewrite Hstep. reflexivity.
Qed.

Lemma run_held (evs : list Event) (r r' : RecvState) :
  RecvInv r -> HeldInv r ->
  finalState (run evs r) = Some r' ->
  Z.of_nat (length (RecvHistory r')) + RecvWindowSize r <= Int64.max_int ->
  HeldInv r'.
Proof.
  revert r. induction evs as [|ev evs IH]; intros r I H Hrun Hlen.
  - injection Hrun as <-. exact H.
  - rewrite run_cons in Hrun.
    pose proof (inv_window _ I) as Hw. pose proof (inv_nfe _ I) as Hn.
    destruct (recvloop ev r) as [r1|r1|c| |] eqn:Hstep; try discriminate.
    + assert (Hf : finalState (recvloop ev r) = Some r1) by (rewrite Hstep; reflexivity).
      pose proof (run_history_grows evs r1 r' Hrun) as Hg1.
      pose proof (recvloop_history_grows ev r r1 Hf) as Hg0.
      destruct (recvloop_frame ev r r1 Hf) as [Ew _].
      apply (IH r1); try assumption.
      * apply (recvloop_inv ev r r1 I Hf). lia.
      * apply (recvloop_held ev r r1 I H); [lia|exact Hf].
      * rewrite Ew. exact Hlen.
    + injection Hrun as <-.
      assert (Hf : finalState (recvloop ev r) = Some r1) by (rewrite Hstep; reflexivity).
      pose proof (recvloop_history_grows ev r r1 Hf) as Hg0.
      apply (recvloop_held ev r r1 I H); [lia|exact Hf].
Qed.

Lemma NewRecvState_held (recvSz recvSzBytes : Z) (inbox : string) (s : SenderState)
    (r : RecvState) :
  NewRecvState recvSz recvSzBytes inbox s = Ok r -> HeldInv r.
Proof.
  unfold NewRecvState. destruct (_ <? _); [discriminate|]. intros [= <-].
  constructor; simpl; try reflexivity; try discriminate.
  - intros k s0 Hk Hr. apply lookup_replicate in Hk as [-> _]. discriminate.
Qed.

(** X10. [RcvdButNotConsumed] holds what its name says.  From a fresh
    receiver, over any trace: every packet ready for the consumer and every
    packet waiting in a slot of the ring is in the map under its sequence
    number; every key of the map is the sequence number of its packet and
    lies above [LastMsgConsumed]; and [LastMsgConsumed] is the number just
    below the packets ready for delivery. *)
Theorem recv_held_until_consumed
    (recvSz recvSzBytes : Z) (inbox : string) (s : SenderState)
    (r0 r : RecvState) (evs : list Event) :
  NewRecvState recvSz recvSzBytes inbox s = Ok r0 ->
  finalState (run evs r0) = Some r ->
  Z.of_nat (length (RecvHistory r)) + recvSz <= Int64.max_int ->
  (forall (i : nat) pp, ReadyForDelivery r !! i = Some pp ->
     exists p, pp = Some p /\ RcvdButNotConsumed r !! SeqNum p = Some p) /\
  (forall (k : nat) slot, Rxq r !! k = Some slot -> Received slot = true ->
     exists p, Pack slot = Some p /\ RcvdButNotConsumed r !! SeqNum p = Some p) /\
  (forall k p, RcvdButNotConsumed r !! k = Some p ->
     SeqNum p = k /\ LastMsgConsumed r < k) /\
  LastMsgConsumed r
    = NextFrameExpected r - Z.of_nat (length (ReadyForDelivery r)) - 1.
Proof.
  intros Hnew Hrun Hlen.
  assert (Hw : RecvWindowSize r0 = recvSz /\ 0 <= recvSz).
  { revert Hnew. unfold NewRecvState. destruct (Z.ltb_spec recvSz 0); [discriminate|].
    intros [= <-]. auto. }
  destruct Hw as [Hw Hpos].
  destruct (run_held evs r0 r) as [H1 H2 H3 H4 H5]; try assumption.
  - apply (NewRecvState_inv recvSz recvSzBytes inbox s r0 ltac:(lia) Hnew).
  - apply (NewRecvState_held _ _ _ _ _ Hnew).
  - rewrite Hw. exact Hlen.
  - split; [exact H3|]. split; [|auto].
    intros k slot Hk Hr. destruct (H4 k slot Hk Hr) as (p & Hp & Hm & _). eauto.
Qed.

Lemma recv_held_until_consumed_witness :
  let r := Examples.stateAfter (take 6 Examples.lossyTrace) Examples.fresh4 in
  ReadyForDelivery r
    = [Some (Examples.dataPacket 1 4 Examples.ab);
       Some (Examples.dataPacket 2 6 Examples.ab);
       Some (Examples.dataPacket 3 8 Examples.ab)] /\
  (forall (i : nat) pp, ReadyForDelivery r !! i = Some pp ->
     exists p, pp = Some p /\ RcvdButNotConsumed r !! SeqNum p = Some p) /\
  LastMsgConsumed r = 0.
Proof.
  cbv zeta.
  destruct (recv_held_until_consumed 4 1000 "B" Examples.sender0 Examples.fresh4
              (Examples.stateAfter (take 6 Examples.lossyTrace) Examples.fresh4)
              (take 6 Examples.lossyTrace)) as (H1 & _ & _ & H4).
  - reflexivity.
  - vm_compute. reflexivity.
  - vm_compute. discriminate.
  - split; [vm_compute; reflexivity|]. split; [exact H1|].
    rewrite H4. vm_compute. reflexivity.
Defined.

(** X11. The message window the receiver advertises.  From a fresh
    receiver, over any trace, [UpdateFlowControl] sets
    [LastAvailReaderMsgCap] to the window size, less the messages ready for
    the consumer, less the distance from the in-order prefix to the largest
    sequence number seen; so it never advertises more than
    [RecvWindowSize]. *)
Theorem recv_advertised_window_bounded
    (recvSz recvSzBytes : Z) (inbox : string) (s : SenderState)
    (r0 r : RecvState) (evs : list Event) :
  NewRecvState recvSz recvSzBytes inbox s = Ok r0 ->
  finalState (run evs r0) = Some r ->
  Z.of_nat (length (RecvHistory r)) + recvSz <= Int64.max_int ->
  LargestSeqnoRcvd r < Int64.max_int ->
  LastAvailReaderMsgCap (UpdateFlowControl r)
    = recvSz - Z.of_nat (length (ReadyForDelivery r))
      - (LargestSeqnoRcvd r - (NextFrameExpected r - 1)) /\
  NextFrameExpected r - 1 <= LargestSeqnoRcvd r /\
  LastAvailReaderMsgCap (UpdateFlowControl r) <= recvSz.
Proof.
  intros Hnew Hrun Hlen Hmax.
  assert (Hw : RecvWindowSize r0 = recvSz /\ 0 <= recvSz).
  { revert Hnew. unfold NewRecvState. destruct (Z.ltb_spec recvSz 0); [discriminate|].
    intros [= <-]. auto. }
  destruct Hw as [Hw Hpos].
  pose proof (NewRecvState_inv recvSz recvSzBytes inbox s r0 ltac:(lia) Hnew) as I0.
  assert (I : RecvInv r) by (apply (run_inv evs r0 r I0 Hrun); lia).
  destruct (run_held evs r0 r) as [H1 H2 H3 H4 H5]; try assumption.
  - apply (NewRecvState_held _ _ _ _ _ Hnew).
  - rewrite Hw. exact Hlen.
  - pose proof (run_window_size evs r0 r Hrun) as Ew. rewrite Hw in Ew.
    pose proof (inv_nfe _ I) as Hn. pose proof (inv_delivered _ I) as Hd.
    apply (f_equal (@length _)) in Hd. rewrite length_app in Hd.
    simpl. rewrite Ew, H1.
    rewrite !sub64_small
      by (rewrite ?sub64_small;
          unfold Int64.in_range, Int64.min_int, Int64.max_int in *; lia).
    lia.
Qed.

Lemma recv_advertised_window_bounded_witness :
  LastAvailReaderMsgCap
    (UpdateFlowControl (Examples.stateAfter (take 6 Examples.lossyTrace) Examples.fresh4))
  = 1.
Proof.
  destruct (recv_advertised_window_bounded 4 1000 "B" Examples.sender0 Examples.fresh4
              (Examples.stateAfter (take 6 Examples.lossyTrace) Examples.fresh4)
              (take 6 Examples.lossyTrace)) as (H1 & _ & _).
  - reflexivity.
  - vm_compute. reflexivity.
  - vm_compute. discriminate.
  - vm_compute. reflexivity.
  - rewrite H1. vm_compute. reflexivity.
Defined.

(** *** Handing the packets to the consumer *)

Lemma run_batches_nonempty (evs : list Event) (r r' : RecvState) :
  Forall (fun b => Seq b <> []) (ReadMessagesCh r) ->
  finalState (run evs r) = Some r' ->
  Forall (fun b => Seq b <> []) (ReadMessagesCh r').
Proof.
  revert r. induction evs as [|ev evs IH]; intros r H Hrun.
  - injection Hrun as <-. exact H.
  - rewrite run_cons in Hrun.
    assert (Hstep : forall r1, finalState (recvloop ev r) = Some r1 ->
              Forall (fun b => Seq b <> []) (ReadMessagesCh r1)).
    { intros r1 Hf. destruct (recvloop_frame ev r r1 Hf) as [_ [->|(Hne & _ & ->)]];
        [exact H|].
      apply Forall_app. split; [exact H|]. constructor; [exact Hne|constructor]. }
    destruct (recvloop ev r) as [r1|r1|c| |] eqn:E; try discriminate.
    + apply (IH r1); [apply Hstep; reflexivity|exact Hrun].
    + injection Hrun as <-. apply Hstep. reflexivity.
Qed.

(** X12. The consumer never reads an empty batch: from a fresh receiver,
    over any trace, every batch sent on [ReadMessagesCh] holds at least one
    packet, and none of its entries is nil; the handoff is not offered to
    the [select] while nothing is ready for delivery. *)
Theorem recv_batches_nonempty
    (recvSz recvSzBytes : Z) (inbox : string) (s : SenderState)
    (r0 r : RecvState) (evs : list Event) :
  recvSz <= Int64.max_int ->
  NewRecvState recvSz recvSzBytes inbox s = Ok r0 ->
  finalState (run evs r0) = Some r ->
  Z.of_nat (length (RecvHistory r)) <= Int64.max_int ->
  Forall (fun b => Seq b <> [] /\ Forall (fun pp => pp <> None) (Seq b))
    (ReadMessagesCh r) /\
  (ReadyForDelivery r = [] <-> recvloop Deliver r = NotEnabled).
Proof.
  intros Hsz Hnew Hrun Hlen.
  pose proof (NewRecvState_inv _ _ _ _ _ Hsz Hnew) as I0.
  pose proof (run_inv evs r0 r I0 Hrun Hlen) as I.
  split.
  - assert (H0 : Forall (fun b => Seq b <> []) (ReadMessagesCh r0)).
    { revert Hnew. unfold NewRecvState. destruct (_ <? _); [discriminate|].
      intros [= <-]. constructor. }
    pose proof (run_batches_nonempty evs r0 r H0 Hrun) as Hne.
    rewrite Forall_lookup in Hne. apply Forall_lookup. intros j b Hb.
    split; [apply (Hne j b Hb)|].
    apply Forall_lookup. intros i pp Hpp ->.
    pose proof (inv_delivered _ I) as Hd.
    assert (Hin : None ∈ RecvHistory r).
    { rewrite <- Hd. apply elem_of_app. left.
      apply list_elem_of_In, in_concat. exists (Seq b). split.
      - apply list_elem_of_In, list_elem_of_fmap. exists b. split; [reflexivity|].
        eapply list_elem_of_lookup_2. exact Hb.
      - apply list_elem_of_In. eapply list_elem_of_lookup_2. exact Hpp. }
    apply list_elem_of_lookup in Hin as [n Hn].
    destruct (inv_history _ I n None Hn) as (p & Hp & _). discriminate.
  - simpl. unfold deliver.
    destruct (ReadyForDelivery r) as [|[first|] rest]; [tauto| |split; discriminate].
    destruct (consumeDelivered _ _); split; discriminate.
Qed.

Lemma recv_batches_nonempty_witness :
  (Seq <$> ReadMessagesCh (Examples.stateAfter Examples.lossyTrace Examples.fresh4))
  = [ [Some (Examples.dataPacket 0 2 Examples.ab)];
      [Some (Examples.dataPacket 1 4 Examples.ab);
       Some (Examples.dataPacket 2 6 Examples.ab);
       Some (Examples.dataPacket 3 8 Examples.ab)] ] /\
  Forall (fun b => Seq b <> [] /\ Forall (fun pp => pp <> None) (Seq b))
    (ReadMessagesCh (Examples.stateAfter Examples.lossyTrace Examples.fresh4)).
Proof.
  split; [vm_compute; reflexivity|].
  apply (recv_batches_nonempty 4 1000 "B" Examples.sender0 Examples.fresh4
           (Examples.stateAfter Examples.lossyTrace Examples.fresh4)
           Examples.lossyTrace).
  - vm_compute. discriminate.
  - reflexivity.
  - vm_compute. reflexivity.
  - vm_compute. discriminate.
Defined.

(** X13. The handoff to the consumer.  At the top of the loop of a receiver
    run from fresh, with packets ready: the whole of [ReadyForDelivery] goes
    to the consumer as one batch and the queue is emptied;
    [LastMsgConsumed] becomes [NextFrameExpected - 1]; the keys below
    [NextFrameExpected] leave [RcvdButNotConsumed] and the others stay;
    the window and the history are not touched; and [LastByteConsumed] is
    set from the first packet of the batch, to its running total less the
    length of its payload. *)
Theorem recv_handoff
    (recvSz recvSzBytes : Z) (inbox : string) (s : SenderState)
    (r0 r : RecvState) (evs : list Event) (first : Packet) (rest : list PacketPtr) :
  NewRecvState recvSz recvSzBytes inbox s = Ok r0 ->
  run evs r0 = Running r ->
  Z.of_nat (length (RecvHistory r)) + recvSz <= Int64.max_int ->
  ReadyForDelivery r = Some first :: rest ->
  exists r',
    recvloop Deliver r = Running r' /\
    ReadMessagesCh r' = ReadMessagesCh r ++ [mkInOrderSeq (Some first :: rest)] /\
    ReadyForDelivery r' = [] /\
    LastMsgConsumed r' = NextFrameExpected r - 1 /\
    (forall k p, RcvdButNotConsumed r' !! k = Some p <->
                 RcvdButNotConsumed r !! k = Some p /\ NextFrameExpected r <= k) /\
    LastByteConsumed r'
      = CumulBytesTransmitted first -64 Z.of_nat (length (Data first)) /\
    NextFrameExpected r' = NextFrameExpected r /\ Rxq r' = Rxq r /\
    RecvHistory r' = RecvHistory r.
Proof.
  intros Hnew Hrun Hlen Hready.
  assert (Hw : RecvWindowSize r0 = recvSz /\ 0 <= recvSz).
  { revert Hnew. unfold NewRecvState. destruct (Z.ltb_spec recvSz 0); [discriminate|].
    intros [= <-]. auto. }
  destruct Hw as [Hw Hpos].
  assert (Hf : finalState (run evs r0) = Some r) by (rewrite Hrun; reflexivity).
  pose proof (NewRecvState_inv recvSz recvSzBytes inbox s r0 ltac:(lia) Hnew) as I0.
  assert (I : RecvInv r) by (apply (run_inv evs r0 r I0 Hf); lia).
  assert (H : HeldInv r).
  { apply (run_held evs r0 r I0 (NewRecvState_held _ _ _ _ _ Hnew) Hf).
    rewrite Hw. exact Hlen. }
  destruct (all_Some (ReadyForDelivery r)) as [ps Hps].
  { intros i x Hx. destruct (ready_numbers r i x I Hx) as (p & -> & _). eauto. }
  assert (Hnum : forall (i : nat) p, ps !! i = Some p ->
            SeqNum p = NextFrameExpected r - Z.of_nat (length ps) + Z.of_nat i).
  { intros i p Hp.
    destruct (ready_numbers r i (Some p) I) as (p' & [= <-] & Hq).
    - rewrite Hps, list_lookup_fmap, Hp. reflexivity.
    - rewrite Hps, length_fmap in Hq. exact Hq. }
  simpl recvloop. unfold deliver. rewrite Hready. cbv iota zeta.
  match goal with
  | |- context [consumeDelivered ?a ?b] =>
    replace a with (Some <$> ps) by (rewrite <- Hps; exact Hready);
    destruct (consumeDelivered_spec ps b)
      as (r2 & Hc & (Ew & Eq & En & Eh & _) & _ & Ed & Ec)
  end.
  rewrite Hc. eexists. split; [reflexivity|].
  simpl in Ew, Eq, En, Eh, Ec.
  change (RcvdButNotConsumed (set_ReadMessagesCh _ r)) with (RcvdButNotConsumed r) in Ed.
  assert (Hr' : HeldInv (set_ReadyForDelivery []
                  (set_LastByteConsumed
                     (CumulBytesTransmitted first -64 Z.of_nat (length (Data first))) r2))).
  { apply (deliver_held r); [exact I|exact H|].
    unfold deliver. rewrite Hready. cbv iota zeta.
    match goal with
    | |- context [consumeDelivered ?a ?b] =>
      replace a with (Some <$> ps) by (rewrite <- Hps; exact Hready)
    end.
    rewrite Hc. reflexivity. }
  pose proof (held_last _ Hr') as Hl. simpl in Hl. rewrite En in Hl.
  simpl. rewrite En, Eq, Eh, Ed.
  pose proof (consumeDelivered_sameWindow _ _ _ Hc) as (_ & _ & _ & _ & Em & _).
  simpl in Em. rewrite Em.
  repeat split; try reflexivity; try lia.
  - rewrite lookup_deleted in H0. destruct (decide _); [discriminate|exact H0].
  - pose proof (held_keys _ Hr' k p) as Hk. simpl in Hk. rewrite Ed in Hk.
    destruct (Hk H0) as [_ Hlt]. lia.
  - intros [Hk Hle]. rewrite lookup_deleted. rewrite decide_False; [exact Hk|].
    intros Hin. apply list_elem_of_lookup in Hin as [i Hi].
    rewrite list_lookup_fmap in Hi.
    destruct (ps !! i) as [q|] eqn:Hq; [|discriminate].
    injection Hi as Hi. pose proof (Hnum _ _ Hq).
    apply lookup_lt_Some in Hq. lia.
Qed.

Lemma recv_handoff_witness :
  exists r',
    recvloop Deliver Examples.twoReady = Running r' /\
    ReadyForDelivery r' = [] /\
    LastMsgConsumed r' = 1 /\
    LastByteConsumed r' = 0.
Proof.
  destruct (recv_handoff 4 1000 "B" Examples.sender0 Examples.fresh4 Examples.twoReady
              [ Examples.arrives (Examples.dataPacket 0 2 Examples.ab);
                Examples.arrives (Examples.dataPacket 1 4 Examples.ab) ]
              (Examples.dataPacket 0 2 Examples.ab)
              [Some (Examples.dataPacket 1 4 Examples.ab)])
    as (r' & Hrun & _ & Hr & Hl & _ & Hb & _).
  - reflexivity.
  - vm_compute. reflexivity.
  - vm_compute. discriminate.
  - vm_compute. reflexivity.
  - exists r'. split; [exact Hrun|]. split; [exact Hr|].
    split; [rewrite Hl|rewrite Hb]; vm_compute; reflexivity.
Defined.
(** ** Further properties of the simulated network *)

Lemma sendOn_TotalSent (ch : Chan) (pack : Packet) (random : Z) (sim : SimNet) :
  TotalSent (sendOn ch pack random sim).1.1 = TotalSent sim.
Proof.
  unfold sendOn. destruct (_ =? _); [reflexivity|].
  destruct (_ && _); [reflexivity|].
  destruct (heldBack sim); simpl; destruct (DuplicateNext sim); reflexivity.
Qed.

Lemma sendTo_TotalSent (pack : Packet) (random : Z) (sim : SimNet) :
  TotalSent (sendTo pack random sim).1.1 = TotalSent sim.
Proof.
  unfold sendTo. destruct (Net sim !! Dest pack) as [ch|]; [|reflexivity].
  destruct (_ =? 0); [apply sendOn_TotalSent|].
  destruct (_ =? 1); [reflexivity|].
  apply (sendOn_TotalSent ch pack random (set_reorder 0 _ sim)).
Qed.

Lemma simRun_TotalSent (a : string) (ops : list SimOp) (sim : SimNet) :
  Int64.in_range (default 0 (TotalSent sim !! a)) ->
  default 0 (TotalSent (simRun ops sim) !! a)
  = Int64.wrap (default 0 (TotalSent sim !! a) + Z.of_nat (sentFrom a ops)).
Proof.
  revert sim. induction ops as [|op ops IH]; intros sim Hr.
  - simpl. rewrite Z.add_0_r, wrap_small by exact Hr. reflexivity.
  - unfold simRun in *. simpl fold_left.
    destruct op as [inbox|pack why random|pack random|seqno|n|b|p];
      try (rewrite IH by exact Hr; reflexivity).
    + simpl simStep. unfold Send.
      assert (Ht : TotalSent (sendTo pack random (countSent (From pack) sim)).1.1
                   = <[From pack := default 0 (TotalSent sim !! From pack) +64 1]>
                       (TotalSent sim))
        by (rewrite sendTo_TotalSent; reflexivity).
      simpl sentFrom. destruct (bool_decide_reflect (From pack = a)) as [Heq|Hne].
      * rewrite IH; rewrite Ht, Heq, lookup_insert_eq; simpl.
        -- unfold Int64.add. rewrite wrap_wrap_add_l. f_equal. lia.
        -- apply wrap_in_range.
      * rewrite IH; rewrite Ht, lookup_insert_ne by exact Hne; [reflexivity|exact Hr].
    + simpl simStep. unfold SendEarlier.
      rewrite IH; rewrite sendTo_TotalSent; [reflexivity|exact Hr].
Qed.

(** X14. [TotalSent] counts every call of [Send], whatever becomes of the
    packet: after any sequence of calls on a new network, the counter of a
    sender is the number of [Send] calls made for its packets ([int64]
    arithmetic), those included that returned an error, were lost,
    discarded or held back. *)
Theorem simnet_counts_every_send
    (lossProb : float) (latency : Duration) (ops : list SimOp) (a : string) :
  default 0 (TotalSent (simRun ops (NewSimNet lossProb latency)) !! a)
  = Int64.wrap (Z.of_nat (sentFrom a ops)).
Proof.
  rewrite simRun_TotalSent; [reflexivity|].
  simpl. rewrite lookup_empty. simpl. unfold Int64.in_range, Int64.min_int, Int64.max_int. lia.
Qed.

(** The deliveries [sendOn] starts when the packet is neither discarded nor
    lost. *)
Lemma sendOn_passes (ch : Chan) (pack : Packet) (random : Z) (sim : SimNet) :
  SeqNum pack <> DiscardOnce sim -> isLost random sim = false ->
  sendOn ch pack random sim =
  (set_DuplicateNext false (set_reorder (SimulateReorderNext sim) None sim), None,
   [mkDelivery ch (Some pack) (Latency sim)]
   ++ match heldBack sim with
      | Some h => [mkDelivery ch (Some h) (Latency sim +64 20 * Millisecond)]
      | None => []
      end
   ++ (if DuplicateNext sim then [mkDelivery ch (Some pack) (Latency sim)] else [])).
Proof.
  intros Hd Hl. unfold sendOn, isLost in *.
  destruct (Z.eqb_spec (SeqNum pack) (DiscardOnce sim)); [contradiction|].
  rewrite Hl.
  destruct sim as [net lp lat ts tr d rn held dup made]; simpl.
  destruct held, dup; reflexivity.
Qed.

(** X15. A network without faults delivers each packet once.  After
    [Listen] on an inbox, [Send] of a packet for this inbox, with no
    reordering, duplication or loss switched on and a sequence number other
    than [DiscardOnce], returns nil and starts exactly one delivery: of this
    packet, on the channel [Listen] returned, after [Latency]; whatever
    channel was registered for the inbox before is replaced. *)
Theorem simnet_listen_then_send_delivers_once
    (sim : SimNet) (pack : Packet) (why : string) (random : Z) :
  SimulateReorderNext sim = 0 -> heldBack sim = None -> DuplicateNext sim = false ->
  SeqNum pack <> DiscardOnce sim -> isLost random sim = false ->
  let '(sim1, ch, lerr) := Listen (Dest pack) sim in
  let '(sim2, err, started) := Send pack why random sim1 in
  lerr = None /\ err = None /\
  started = [mkDelivery ch (Some pack) (Latency sim)] /\
  Net sim2 !! Dest pack = Some ch /\
  SimulateReorderNext sim2 = 0 /\ heldBack sim2 = None /\
  DuplicateNext sim2 = false /\ DiscardOnce sim2 = DiscardOnce sim.
Proof.
  intros Hr Hh Hdup Hd Hl.
  unfold Listen. cbv zeta.
  set (sim1 := mkSimNet _ _ _ _ _ _ _ _ _ _).
  assert (E : Send pack why random sim1
              = sendOn (chansMade sim) pack random (countSent (From pack) sim1)).
  { unfold Send, sendTo. simpl. rewrite lookup_insert_eq, Hr. reflexivity. }
  rewrite E, sendOn_passes by assumption. simpl. rewrite Hh, Hdup, Hr.
  rewrite lookup_insert_eq. repeat split.
Qed.

Lemma simnet_listen_then_send_delivers_once_witness :
  let sim := (Listen "B" (NewSimNet 0 1000)).1.1 in
  (Send (Examples.dataPacket 0 2 Examples.ab) "data" 7
     (Listen "B" sim).1.1).2
  = [mkDelivery 1%nat (Some (Examples.dataPacket 0 2 Examples.ab)) 1000].
Proof.
  cbv zeta.
  pose proof (simnet_listen_then_send_delivers_once
                (Listen "B" (NewSimNet 0 1000)).1.1
                (Examples.dataPacket 0 2 Examples.ab) "data" 7
                eq_refl eq_refl eq_refl ltac:(vm_compute; discriminate) eq_refl) as H.
  change (Dest (Examples.dataPacket 0 2 Examples.ab)) with "B"%string in H.
  destruct (Listen "B" (Listen "B" (NewSimNet 0 1000)).1.1) as [[sim1 ch] lerr] eqn:E1.
  simpl. destruct (Send _ _ _ sim1) as [[sim2 err] started].
  destruct H as (_ & _ & -> & _). simpl. 
  injection E1 as _ <- _. reflexivity.
Defined.

(** X16. Reordering swaps two packets.  With [SimulateReorderNext] set to
    1, [Send] holds the first packet back and starts nothing; the next
    [Send] that is neither discarded nor lost starts the delivery of its own
    packet after [Latency] and then of the held one 20 ms later, both on the
    channel of the second packet's destination, and the network is back to
    no reordering. *)
Theorem simnet_reorder_swaps_two
    (sim : SimNet) (p1 p2 : Packet) (why1 why2 : string) (random1 random2 : Z)
    (ch1 ch2 : Chan) :
  SimulateReorderNext sim = 1 ->
  Net sim !! Dest p1 = Some ch1 -> Net sim !! Dest p2 = Some ch2 ->
  DuplicateNext sim = false ->
  SeqNum p2 <> DiscardOnce sim -> isLost random2 sim = false ->
  let '(sim1, err1, started1) := Send p1 why1 random1 sim in
  let '(sim2, err2, started2) := Send p2 why2 random2 sim1 in
  err1 = None /\ started1 = [] /\ heldBack sim1 = Some p1 /\
  err2 = None /\
  started2 = [mkDelivery ch2 (Some p2) (Latency sim);
              mkDelivery ch2 (Some p1) (Latency sim +64 20 * Millisecond)] /\
  heldBack sim2 = None /\ SimulateReorderNext sim2 = 0.
Proof.
  intros Hr H1 H2 Hdup Hd Hl.
  assert (E1 : Send p1 why1 random1 sim
               = (set_reorder 2 (Some p1) (countSent (From p1) sim), None, [])).
  { unfold Send, sendTo. simpl. rewrite H1, Hr. reflexivity. }
  rewrite E1.
  set (sim1 := set_reorder 2 (Some p1) (countSent (From p1) sim)).
  assert (E2 : Send p2 why2 random2 sim1
               = sendOn ch2 p2 random2
                   (set_reorder 0 (Some p1) (countSent (From p2) sim1))).
  { unfold Send, sendTo. simpl. rewrite H2. reflexivity. }
  rewrite E2, sendOn_passes by assumption. simpl. rewrite Hdup. repeat split.
Qed.

Lemma simnet_reorder_swaps_two_witness :
  let sim := simRun [OpListen "B"; OpSetSimulateReorderNext 1] (NewSimNet 0 1000) in
  let sim1 := (Send (Examples.dataPacket 0 2 Examples.ab) "data" 7 sim).1.1 in
  (Send (Examples.dataPacket 0 2 Examples.ab) "data" 7 sim).2 = [] /\
  (Send (Examples.dataPacket 1 4 Examples.ab) "data" 8 sim1).2
  = [mkDelivery 0%nat (Some (Examples.dataPacket 1 4 Examples.ab)) 1000;
     mkDelivery 0%nat (Some (Examples.dataPacket 0 2 Examples.ab)) 20001000].
Proof.
  cbv zeta.
  pose proof (simnet_reorder_swaps_two
                (simRun [OpListen "B"; OpSetSimulateReorderNext 1] (NewSimNet 0 1000))
                (Examples.dataPacket 0 2 Examples.ab) (Examples.dataPacket 1 4 Examples.ab)
                "data" "data" 7 8 0%nat 0%nat
                eq_refl eq_refl eq_refl eq_refl ltac:(vm_compute; discriminate) eq_refl) as H.
  destruct (Send (Examples.dataPacket 0 2 Examples.ab) "data" 7 _) as [[sim1 err1] started1].
  simpl. destruct (Send _ _ _ sim1) as [[sim2 err2] started2].
  destruct H as (_ & -> & _ & _ & -> & _). split; reflexivity.
Defined.

(** X17. [DiscardOnce] loses one transmission only.  [Send] of the packet
    numbered [DiscardOnce] starts no delivery, returns nil and puts
    [DiscardOnce] back to -1; the retransmission of the same packet is then
    delivered (its number not being -1, and no other fault being switched
    on). *)
Theorem simnet_discard_once_then_delivers
    (sim : SimNet) (pack : Packet) (why1 why2 : string) (random1 random2 : Z)
    (ch : Chan) :
  SimulateReorderNext sim = 0 -> Net sim !! Dest pack = Some ch ->
  DiscardOnce sim = SeqNum pack -> SeqNum pack <> -1 ->
  heldBack sim = None -> DuplicateNext sim = false -> isLost random2 sim = false ->
  let '(sim1, err1, started1) := Send pack why1 random1 sim in
  let '(sim2, err2, started2) := Send pack why2 random2 sim1 in
  err1 = None /\ started1 = [] /\ DiscardOnce sim1 = -1 /\
  err2 = None /\ started2 = [mkDelivery ch (Some pack) (Latency sim)].
Proof.
  intros Hr Hch Hd Hne Hh Hdup Hl.
  assert (E1 : Send pack why1 random1 sim
               = (set_DiscardOnce (-1) (countSent (From pack) sim), None, [])).
  { unfold Send, sendTo. simpl. rewrite Hch, Hr. simpl. unfold sendOn. simpl.
    rewrite Hd, Z.eqb_refl. reflexivity. }
  rewrite E1.
  set (sim1 := set_DiscardOnce (-1) (countSent (From pack) sim)).
  assert (E2 : Send pack why2 random2 sim1
               = sendOn ch pack random2 (countSent (From pack) sim1)).
  { unfold Send, sendTo. simpl. rewrite Hch, Hr. reflexivity. }
  rewrite E2, sendOn_passes by assumption. simpl. rewrite Hh, Hdup. repeat split.
Qed.

Lemma simnet_discard_once_then_delivers_witness :
  let sim := simRun [OpListen "B"; OpSetDiscardOnce 0] (NewSimNet 0 1000) in
  let sim1 := (Send (Examples.dataPacket 0 2 Examples.ab) "data" 7 sim).1.1 in
  (Send (Examples.dataPacket 0 2 Examples.ab) "data" 7 sim).2 = [] /\
  (Send (Examples.dataPacket 0 2 Examples.ab) "retry" 8 sim1).2
  = [mkDelivery 0%nat (Some (Examples.dataPacket 0 2 Examples.ab)) 1000].
Proof.
  cbv zeta.
  pose proof (simnet_discard_once_then_delivers
                (simRun [OpListen "B"; OpSetDiscardOnce 0] (NewSimNet 0 1000))
                (Examples.dataPacket 0 2 Examples.ab) "data" "retry" 7 8 0%nat
                eq_refl eq_refl eq_refl ltac:(vm_compute; discriminate)
                eq_refl eq_refl eq_refl) as H.
  destruct (Send (Examples.dataPacket 0 2 Examples.ab) "data" 7 _) as [[sim1 err1] started1].
  simpl. destruct (Send _ _ _ sim1) as [[sim2 err2] started2].
  destruct H as (_ & -> & _ & _ & ->). split; reflexivity.
Defined.

(** X18. [DuplicateNext] duplicates one packet only: the [Send] after it is
    set starts two deliveries of its packet, both after [Latency], and
    clears the flag; the next [Send] starts one. *)
Theorem simnet_duplicate_next_once
    (sim : SimNet) (p1 p2 : Packet) (why1 why2 : string) (random1 random2 : Z)
    (ch1 ch2 : Chan) :
  SimulateReorderNext sim = 0 ->
  Net sim !! Dest p1 = Some ch1 -> Net sim !! Dest p2 = Some ch2 ->
  DuplicateNext sim = true -> heldBack sim = None ->
  SeqNum p1 <> DiscardOnce sim -> SeqNum p2 <> DiscardOnce sim ->
  isLost random1 sim = false -> isLost random2 sim = false ->
  let '(sim1, err1, started1) := Send p1 why1 random1 sim in
  let '(sim2, err2, started2) := Send p2 why2 random2 sim1 in
  err1 = None /\ started1 = [mkDelivery ch1 (Some p1) (Latency sim);
              mkDelivery ch1 (Some p1) (Latency sim)] /\ DuplicateNext sim1 = false /\ err2 = None /\ started2 = [mkDelivery ch2 (Some p2) (Latency sim)].
Proof.
  intros Hr H1 H2 Hdup Hh Hd1 Hd2 Hl1 Hl2.
  assert (E1 : Send p1 why1 random1 sim
               = sendOn ch1 p1 random1 (countSent (From p1) sim)).
  { unfold Send, sendTo. simpl. rewrite H1, Hr. reflexivity. }
  rewrite E1, sendOn_passes by assumption. simpl. rewrite Hh, Hdup.
  set (sim1 := set_DuplicateNext false _).
  assert (E2 : Send p2 why2 random2 sim1
               = sendOn ch2 p2 random2 (countSent (From p2) sim1)).
  { unfold Send, sendTo. simpl. rewrite H2, Hr. reflexivity. }
  rewrite E2, sendOn_passes by assumption. simpl. repeat split.
Qed.

Lemma simnet_duplicate_next_once_witness :
  let sim := simRun [OpListen "B"; OpSetDuplicateNext true] (NewSimNet 0 1000) in
  let sim1 := (Send (Examples.dataPacket 0 2 Examples.ab) "data" 7 sim).1.1 in
  length (Send (Examples.dataPacket 0 2 Examples.ab) "data" 7 sim).2 = 2%nat /\
  length (Send (Examples.dataPacket 1 4 Examples.ab) "data" 8 sim1).2 = 1%nat.
Proof.
  cbv zeta.
  pose proof (simnet_duplicate_next_once
                (simRun [OpListen "B"; OpSetDuplicateNext true] (NewSimNet 0 1000))
                (Examples.dataPacket 0 2 Examples.ab) (Examples.dataPacket 1 4 Examples.ab)
                "data" "data" 7 8 0%nat 0%nat
                eq_refl eq_refl eq_refl eq_refl eq_refl
                ltac:(vm_compute; discriminate) ltac:(vm_compute; discriminate)
                eq_refl eq_refl) as H.
  destruct (Send (Examples.dataPacket 0 2 Examples.ab) "data" 7 _) as [[sim1 err1] started1].
  simpl. destruct (Send _ _ _ sim1) as [[sim2 err2] started2].
  destruct H as (_ & -> & _ & _ & ->). split; reflexivity.
Defined.

(** *** What is delivered over a sequence of calls *)

Lemma sendOn_started (ch : Chan) (pack : Packet) (random : Z) (sim : SimNet)
    (d : Delivery) :
  d ∈ (sendOn ch pack random sim).2 ->
  toChan d = ch /\
  (delivered d = Some pack /\ SeqNum pack <> DiscardOnce sim \/
   delivered d = heldBack sim /\ heldBack sim <> None).
Proof.
  unfold sendOn. destruct (Z.eqb_spec (SeqNum pack) (DiscardOnce sim)) as [|Hne].
  { intros H. inversion H. }
  destruct (_ && _). { intros H. inversion H. }
  assert (Hp : forall lat, toChan (mkDelivery ch (Some pack) lat) = ch /\
             (delivered (mkDelivery ch (Some pack) lat) = Some pack /\
              SeqNum pack <> DiscardOnce sim \/
              delivered (mkDelivery ch (Some pack) lat) = heldBack sim /\
              heldBack sim <> None)) by (intros lat; simpl; auto).
  intros Hin.
  assert (Hcases : d = mkDelivery ch (Some pack) (Latency sim) \/
            exists h, heldBack sim = Some h /\
                      d = mkDelivery ch (Some h) (Latency sim +64 20 * Millisecond)).
  { destruct (heldBack sim) as [h|]; simpl in Hin; destruct (DuplicateNext sim);
      simpl in Hin; rewrite ?elem_of_cons, ?elem_of_nil in Hin;
      intuition eauto. }
  destruct Hcases as [->|(h & Hh & ->)]; [apply Hp|].
  simpl. split; [reflexivity|]. right. rewrite Hh. split; [reflexivity|discriminate].
Qed.

Lemma sendOn_heldBack (ch : Chan) (pack : Packet) (random : Z) (sim : SimNet) :
  heldBack (sendOn ch pack random sim).1.1 = None \/
  heldBack (sendOn ch pack random sim).1.1 = heldBack sim.
Proof.
  unfold sendOn. destruct (_ =? _); [right; reflexivity|].
  destruct (_ && _); [right; reflexivity|].
  destruct sim as [net lp lat ts tr dis rn held dup made]; simpl.
  destruct held, dup; simpl; auto.
Qed.

Lemma sendTo_started (pack : Packet) (random : Z) (sim : SimNet) (d : Delivery) :
  d ∈ (sendTo pack random sim).2 ->
  Net sim !! Dest pack = Some (toChan d) /\ (delivered d = Some pack \/ delivered d = heldBack sim /\ heldBack sim <> None).
Proof.
  unfold sendTo. destruct (Net sim !! Dest pack) as [ch|].
  2:{ intros H. inversion H. }
  destruct (_ =? 0).
  - intros H. apply sendOn_started in H as [-> H]. split; [reflexivity|]. tauto.
  - destruct (_ =? 1). { intros H. inversion H. }
    intros H. apply sendOn_started in H as [-> H]. split; [reflexivity|].
    simpl in H. tauto.
Qed.

Lemma sendTo_heldBack (pack : Packet) (random : Z) (sim : SimNet) :
  heldBack (sendTo pack random sim).1.1 = None \/
  heldBack (sendTo pack random sim).1.1 = heldBack sim \/
  heldBack (sendTo pack random sim).1.1 = Some pack.
Proof.
  unfold sendTo. destruct (Net sim !! Dest pack) as [ch|]; [|auto].
  destruct (_ =? 0); [destruct (sendOn_heldBack ch pack random sim); auto|].
  destruct (_ =? 1); [simpl; auto|].
  destruct (sendOn_heldBack ch pack random (set_reorder 0 (heldBack sim) sim)); auto.
Qed.

Lemma simTrace_sent (prior : list Packet) (ops : list SimOp) (sim : SimNet)
    (d : Delivery) :
  (forall h, heldBack sim = Some h -> h ∈ prior) ->
  d ∈ simTrace ops sim ->
  exists p, delivered d = Some p /\ p ∈ prior ++ sentPackets ops.
Proof.
  revert prior sim. induction ops as [|op ops IH]; intros prior sim Hheld Hd.
  - inversion Hd.
  - simpl in Hd. apply elem_of_app in Hd as [Hd|Hd].
    + assert (Hstep : forall pack random s,
                heldBack s = heldBack sim ->
                d ∈ (sendTo pack random s).2 ->
                exists p, delivered d = Some p /\ p ∈ prior ++ pack :: nil).
      { intros pack random s Hs H. apply sendTo_started in H as [_ [H|[H Hne]]].
        - exists pack. split; [exact H|]. apply elem_of_app. right. left.
        - rewrite Hs in H, Hne. destruct (heldBack sim) as [h|]; [|contradiction].
          exists h. split; [exact H|]. apply elem_of_app. left. auto. }
      destruct op as [inbox|pack why random|pack random|seqno|n|b|p];
        simpl in Hd; try (inversion Hd; fail).
      * destruct (Hstep pack random (countSent (From pack) sim) eq_refl Hd)
          as (p & Hp & Hin).
        exists p. split; [exact Hp|]. simpl.
        apply elem_of_app in Hin as [Hin|Hin]; apply elem_of_app; [left; exact Hin|].
        right. apply elem_of_cons in Hin as [->|Hin]; [left|inversion Hin].
      * destruct (Hstep pack random sim eq_refl Hd) as (p & Hp & Hin).
        exists p. split; [exact Hp|]. simpl.
        apply elem_of_app in Hin as [Hin|Hin]; apply elem_of_app; [left; exact Hin|].
        right. apply elem_of_cons in Hin as [->|Hin]; [left|inversion Hin].
    + destruct op as [inbox|pack why random|pack random|seqno|n|b|p]; simpl in Hd |- *;
        try (eapply IH; [|exact Hd]; exact Hheld).
      * assert (Hh : forall h, heldBack (Send pack why random sim).1.1 = Some h ->
                       h ∈ prior ++ [pack]).
        { intros h Hh. unfold Send in Hh.
          destruct (sendTo_heldBack pack random (countSent (From pack) sim))
            as [E|[E|E]]; rewrite E in Hh.
          - discriminate.
          - apply elem_of_app. left. apply Hheld. exact Hh.
          - injection Hh as <-. apply elem_of_app. right. left. }
        destruct (IH (prior ++ [pack]) _ Hh Hd) as (p & Hp & Hin).
        exists p. split; [exact Hp|]. rewrite <- app_assoc in Hin. exact Hin.
      * assert (Hh : forall h, heldBack (SendEarlier pack random sim).1.1 = Some h ->
                       h ∈ prior ++ [pack]).
        { intros h Hh. unfold SendEarlier in Hh.
          destruct (sendTo_heldBack pack random sim) as [E|[E|E]]; rewrite E in Hh.
          - discriminate.
          - apply elem_of_app. left. apply Hheld. exact Hh.
          - injection Hh as <-. apply elem_of_app. right. left. }
        destruct (IH (prior ++ [pack]) _ Hh Hd) as (p & Hp & Hin).
        exists p. split; [exact Hp|]. rewrite <- app_assoc in Hin. exact Hin.
Qed.

(** X19. The network invents no packet: over any sequence of calls on a
    new network, every delivery that was started carries a packet, never
    nil, that was passed to [Send] by one of the calls. *)
Theorem simnet_delivers_only_sent_packets
    (lossProb : float) (latency : Duration) (ops : list SimOp) (d : Delivery) :
  d ∈ simTrace ops (NewSimNet lossProb latency) ->
  exists p, delivered d = Some p /\ p ∈ sentPackets ops.
Proof.
  intros H. apply (simTrace_sent [] ops (NewSimNet lossProb latency) d); [|exact H].
  intros h Hh. discriminate.
Qed.

Lemma simnet_delivers_only_sent_packets_witness :
  exists p,
    delivered (mkDelivery 0%nat (Some (Examples.dataPacket 0 2 Examples.ab)) 20001000)
      = Some p /\
    p ∈ [Examples.dataPacket 0 2 Examples.ab; Examples.dataPacket 1 4 Examples.ab].
Proof.
  apply (simnet_delivers_only_sent_packets 0 1000
           [OpListen "B"; OpSetSimulateReorderNext 1;
            OpSend (Examples.dataPacket 0 2 Examples.ab) "data" 7;
            OpSend (Examples.dataPacket 1 4 Examples.ab) "data" 8]).
  right. left.
Defined.

Lemma sendTo_resting (pack : Packet) (random : Z) (sim : SimNet) :
  DiscardOnce sim = -1 -> SimulateReorderNext sim = 0 -> heldBack sim = None ->
  DiscardOnce (sendTo pack random sim).1.1 = -1 /\
  SimulateReorderNext (sendTo pack random sim).1.1 = 0 /\
  heldBack (sendTo pack random sim).1.1 = None /\
  forall d p, d ∈ (sendTo pack random sim).2 -> delivered d = Some p -> SeqNum p <> -1.
Proof.
  intros Hd Hr Hh.
  assert (Hlast : forall d p, d ∈ (sendTo pack random sim).2 ->
            delivered d = Some p -> SeqNum p <> -1).
  { intros d p Hin Hp. unfold sendTo in Hin.
    destruct (Net sim !! Dest pack) as [ch|]; [|inversion Hin].
    rewrite Hr in Hin. simpl in Hin.
    apply sendOn_started in Hin as [_ [[E Hne]|[E Hne]]].
    - rewrite E in Hp. injection Hp as <-. rewrite <- Hd. exact Hne.
    - rewrite Hh in Hne. contradiction. }
  split; [|split; [|split; [|exact Hlast]]];
    unfold sendTo; (destruct (Net sim !! Dest pack) as [ch|]; [|assumption]);
    rewrite Hr; simpl; unfold sendOn;
    (destruct (_ =? _); [simpl; auto|]);
    (destruct (_ && _); [assumption|]);
    rewrite Hh; simpl; destruct (DuplicateNext sim); simpl; assumption.
Qed.

(** X20. The rest value of [DiscardOnce] is a sequence number too.  On a
    new network on which the test sets neither [DiscardOnce] nor
    [SimulateReorderNext], [DiscardOnce] stays at -1, and a packet numbered
    -1 is discarded each time it is sent: no delivery ever carries one. *)
Theorem simnet_never_delivers_minus_one
    (lossProb : float) (latency : Duration) (ops : list SimOp)
    (d : Delivery) (p : Packet) :
  restingDiscardAndReorder ops = true ->
  d ∈ simTrace ops (NewSimNet lossProb latency) ->
  delivered d = Some p -> SeqNum p <> -1.
Proof.
  intros Hops.
  assert (H : forall sim,
            DiscardOnce sim = -1 -> SimulateReorderNext sim = 0 -> heldBack sim = None ->
            d ∈ simTrace ops sim -> delivered d = Some p -> SeqNum p <> -1).
  { induction ops as [|op ops IH]; intros sim Hd Hr Hh Hin Hp.
    - inversion Hin.
    - simpl in Hops. apply andb_true_iff in Hops as [Hop Hops].
      simpl in Hin. apply elem_of_app in Hin as [Hin|Hin].
      + destruct op as [inbox|pack why random|pack random|seqno|n|b|q];
          simpl in Hin; try (inversion Hin; fail).
        * unfold Send in Hin.
          destruct (sendTo_resting pack random (countSent (From pack) sim) Hd Hr Hh)
            as (_ & _ & _ & H4).
          apply (H4 d p Hin Hp).
        * unfold SendEarlier in Hin.
          destruct (sendTo_resting pack random sim Hd Hr Hh) as (_ & _ & _ & H4).
          apply (H4 d p Hin Hp).
      + destruct op as [inbox|pack why random|pack random|seqno|n|b|q];
          try discriminate; simpl in Hin.
        * eapply (IH Hops); [| | |exact Hin|exact Hp]; assumption.
        * destruct (sendTo_resting pack random (countSent (From pack) sim) Hd Hr Hh)
            as (H1 & H2 & H3 & _).
          eapply (IH Hops); [| | |exact Hin|exact Hp]; assumption.
        * destruct (sendTo_resting pack random sim Hd Hr Hh) as (H1 & H2 & H3 & _).
          eapply (IH Hops); [| | |exact Hin|exact Hp]; assumption.
        * eapply (IH Hops); [| | |exact Hin|exact Hp]; assumption.
        * eapply (IH Hops); [| | |exact Hin|exact Hp]; assumption. }
  apply H; reflexivity.
Qed.

Lemma simnet_never_delivers_minus_one_witness :
  simTrace [OpListen "B"; OpSend Examples.negativePacket "data" 7;
            OpSend Examples.negativePacket "retry" 8;
            OpSend (Examples.dataPacket 0 2 Examples.ab) "data" 9]
    (NewSimNet 0 1000)
  = [mkDelivery 0%nat (Some (Examples.dataPacket 0 2 Examples.ab)) 1000] /\
  SeqNum (Examples.dataPacket 0 2 Examples.ab) <> -1.
Proof.
  split; [reflexivity|].
  apply (simnet_never_delivers_minus_one 0 1000
           [OpListen "B"; OpSend Examples.negativePacket "data" 7;
            OpSend Examples.negativePacket "retry" 8;
            OpSend (Examples.dataPacket 0 2 Examples.ab) "data" 9]
           (mkDelivery 0%nat (Some (Examples.dataPacket 0 2 Examples.ab)) 1000)).
  - reflexivity.
  - left.
  - reflexivity.
Defined.

(** *** The loss probability *)

Lemma allFrom_spec (k : nat) (f : Z -> bool) (lo : Z) :
  allFrom k f lo = true -> forall z, lo <= z < lo + 2 ^ Z.of_nat k -> f z = true.
Proof.
  revert lo. induction k as [|k IH]; intros lo H z Hz.
  - simpl in *. replace z with lo by lia. exact H.
  - simpl allFrom in H. apply andb_true_iff in H as [H1 H2].
    rewrite Nat2Z.inj_succ, Z.pow_succ_r in Hz by lia.
    destruct (Z.lt_ge_cases z (lo + 2 ^ Z.of_nat k)).
    + apply (IH lo H1). lia.
    + apply (IH _ H2). lia.
Qed.

Lemma probOf_unit (r : Z) :
  0 <= r <= resolution ->
  PrimFloat.leb 0 (probOf r) = true /\ PrimFloat.leb (probOf r) 1 = true.
Proof.
  intros Hr.
  assert (Hall : allFrom 20
            (fun r => PrimFloat.leb 0 (probOf r) && PrimFloat.leb (probOf r) 1) 0 = true)
    by (vm_compute; reflexivity).
  destruct (Z.eq_dec r resolution) as [->|Hne].
  - split; vm_compute; reflexivity.
  - pose proof (allFrom_spec _ _ _ Hall r) as H. cbv beta in H.
    apply andb_true_iff. apply H. unfold resolution in *.
    change (Z.of_nat 20) with 20. lia.
Qed.

Lemma cryptoProb_probOf (random : Z) :
  cryptoProb random
  = probOf (Z.rem (if Int64.wrap random <? 0 then Int64.wrap (- Int64.wrap random)
                   else Int64.wrap random) (resolution + 1)).
Proof. reflexivity. Qed.

Lemma cryptoRem_range (random : Z) :
  Int64.wrap random <> Int64.min_int ->
  0 <= Z.rem (if Int64.wrap random <? 0 then Int64.wrap (- Int64.wrap random)
              else Int64.wrap random) (resolution + 1) <= resolution.
Proof.
  intros Hne. pose proof (wrap_in_range random) as Hr.
  unfold Int64.in_range, Int64.min_int, Int64.max_int in *.
  assert (Hres : resolution + 1 = 1048577) by reflexivity.
  destruct (Z.ltb_spec (Int64.wrap random) 0).
  - rewrite wrap_small
      by (unfold Int64.in_range, Int64.min_int, Int64.max_int; lia).
    pose proof (Z.rem_bound_pos (- Int64.wrap random) (resolution + 1)
                  ltac:(lia) ltac:(lia)). lia.
  - pose proof (Z.rem_bound_pos (Int64.wrap random) (resolution + 1)
                  ltac:(lia) ltac:(lia)). lia.
Qed.

(** X21. [cryptoProb] returns a probability: for every eight random bytes
    but those of the most negative [int64], the result lies between 0 and 1,
    both included; for those bytes [-r] overflows, the remainder is negative
    and so is the result. *)
Theorem cryptoProb_in_unit_interval (random : Z) :
  (Int64.wrap random <> Int64.min_int ->
   PrimFloat.leb 0 (cryptoProb random) = true /\
   PrimFloat.leb (cryptoProb random) 1 = true) /\
  (Int64.wrap random = Int64.min_int ->
   PrimFloat.ltb (cryptoProb random) 0 = true).
Proof.
  rewrite cryptoProb_probOf. split.
  - intros Hne. apply probOf_unit, cryptoRem_range, Hne.
  - intros ->. vm_compute. reflexivity.
Qed.

Lemma isLost_certain (random : Z) (sim : SimNet) :
  LossProb sim = 1%float -> isLost random sim = true.
Proof.
  intros Hp. unfold isLost. rewrite Hp.
  change (PrimFloat.ltb 0 1) with true. simpl andb.
  rewrite cryptoProb_probOf.
  destruct (Z.eq_dec (Int64.wrap random) Int64.min_int) as [He|Hne].
  - rewrite He. vm_compute. reflexivity.
  - apply probOf_unit, cryptoRem_range, Hne.
Qed.

Lemma sendTo_total_loss (pack : Packet) (random : Z) (sim : SimNet) :
  LossProb sim = 1%float ->
  (sendTo pack random sim).2 = [] /\ LossProb (sendTo pack random sim).1.1 = 1%float.
Proof.
  intros Hp.
  assert (H : forall ch s, LossProb s = 1%float ->
            (sendOn ch pack random s).2 = [] /\
            LossProb (sendOn ch pack random s).1.1 = 1%float).
  { intros ch s Hs. unfold sendOn. destruct (_ =? _); [auto|].
    pose proof (isLost_certain random s Hs) as Hl. unfold isLost in Hl.
    rewrite Hl. auto. }
  unfold sendTo. destruct (Net sim !! Dest pack) as [ch|]; [|auto].
  destruct (_ =? 0); [apply H, Hp|].
  destruct (_ =? 1); [auto|]. apply H. exact Hp.
Qed.

(** X22. With a loss probability of 1 the network delivers nothing: on a
    network made with [lossProb = 1], whatever is sent, and whatever other
    fault is switched on or off, no delivery is ever started. *)
Theorem simnet_total_loss (latency : Duration) (ops : list SimOp) :
  keepsLossProb ops = true ->
  simTrace ops (NewSimNet 1 latency) = [].
Proof.
  intros Hops.
  assert (H : forall sim, LossProb sim = 1%float -> simTrace ops sim = []).
  { induction ops as [|op ops IH]; intros sim Hp; [reflexivity|].
    simpl in Hops. apply andb_true_iff in Hops as [Hop Hops].
    simpl. destruct op as [inbox|pack why random|pack random|seqno|n|b|q];
      try discriminate; simpl.
    - apply (IH Hops). exact Hp.
    - unfold Send.
      destruct (sendTo_total_loss pack random (countSent (From pack) sim) Hp)
        as [-> Hp']. apply (IH Hops). exact Hp'.
    - unfold SendEarlier.
      destruct (sendTo_total_loss pack random sim Hp) as [-> Hp'].
      apply (IH Hops). exact Hp'.
    - apply (IH Hops). exact Hp.
    - apply (IH Hops). exact Hp.
    - apply (IH Hops). exact Hp. }
  apply H. reflexivity.
Qed.

Lemma simnet_total_loss_witness :
  simTrace [OpListen "B"; OpSetDuplicateNext true;
            OpSend (Examples.dataPacket 0 2 Examples.ab) "data" 7;
            OpSend (Examples.dataPacket 0 2 Examples.ab) "retry" (2 ^ 63)]
    (NewSimNet 1 1000) = [].
Proof. apply simnet_total_loss. reflexivity. Defined.

(** *** Comparing histories *)

Lemma historyLoop_spec (a b : list Packet) :
  length a = length b ->
  historyLoop (Some <$> a) (Some <$> b)
  = Ok (bool_decide (SeqNum <$> a = SeqNum <$> b)).
Proof.
  revert b. induction a as [|pa a IH]; intros [|pb b] Hlen; try discriminate.
  - reflexivity.
  - rewrite !fmap_cons. cbn [historyLoop].
    destruct (Z.eqb_spec (SeqNum pa) (SeqNum pb)) as [He|Hne].
    + rewrite IH by (simpl in Hlen; lia). f_equal.
      destruct (bool_decide_reflect (SeqNum <$> a = SeqNum <$> b)) as [E|E].
      * rewrite bool_decide_eq_true_2; [reflexivity|].
        rewrite He, E. reflexivity.
      * rewrite bool_decide_eq_false_2; [reflexivity|].
        intros [= _ H]. auto.
    + rewrite bool_decide_eq_false_2; [reflexivity|].
      intros [= H _]. auto.
Qed.

(** X23. [HistoryEqual] compares sequence numbers, nothing else: two
    histories without nil entry are equal exactly when they hold the same
    sequence numbers in the same order, whatever the other fields and the
    payloads of the packets; histories of different lengths are unequal. *)
Theorem HistoryEqual_compares_numbers (a b : list Packet) :
  HistoryEqual (Some <$> a) (Some <$> b)
  = Ok (bool_decide (SeqNum <$> a = SeqNum <$> b)).
Proof.
  unfold HistoryEqual. rewrite !length_fmap.
  destruct (Nat.eqb_spec (length a) (length b)) as [He|Hne].
  - apply historyLoop_spec, He.
  - rewrite bool_decide_eq_false_2; [reflexivity|].
    intros H. apply Hne. apply (f_equal (@length _)) in H.
    rewrite !length_fmap in H. exact H.
Qed.

(** X24. What a test of the protocol checks: the history of a receiver run
    from fresh compares equal, by [HistoryEqual], to any history of as many
    packets numbered 0, 1, 2, ... in order, the sender's for one. *)
Theorem recv_history_equals_numbered
    (recvSz recvSzBytes : Z) (inbox : string) (s : SenderState)
    (r0 r : RecvState) (evs : list Event) (sent : list Packet) :
  recvSz <= Int64.max_int ->
  NewRecvState recvSz recvSzBytes inbox s = Ok r0 ->
  finalState (run evs r0) = Some r ->
  Z.of_nat (length (RecvHistory r)) <= Int64.max_int ->
  (forall (i : nat) p, sent !! i = Some p -> SeqNum p = Z.of_nat i) ->
  length sent = length (RecvHistory r) ->
  HistoryEqual (Some <$> sent) (RecvHistory r) = Ok true.
Proof.
  intros Hsz Hnew Hrun Hlen Hsent Hsame.
  pose proof (run_inv evs r0 r (NewRecvState_inv _ _ _ _ _ Hsz Hnew) Hrun Hlen) as I.
  destruct (all_Some (RecvHistory r)) as [hs Hhs].
  { intros i x Hx. destruct (inv_history _ I i x Hx) as (p & -> & _). eauto. }
  assert (Hnum : forall (i : nat) p, hs !! i = Some p -> SeqNum p = Z.of_nat i).
  { intros i p Hp. destruct (inv_history _ I i (Some p)) as (p' & [= <-] & Hq);
      [rewrite Hhs, list_lookup_fmap, Hp; reflexivity|exact Hq]. }
  rewrite Hhs in Hsame |- *. rewrite length_fmap in Hsame.
  unfold HistoryEqual. rewrite !length_fmap, Hsame, Nat.eqb_refl.
  rewrite historyLoop_spec by exact Hsame. f_equal.
  apply bool_decide_eq_true_2. apply list_eq. intros i.
  rewrite !list_lookup_fmap.
  destruct (sent !! i) as [p|] eqn:Hp, (hs !! i) as [q|] eqn:Hq; simpl.
  - rewrite (Hsent _ _ Hp), (Hnum _ _ Hq). reflexivity.
  - apply lookup_lt_Some in Hp. apply lookup_ge_None in Hq. lia.
  - apply lookup_lt_Some in Hq. apply lookup_ge_None in Hp. lia.
  - reflexivity.
Qed.

Lemma recv_history_equals_numbered_witness :
  HistoryEqual
    (Some <$> [ Examples.dataPacket 0 0 []; Examples.dataPacket 1 0 [];
                Examples.dataPacket 2 0 []; Examples.dataPacket 3 0 [];
                Examples.dataPacket 4 0 [] ])
    (RecvHistory (Examples.stateAfter Examples.lossyTrace Examples.fresh4))
  = Ok true.
Proof.
  apply (recv_history_equals_numbered 4 1000 "B" Examples.sender0 Examples.fresh4
           (Examples.stateAfter Examples.lossyTrace Examples.fresh4) Examples.lossyTrace).
  - vm_compute. discriminate.
  - reflexivity.
  - vm_compute. reflexivity.
  - vm_compute. discriminate.
  - intros [|[|[|[|[|i]]]]] p; simpl; intros [= <-]; reflexivity.
  - vm_compute. reflexivity.
Defined.
(** ** Further properties of the codec *)

Section CodecMore.

Context `{MsgpLawful}.

(** The packet at the front of a buffer is read back, and what follows it
    is returned. *)
Lemma UnmarshalMsg_frame (p z : Packet) (o : list byte) :
  wfPacket p -> UnmarshalMsg z (MarshalMsg p [] ++ o) = Got p o.
Proof.
  intros Hwf. pose proof (fieldChunks_decode p Hwf) as Hall.
  rewrite MarshalMsg_chunks, app_nil_l, <- app_assoc.
  unfold UnmarshalMsg. cbn [app].
  rewrite ReadMapHeaderBytes_map16.
  change (Z.to_nat (256 * byteZ x00 + byteZ x12))
    with (length (fieldChunks p) + 0)%nat.
  rewrite (decode_chunks _ _ _ _ _ Hall), fieldAssigns_all. reflexivity.
Qed.

(** X25. [MarshalMsg] appends, and messages can follow one another in a
    buffer: the bytes already in [b] are kept in front of the encoding;
    [UnmarshalMsg] reads the packet at the front and returns the bytes
    after it untouched, so that of two packets marshalled into one buffer
    the first is read back and the encoding of the second is left. *)
Theorem MarshalMsg_appends_and_frames (p q z : Packet) (b rest : list byte) :
  wfPacket p ->
  MarshalMsg p b = b ++ MarshalMsg p [] /\
  UnmarshalMsg z (MarshalMsg p [] ++ rest) = Got p rest /\
  UnmarshalMsg z (MarshalMsg q (MarshalMsg p [])) = Got p (MarshalMsg q []).
Proof.
  intros Hwf. pose proof (UnmarshalMsg_frame p z) as Hframe.
  split; [|split].
  - rewrite !MarshalMsg_chunks. reflexivity.
  - apply Hframe, Hwf.
  - rewrite (MarshalMsg_chunks q (MarshalMsg p [])).
    replace ([xde; x00; x12] ++ concat (fieldChunks q)) with (MarshalMsg q [])
      by (rewrite (MarshalMsg_chunks q []); reflexivity).
    apply Hframe, Hwf.
Qed.

Lemma fold_assign_perm (fs fs' : list (Packet -> Packet)) :
  Permutation fs fs' ->
  (forall f g, In f fs -> In g fs -> forall z, f (g z) = g (f z)) ->
  forall z, fold_left (fun z f => f z) fs z = fold_left (fun z f => f z) fs' z.
Proof.
  induction 1 as [|x l l' Hp IH|x y l|l l' l'' H1 IH1 H2 IH2]; intros Hc z.
  - reflexivity.
  - simpl. apply IH. intros f g Hf Hg. apply Hc; right; assumption.
  - simpl. rewrite (Hc x y); [reflexivity|right; left; reflexivity|left; reflexivity].
  - rewrite IH1 by exact Hc. apply IH2.
    intros f g Hf Hg. apply Hc; eapply Permutation_in; try eassumption;
      apply Permutation_sym; exact H1.
Qed.

Lemma fieldAssigns_commute (p : Packet) (f g : Packet -> Packet) :
  In f (fieldAssigns p) -> In g (fieldAssigns p) -> forall z, f (g z) = g (f z).
Proof.
  unfold fieldAssigns. simpl In. intros Hf Hg z.
  repeat (destruct Hf as [<-|Hf]); try contradiction;
    repeat (destruct Hg as [<-|Hg]); try contradiction; reflexivity.
Qed.

(** X26. The fields are keyed by name: the 18 entries that [MarshalMsg]
    writes, put in any order, are read back by [UnmarshalMsg] as the same
    packet. *)
Theorem UnmarshalMsg_any_field_order (p z : Packet) (entries : list (list byte)) :
  wfPacket p -> Permutation (fieldChunks p) entries ->
  UnmarshalMsg z ([xde; x00; x12] ++ concat entries) = Got p [].
Proof.
  intros Hwf Hperm. pose proof (fieldChunks_decode p Hwf) as Hall.
  destruct (Permutation_Forall2 Hperm Hall) as (fs & Hfs & Hall').
  unfold UnmarshalMsg. cbn [app]. rewrite ReadMapHeaderBytes_map16.
  replace (Z.to_nat (256 * byteZ x00 + byteZ x12)) with (length entries + 0)%nat.
  2:{ rewrite <- (Permutation_length Hperm), Nat.add_0_r. reflexivity. }
  rewrite <- (app_nil_r (concat entries)).
  rewrite (decode_chunks _ _ _ _ _ Hall').
  rewrite <- (fold_assign_perm _ _ Hfs (fieldAssigns_commute p)), fieldAssigns_all.
  reflexivity.
Qed.

(** X27. [UnmarshalMsg] assigns the fields it finds and no other: an empty
    map leaves the packet it decodes into as it was, and a map with a single
    entry assigns this one field and leaves the other 17 as they were. *)
Theorem UnmarshalMsg_keeps_missing_fields (p z : Packet) (rest : list byte) :
  wfPacket p ->
  UnmarshalMsg z ([xde; x00; x00] ++ rest) = Got z rest /\
  Forall2 (fun entry assign =>
             UnmarshalMsg z ([xde; x00; x01] ++ entry ++ rest) = Got (assign z) rest)
    (fieldChunks p) (fieldAssigns p).
Proof.
  intros Hwf. split.
  - unfold UnmarshalMsg. cbn [app]. rewrite ReadMapHeaderBytes_map16. reflexivity.
  - eapply Forall2_impl; [apply (fieldChunks_decode p Hwf)|].
    intros entry assign Hd. unfold UnmarshalMsg. cbn [app].
    rewrite ReadMapHeaderBytes_map16.
    change (Z.to_nat (256 * byteZ x00 + byteZ x01)) with 1%nat.
    rewrite (Hd 0%nat z rest). reflexivity.
Qed.

End CodecMore.

Lemma MarshalMsg_appends_and_frames_witness :
  UnmarshalMsg zeroPacket
    (MarshalMsg (Examples.dataPacket 1 4 Examples.ab) (MarshalMsg Examples.wirePacket []))
  = Got Examples.wirePacket (MarshalMsg (Examples.dataPacket 1 4 Examples.ab) []).
Proof.
  destruct (@MarshalMsg_appends_and_frames msgpack msgpack_lawful Examples.wirePacket
              (Examples.dataPacket 1 4 Examples.ab) zeroPacket [] [] wirePacket_wf)
    as (_ & _ & H3).
  exact H3.
Defined.

Lemma UnmarshalMsg_any_field_order_witness :
  UnmarshalMsg zeroPacket
    ([xde; x00; x12] ++ concat (rev (fieldChunks Examples.wirePacket)))
  = Got Examples.wirePacket [].
Proof.
  apply (@UnmarshalMsg_any_field_order msgpack msgpack_lawful Examples.wirePacket
           zeroPacket _ wirePacket_wf).
  apply Permutation_rev.
Defined.

Lemma UnmarshalMsg_keeps_missing_fields_witness :
  UnmarshalMsg Examples.wirePacket [xde; x00; x00] = Got Examples.wirePacket [] /\
  UnmarshalMsg Examples.wirePacket
    ([xde; x00; x01] ++ encodeName "SeqNum" ++ AppendInt64 [] 7)
  = Got (upd_SeqNum 7 Examples.wirePacket) [].
Proof.
  destruct (@UnmarshalMsg_keeps_missing_fields msgpack msgpack_lawful
              (upd_SeqNum 7 Examples.wirePacket) Examples.wirePacket [])
    as [H0 Hone].
  - constructor; unfold wfTime, Int64.in_range; vm_compute; repeat split; congruence.
  - split; [exact H0|].
    pose proof (Forall2_lookup_lr _ _ _ 4%nat _ _ Hone eq_refl eq_refl) as Hd.
    cbv beta in Hd. rewrite !app_nil_r in Hd. exact Hd.
Defined.

(** *** The size of the encoding *)

Lemma appendString_size (s : string) :
  (length (Msgpack.appendString [] s) <= 5 + String.length s)%nat.
Proof.
  unfold Msgpack.appendString. cbv zeta.
  repeat match goal with |- context [if ?c then _ else _] => destruct c end;
    simpl; rewrite ?length_app, ?MsgpackFacts.bigEndian_length, ?bytesOf_length;
    simpl; lia.
Qed.

Lemma appendBytes_size (d : list byte) :
  (length (Msgpack.appendBytes [] d) <= 5 + length d)%nat.
Proof.
  unfold Msgpack.appendBytes. cbv zeta.
  repeat match goal with |- context [if ?c then _ else _] => destruct c end;
    simpl; rewrite ?length_app, ?MsgpackFacts.bigEndian_length; simpl; lia.
Qed.

Lemma appendInt64_size (i : Z) : (length (Msgpack.appendInt64 [] i) <= 9)%nat.
Proof.
  unfold Msgpack.appendInt64.
  repeat match goal with |- context [if ?c then _ else _] => destruct c end;
    simpl; lia.
Qed.

(** X28. [Msgsize] is an upper bound of the size of the encoding: with the
    msgp library as MessagePack defines it, [MarshalMsg] appends at most
    [Msgsize] bytes to the buffer, so that the room [MarshalMsg] asks for
    with [Require] is enough. *)
Theorem Msgsize_bounds_encoding (p : Packet) (b : list byte) :
  Z.of_nat (length (MarshalMsg (H := msgpack) p b))
  <= Z.of_nat (length b) + Msgsize p.
Proof.
  rewrite (@MarshalMsg_chunks msgpack msgpack_lawful).
  unfold fieldChunks, Msgsize, StringPrefixSize, BytesPrefixSize, TimeSize,
    Int64Size, BoolSize.
  pose proof (appendString_size (From p)). pose proof (appendString_size (Dest p)).
  pose proof (appendBytes_size (Data p)).
  pose proof (appendInt64_size (SeqNum p)). pose proof (appendInt64_size (SeqRetry p)).
  pose proof (appendInt64_size (AckNum p)). pose proof (appendInt64_size (AckRetry p)).
  pose proof (appendInt64_size (AvailReaderBytesCap p)).
  pose proof (appendInt64_size (AvailReaderMsgCap p)).
  pose proof (appendInt64_size (FromRttEstNsec p)).
  pose proof (appendInt64_size (FromRttSdNsec p)).
  pose proof (appendInt64_size (FromRttN p)).
  pose proof (appendInt64_size (CumulBytesTransmitted p)).
  cbn [concat AppendString AppendTime AppendInt64 AppendBool AppendBytes msgpack].
  rewrite !length_app. unfold encodeName.
  cbn [length]. rewrite !bytesOf_length.
  unfold Msgpack.appendTime, Msgpack.appendBool.
  cbn [app]. rewrite ?length_app. cbn [length].
  rewrite ?length_app, ?MsgpackFacts.bigEndian_length. cbn [length String.length].
  lia.
Qed.
(** ** The codec over streams *)

Section StreamLaws.

Context `{ML : MsgpLib} `{MLaw : !MsgpLawful} `{MS : MsgpStream} `{SLaw : !StreamLawful}.

(** One step of [EncodeMsg] that succeeds, after what was written so far. *)
Lemma encode_step (step : Writer * option StreamError) (en0 en : Writer)
    (sofar bytes : list byte) (rest : Writer -> Writer * option StreamError)
    (en' : Writer) :
  writes step en bytes ->
  written en = written en0 ++ sofar ->
  (let '(en, err) := step in
   match err with
   | Some e => (en, Some e)
   | None => rest en
   end) = (en', None) ->
  exists en1, written en1 = written en0 ++ sofar ++ bytes /\ rest en1 = (en', None).
Proof.
  intros Hw Hsofar. destruct step as [en1 [e|]] eqn:E; [discriminate|].
  intros Hrest. exists en1. split; [|exact Hrest].
  rewrite (Hw en1 eq_refl), Hsofar, <- app_assoc. reflexivity.
Qed.

Ltac encode_step :=
  match goal with
  | Hrun : (let '(_, _) := ?step in _) = (_, None),
    Hs : written ?cur = written ?en0 ++ ?sofar |- _ =>
    let en1 := fresh "en" in
    let Hs1 := fresh "Hs" in
    let Hrun1 := fresh "Hrun" in
    destruct (encode_step step en0 cur sofar _ _ _
                ltac:(first [ apply enAppend_writes | apply enWriteString_writes
                            | apply enWriteTime_writes | apply enWriteInt64_writes
                            | apply enWriteBool_writes | apply enWriteBytes_writes ])
                Hs Hrun) as (en1 & Hs1 & Hrun1);
    clear Hrun Hs; cbv beta in Hrun1
  end.

(** X29. [EncodeMsg] and [MarshalMsg] write the same bytes: when
    [EncodeMsg] returns without error, what it has put on the stream is the
    encoding that [MarshalMsg] appends to a buffer, so what one side encodes
    with either the other side decodes. *)
Theorem EncodeMsg_writes_MarshalMsg (z : Packet) (en en' : Writer) :
  EncodeMsg z en = (en', None) ->
  written en' = written en ++ MarshalMsg z [].
Proof.
  unfold EncodeMsg. intros Hrun.
  assert (Hs : written en = written en ++ []) by (rewrite app_nil_r; reflexivity).
  do 36 encode_step.
  match goal with Hrun : (_, None) = (_, None) |- _ => injection Hrun as <- end.
  match goal with Hs : written _ = _ |- _ => rewrite Hs end.
  f_equal. unfold MarshalMsg. cbv zeta. rewrite Require_bytes.
  rewrite !(AppendString_app (_ ++ _)), !(AppendTime_app (_ ++ _)),
    !(AppendInt64_app (_ ++ _)), !(AppendBool_app (_ ++ _)),
    !(AppendBytes_app (_ ++ _)).
  rewrite <- !app_assoc. reflexivity.
Qed.

Lemma readField_reads {A : Type} (step : Reader * (A + StreamError)) (dc : Reader)
    (read : MsgpResult A) (assign : A -> Packet -> Packet) (z z' : Packet)
    (o : list byte) :
  reads step dc read ->
  readInto read assign z = Got z' o ->
  exists dc', readField step assign z = (dc', inl z') /\ remaining dc' = o.
Proof.
  intros Hr. destruct read as [v b|e]; [|discriminate]. simpl. intros [= <- <-].
  destruct (Hr v b eq_refl) as (dc' & -> & Hrem). exists dc'. auto.
Qed.

Lemma decodeField_reads (field : list byte) (z z' : Packet) (dc : Reader)
    (o : list byte) :
  unmarshalField field z (remaining dc) = Got z' o ->
  exists dc', decodeField field z dc = (dc', inl z') /\ remaining dc' = o.
Proof.
  unfold unmarshalField, decodeField. cbv zeta.
  repeat match goal with
  | |- context [String.eqb ?a ?b] =>
    destruct (String.eqb a b);
      [ apply (readField_reads _ dc);
        first [ apply dcReadString_reads | apply dcReadTime_reads
              | apply dcReadInt64_reads | apply dcReadBool_reads
              | apply dcReadBytes_reads ] |]
  end.
  destruct (Skip (remaining dc)) as [[] b|e] eqn:Hskip; [|discriminate].
  intros [= <- <-]. destruct (dcSkip_reads dc b Hskip) as (dc' & -> & Hrem).
  exists dc'. auto.
Qed.

Lemma decodeFields_reads (isz : nat) (z p : Packet) (dc : Reader) (o : list byte) :
  unmarshalFields isz z (remaining dc) = Got p o ->
  exists dc', decodeFields isz z dc = (dc', inl p) /\ remaining dc' = o.
Proof.
  revert z dc. induction isz as [|isz IH]; intros z dc; simpl.
  - intros [= <- <-]. exists dc. auto.
  - destruct (ReadMapKeyZC (remaining dc)) as [field b|e] eqn:Hkey; [|discriminate].
    destruct (dcReadMapKeyPtr_reads dc field b Hkey) as (dc1 & -> & Hrem1).
    rewrite <- Hrem1.
    destruct (unmarshalField field z (remaining dc1)) as [z1 b1|e] eqn:Hf; [|discriminate].
    destruct (decodeField_reads field z z1 dc1 b1 Hf) as (dc2 & -> & Hrem2).
    rewrite <- Hrem2. apply IH.
Qed.

Lemma DecodeMsg_reads (z p : Packet) (dc : Reader) (o : list byte) :
  UnmarshalMsg z (remaining dc) = Got p o ->
  exists dc', DecodeMsg z dc = (dc', inl p) /\ remaining dc' = o.
Proof.
  unfold UnmarshalMsg, DecodeMsg.
  destruct (ReadMapHeaderBytes (remaining dc)) as [isz b|e] eqn:Hh; [|discriminate].
  destruct (dcReadMapHeader_reads dc isz b Hh) as (dc1 & -> & Hrem1).
  rewrite <- Hrem1. apply decodeFields_reads.
Qed.

(** X30. [DecodeMsg] reads from a stream what [UnmarshalMsg] reads from a
    byte slice: whenever [UnmarshalMsg] decodes the bytes the reader has
    not consumed yet, [DecodeMsg] returns the same packet and leaves on the
    stream the bytes [UnmarshalMsg] returns.  So a packet that [EncodeMsg]
    or [MarshalMsg] wrote comes back from the stream equal in all its
    fields, with what follows it left to read. *)
Theorem DecodeMsg_reads_as_UnmarshalMsg (z p : Packet) (dc : Reader) :
  (forall o, UnmarshalMsg z (remaining dc) = Got p o ->
     exists dc', DecodeMsg z dc = (dc', inl p) /\ remaining dc' = o) /\
  (forall o, wfPacket p -> remaining dc = MarshalMsg p [] ++ o ->
     exists dc', DecodeMsg z dc = (dc', inl p) /\ remaining dc' = o).
Proof.
  split; [intros o; apply DecodeMsg_reads|].
  intros o Hwf Hrem. apply DecodeMsg_reads. rewrite Hrem.
  apply UnmarshalMsg_frame, Hwf.
Qed.

End StreamLaws.

(** The streams held in memory are lawful. *)
Lemma memoryStream_lawful : @StreamLawful msgpack memoryStream.
Proof.
  pose proof msgpack_lawful as L.
  constructor; simpl; unfold writes, reads; simpl.
  - intros en bs en' [= <-]. reflexivity.
  - intros en s en' [= <-]. apply (@AppendString_app msgpack L).
  - intros en t en' [= <-]. apply (@AppendTime_app msgpack L).
  - intros en i en' [= <-]. apply (@AppendInt64_app msgpack L).
  - intros en v en' [= <-]. apply (@AppendBool_app msgpack L).
  - intros en d en' [= <-]. apply (@AppendBytes_app msgpack L).
  - intros dc v o ->. eexists. split; reflexivity.
  - intros dc v o ->. eexists. split; reflexivity.
  - intros dc v o ->. eexists. split; reflexivity.
  - intros dc v o ->. eexists. split; reflexivity.
  - intros dc v o ->. eexists. split; reflexivity.
  - intros dc v o ->. eexists. split; reflexivity.
  - intros dc scratch v o ->. eexists. split; reflexivity.
  - intros dc o ->. eexists. split; reflexivity.
Qed.

Lemma EncodeMsg_writes_MarshalMsg_witness :
  fst (@EncodeMsg memoryStream Examples.wirePacket [x01; x02])
  = [x01; x02] ++ MarshalMsg (H := msgpack) Examples.wirePacket [].
Proof.
  apply (@EncodeMsg_writes_MarshalMsg msgpack msgpack_lawful memoryStream
           memoryStream_lawful Examples.wirePacket [x01; x02]
           (fst (@EncodeMsg memoryStream Examples.wirePacket [x01; x02]))).
  vm_compute. reflexivity.
Defined.

Lemma DecodeMsg_reads_as_UnmarshalMsg_witness :
  @DecodeMsg memoryStream zeroPacket
    (fst (@EncodeMsg memoryStream Examples.wirePacket []) ++ [x07])
  = ([x07], inl Examples.wirePacket).
Proof.
  destruct (@DecodeMsg_reads_as_UnmarshalMsg msgpack msgpack_lawful memoryStream
              memoryStream_lawful zeroPacket Examples.wirePacket
              (fst (@EncodeMsg memoryStream Examples.wirePacket []) ++ [x07]))
    as [_ H2].
  destruct (H2 [x07] wirePacket_wf) as (dc' & Hrun & Hrem).
  - vm_compute. reflexivity.
  - rewrite Hrun. simpl in Hrem. rewrite Hrem. reflexivity.
Defined.
